(** * GeminiProxy: the OpenAI-compatible gateway of [src/routes/apiV1.js]
    and the translators of [utils/transform.js]

    A shallow embedding of the request-translation and streaming code and
    the properties its specification states about it.

    Conventions of the embedding.
    - A JavaScript value that came out of [JSON.parse] is a [JSON] tree.  An
      object is an association list in insertion order with distinct keys;
      a missing key ([undefined]) is [None].
    - No key of an object is the name of a member of [Object.prototype]
      ([__proto__], [constructor], ...): reading a key finds an own
      property or nothing.
    - Numbers are integers ([Z]).  The modelled code only tests numbers for
      truthiness, compares them with [null] or moves them around.
    - A mutable local ([let]) becomes a value threaded through the function;
      a [forEach] with side effects becomes a left fold over a state. *)

From Stdlib Require Import ZArith List Bool Ascii String Lia DecimalString.
From Stdlib Require Import DecimalPos DecimalN FinFun.
From stdpp Require Import base strings gmap.
Import ListNotations.

#[local] Set Warnings "-register-all".

#[local] Open Scope string_scope.
#[local] Open Scope list_scope.

(** ** JavaScript strings *)

Module JsString.

(** [s.startsWith(p)] *)
Definition startsWith (s p : string) : bool := String.prefix p s.

(** [s.endsWith(p)] *)
Definition endsWith (s p : string) : bool :=
  let n := String.length s in
  let k := String.length p in
  (k <=? n)%nat && String.eqb (String.substring (n - k) k s) p.

(** [s.includes(p)] *)
Fixpoint includes (s p : string) : bool :=
  String.prefix p s ||
  match s with
  | EmptyString => false
  | String _ s' => includes s' p
  end.

(** [s.substring(n)] *)
Definition substring_from (n : nat) (s : string) : string :=
  String.substring n (String.length s - n) s.

Definition is_digit (c : ascii) : bool :=
  let n := nat_of_ascii c in (48 <=? n)%nat && (n <=? 57)%nat.

(** Truthiness of a string: [!!s]. *)
Definition truthy (s : string) : bool := negb (String.eqb s "").

(** [`${n}`] for an integer (timestamps, indices, counters). *)
Definition show_Z (n : Z) : string := NilZero.string_of_int (Z.to_int n).

(** [strs.join("")] *)
Definition join (strs : list string) : string := String.concat "" strs.

(** The white space and line terminators [trim] removes, in UTF-8:
    U+0009..U+000D, U+0020, U+00A0, U+1680, U+2000..U+200A, U+2028,
    U+2029, U+202F, U+205F, U+3000, U+FEFF. *)
Definition bytes (l : list nat) : string :=
  fold_right (fun n s => String (ascii_of_nat n) s) "" l.

Definition white_space : list string :=
  map bytes
    ([[9]; [10]; [11]; [12]; [13]; [32]; [194; 160]; [225; 154; 128]]
     ++ map (fun k => [226; 128; 128 + k]) (seq 0 11)
     ++ [[226; 128; 168]; [226; 128; 169]; [226; 128; 175];
         [226; 129; 159]; [227; 128; 128]; [239; 187; 191]]).

Fixpoint reverse (s : string) : string :=
  match s with
  | EmptyString => ""
  | String c s' => reverse s' +:+ String c ""
  end.

(** [s] without one leading member of [ws], if it starts with one. *)
Fixpoint strip_one (ws : list string) (s : string) : option string :=
  match ws with
  | [] => None
  | w :: ws' =>
      if String.prefix w s then Some (String.substring (String.length w)
                                        (String.length s - String.length w) s)
      else strip_one ws' s
  end.

Fixpoint strip (fuel : nat) (ws : list string) (s : string) : string :=
  match fuel with
  | O => s
  | S fuel' =>
      match strip_one ws s with
      | Some s' => strip fuel' ws s'
      | None => s
      end
  end.

(** [s.trim()] *)
Definition trim (s : string) : string :=
  let s := strip (String.length s) white_space s in
  reverse (strip (String.length s) (map reverse white_space) (reverse s)).

(** [s.length]: UTF-16 code units of a UTF-8 text. *)
Fixpoint utf16_length (s : string) : nat :=
  match s with
  | EmptyString => 0
  | String c s' =>
      let n := nat_of_ascii c in
      (if (n <? 128)%nat then 1
       else if (n <? 192)%nat then 0
       else if (n <? 240)%nat then 1
       else 2) + utf16_length s'
  end.

End JsString.

Import JsString.

(** ** JSON values *)

Inductive JSON : Type :=
| JNull
| JBool (b : bool)
| JNum (n : Z)
| JStr (s : string)
| JArr (items : list JSON)
| JObj (fields : list (string * JSON)).

Module Js.

(** [o[k]] on the field list of an object. *)
Fixpoint get (k : string) (fs : list (string * JSON)) : option JSON :=
  match fs with
  | [] => None
  | (k', v) :: fs' => if String.eqb k' k then Some v else get k fs'
  end.

(** [k in o] *)
Definition has (k : string) (fs : list (string * JSON)) : bool :=
  match get k fs with Some _ => true | None => false end.

(** [o[k] = v]: an existing key keeps its place, a new one goes last. *)
Fixpoint set (k : string) (v : JSON) (fs : list (string * JSON))
  : list (string * JSON) :=
  match fs with
  | [] => [(k, v)]
  | (k', v') :: fs' =>
      if String.eqb k' k then (k', v) :: fs' else (k', v') :: set k v fs'
  end.

(** [delete o[k]] *)
Fixpoint del (k : string) (fs : list (string * JSON)) : list (string * JSON) :=
  match fs with
  | [] => []
  | (k', v') :: fs' =>
      if String.eqb k' k then del k fs' else (k', v') :: del k fs'
  end.

(** [x.k] for any value [x] that is not [null] or [undefined]: only an
    object has fields of its own ([length] and the like are never read
    through this). *)
Definition field (k : string) (x : JSON) : option JSON :=
  match x with
  | JObj fs => get k fs
  | _ => None
  end.

(** [!!x] *)
Definition truthy (x : JSON) : bool :=
  match x with
  | JNull => false
  | JBool b => b
  | JNum n => negb (n =? 0)%Z
  | JStr s => JsString.truthy s
  | JArr _ => true
  | JObj _ => true
  end.

(** [!!x] where [x] may be [undefined]. *)
Definition otruthy (x : option JSON) : bool :=
  match x with
  | Some v => truthy v
  | None => false
  end.

Definition isArray (x : JSON) : bool :=
  match x with JArr _ => true | _ => false end.

(** [typeof x === 'object'] (true of [null], arrays and objects). *)
Definition typeof_object (x : JSON) : bool :=
  match x with JNull | JArr _ | JObj _ => true | _ => false end.

(** [x === 'lit'] *)
Definition is_str (lit : string) (x : option JSON) : bool :=
  match x with
  | Some (JStr s) => String.eqb s lit
  | _ => false
  end.

End Js.

(** ** Model catalog and request validation
    ([router.get('/models')] and the validation step of
    [router.post('/chat/completions')]) *)

Module Catalog.

(** What the two routes read from their collaborators. *)
Record config := {
  (** [Object.keys(await configService.getModelsConfig())] *)
  modelsConfig : list string;
  (** [String(await configService.getSetting('web_search', '0'))] *)
  web_search : string;
  (** [vertexProxyService.isVertexEnabled()] *)
  isVertexEnabled : bool;
  (** [vertexProxyService.getVertexSupportedModels()] *)
  getVertexSupportedModels : list string
}.

(** [/^gemini-[2-9]\.\d/.test(modelId)] *)
Definition is_gemini2plus (modelId : string) : bool :=
  startsWith modelId "gemini-" &&
  match substring_from 7 modelId with
  | String c1 (String c2 (String c3 _)) =>
      let n := nat_of_ascii c1 in
      (50 <=? n)%nat && (n <=? 57)%nat &&
      Ascii.eqb c2 "."%char && is_digit c3
  | _ => false
  end.

Definition webSearchEnabled (c : config) : bool :=
  String.eqb (web_search c) "1".

Definition searchModels (c : config) : list string :=
  if webSearchEnabled c then
    map (fun modelId => modelId +:+ "-search")
      (List.filter (fun modelId =>
                 is_gemini2plus modelId && negb (endsWith modelId "-search"))
         (modelsConfig c))
  else [].

Definition nonThinkingModels (c : config) : list string :=
  map (fun modelId => modelId +:+ ":non-thinking")
    (List.filter (fun modelId =>
               includes modelId "gemini-2.5-flash-preview"
               && negb (endsWith modelId ":non-thinking"))
       (modelsConfig c)).

Definition vertexModels (c : config) : list string :=
  if isVertexEnabled c then getVertexSupportedModels c else [].

(** *** GET /v1/models *)




(** *** POST /v1/chat/completions, model validation *)

Definition enabledModels (c : config) : list string :=
  let enabledModels := modelsConfig c in
  let enabledModels :=
    if webSearchEnabled c then enabledModels ++ searchModels c
    else enabledModels in
  let enabledModels := enabledModels ++ nonThinkingModels c in
  if isVertexEnabled c then enabledModels ++ getVertexSupportedModels c
  else enabledModels.

Record error_body := {
  message : string;
  type : string;
  param : string
}.

Inductive validation :=
| Rejected (status : Z) (error : error_body)
| Passed.

Definition show_model (requestedModelId : option string) : string :=
  match requestedModelId with
  | Some m => m
  | None => "undefined"
  end.

(** [enabledModels.includes(requestedModelId)] *)
Definition list_includes (l : list string) (m : string) : bool :=
  existsb (String.eqb m) l.

(** [requestedModelId] is [None] when the body has no [model]. *)
Definition validate (c : config) (requestedModelId : option string)
  : validation :=
  let bad :=
    match requestedModelId with
    | None => true
    | Some m => negb (JsString.truthy m) || negb (list_includes (enabledModels c) m)
    end in
  if bad then
    Rejected 400
      {| message := "Model not found or not enabled: "
                    +:+ show_model requestedModelId
                    +:+ ". Please check the /v1/models endpoint for available models.";
         type := "invalid_request_error";
         param := "model" |}
  else Passed.

Definition accepts (c : config) (m : string) : bool :=
  match validate c (Some m) with Passed => true | Rejected _ _ => false end.

End Catalog.

(** ** The runtime's built-ins

    [JSON.parse], [JSON.stringify] and [Number] belong to the JavaScript
    runtime, not to the repository.  The code is modelled over any
    implementation of them. *)

Class Builtins := {
  (** [JSON.parse(s)]; [None] when it throws [SyntaxError]. *)
  JSON_parse : string -> option JSON;
  (** [JSON.stringify(v)] *)
  JSON_stringify : JSON -> string;
  (** [Number(v)] when the result is finite ([Number.isFinite]). *)
  Number_finite : JSON -> option Z;
  (** [String(v)] of a number or a boolean. *)
  String_of : JSON -> string;
  (** [e.message] of the [SyntaxError] of [JSON.parse(s)]. *)
  SyntaxError_message : string -> string;
  (** [e.message] of the [TypeError] of reading a property of [undefined]
      or [null]. *)
  TypeError_message : string
}.

(** ** Response translators
    ([transformGeminiStreamChunk], [transformGeminiResponseToOpenAI]) *)

Module Response.

(** The upstream response of the data model:
    [{candidates:[{content:{role,parts:[Part]}, finishReason, index?}],
      promptFeedback?, usageMetadata?}].  A field that may be missing is
    an [option]. *)

Record function_call := {
  fc_name : option string;
  fc_args : option JSON
}.

Record part := {
  text : option string;
  functionCall : option function_call
}.

Record content := {
  role : option string;
  parts : option (list part)
}.

Record candidate := {
  cand_content : option content;
  finishReason : option string;
  index : option Z
}.

Record usage_metadata := {
  promptTokenCount : option Z;
  candidatesTokenCount : option Z;
  totalTokenCount : option Z
}.

Record gemini_response := {
  candidates : option (list candidate);
  blockReason : option string;  (** [promptFeedback?.blockReason] *)
  usageMetadata : option usage_metadata
}.

Definition show_opt (s : option string) : string :=
  match s with Some x => x | None => "undefined" end.

Definition opt_field (k : string) (v : option JSON) : list (string * JSON) :=
  match v with Some x => [(k, x)] | None => [] end.

Definition json_opt_str (s : option string) : JSON :=
  match s with Some x => JStr x | None => JNull end.

(** [candidate.content?.parts] when its [length > 0], else nothing. *)
Definition live_parts (c : candidate) : list part :=
  match cand_content c with
  | Some ct => match parts ct with Some ps => ps | None => [] end
  | None => []
  end.

Definition textParts (c : candidate) : list part :=
  List.filter (fun p => match text p with Some _ => true | None => false end)
    (live_parts c).

Definition functionCallParts (c : candidate) : list function_call :=
  flat_map (fun p => match functionCall p with Some f => [f] | None => [] end)
    (live_parts c).

(** [contentText]: [null] ([None]) unless some part has a [text]. *)
Definition contentText (c : candidate) : option string :=
  match textParts c with
  | [] => None
  | tps => Some (join (map (fun p => match text p with Some t => t | None => "" end) tps))
  end.

(** [`call_${part.functionCall.name}_${Date.now()}_${index}`] *)
Definition call_id (now_ms : Z) (idx : nat) (f : function_call) : string :=
  "call_" +:+ show_opt (fc_name f) +:+ "_" +:+ show_Z now_ms +:+ "_"
  +:+ show_Z (Z.of_nat idx).

Fixpoint mapi {A B} (f : nat -> A -> B) (i : nat) (l : list A) : list B :=
  match l with
  | [] => []
  | x :: l' => f i x :: mapi f (S i) l'
  end.

(** *** Reading an upstream record out of a JSON value

    A field of another type than the data model gives it reads as
    missing; on upstream data that follows the data model the reading is
    exact. *)
Definition read_string (v : option JSON) : option string :=
  match v with Some (JStr s) => Some s | _ => None end.

Definition read_number (v : option JSON) : option Z :=
  match v with Some (JNum n) => Some n | _ => None end.

Definition read_part (v : JSON) : part :=
  {| text := read_string (Js.field "text" v);
     functionCall :=
       match Js.field "functionCall" v with
       | Some (JObj f) =>
           Some {| fc_name := read_string (Js.get "name" f);
                   fc_args := Js.get "args" f |}
       | _ => None
       end |}.

Definition read_content (v : JSON) : content :=
  {| role := read_string (Js.field "role" v);
     parts := match Js.field "parts" v with
              | Some (JArr ps) => Some (map read_part ps)
              | _ => None
              end |}.

Definition read_candidate (v : JSON) : candidate :=
  {| cand_content := match Js.field "content" v with
                     | Some (JObj c) => Some (read_content (JObj c))
                     | _ => None
                     end;
     finishReason := read_string (Js.field "finishReason" v);
     index := read_number (Js.field "index" v) |}.

Definition read_response (v : JSON) : gemini_response :=
  {| candidates := match Js.field "candidates" v with
                   | Some (JArr cs) => Some (map read_candidate cs)
                   | _ => None
                   end;
     blockReason :=
       match Js.field "promptFeedback" v with
       | Some f => read_string (Js.field "blockReason" f)
       | None => None
       end;
     usageMetadata :=
       match Js.field "usageMetadata" v with
       | Some (JObj u) =>
           Some {| promptTokenCount := read_number (Js.get "promptTokenCount" u);
                   candidatesTokenCount :=
                     read_number (Js.get "candidatesTokenCount" u);
                   totalTokenCount := read_number (Js.get "totalTokenCount" u) |}
       | _ => None
       end |}.

Section Translators.
Context `{Builtins}.

Definition function_json (f : function_call) : JSON :=
  JObj (opt_field "name" (option_map JStr (fc_name f))
        ++ [("arguments",
             JStr (JSON_stringify
                     (match fc_args f with
                      | Some a => if Js.truthy a then a else JObj []
                      | None => JObj []
                      end)))]).

(** *** Finish reason, streamed chunk

    [toolCalls] is [toolCalls && toolCalls.length > 0]. *)
Definition stream_finish_reason (finishReason : option string)
    (toolCalls : bool) : option string :=
  let same lit := match finishReason with
                  | Some r => String.eqb r lit
                  | None => false
                  end in
  if same "STOP" then Some "stop"
  else if same "MAX_TOKENS" then Some "length"
  else if same "SAFETY" || same "RECITATION" then Some "content_filter"
  else if same "TOOL_CALLS"
          || (toolCalls && negb (same "stop") && negb (same "length"))
  then Some "tool_calls"
  else if match finishReason with
          | Some r => JsString.truthy r
          | None => false
          end
          && negb (same "FINISH_REASON_UNSPECIFIED") && negb (same "OTHER")
  then finishReason
  else None.

(** *** Finish reason, complete response *)
Definition response_finish_reason (finishReason : option string)
    (toolCalls : bool) : option string :=
  let same lit := match finishReason with
                  | Some r => String.eqb r lit
                  | None => false
                  end in
  if same "STOP" then Some "stop"
  else if same "MAX_TOKENS" then Some "length"
  else if same "SAFETY" || same "RECITATION" then Some "content_filter"
  else if same "TOOL_CALLS" then Some "tool_calls"
  else if toolCalls then Some "tool_calls"
  else if match finishReason with
          | Some r => JsString.truthy r
          | None => false
          end
          && negb (same "FINISH_REASON_UNSPECIFIED") && negb (same "OTHER")
  then finishReason
  else None.

(** *** [transformGeminiStreamChunk]

    The object that is stringified into the frame, [None] where the
    function returns [null].  [now_ms] is [Date.now()], [rand] is
    [Math.random().toString(36).substring(2, 8)]. *)
Definition stream_chunk (geminiChunk : gemini_response)
    (modelId : option string) (now_ms : Z) (rand : string) : option JSON :=
  match candidates geminiChunk with
  | None | Some [] => None
  | Some (candidate :: _) =>
      let contentText := contentText candidate in
      let fcs := functionCallParts candidate in
      let hasCalls := match fcs with [] => false | _ => true end in
      let toolCalls :=
        mapi (fun idx f =>
                JObj [("index", JNum (Z.of_nat idx));
                      ("id", JStr (call_id now_ms idx f));
                      ("type", JStr "function");
                      ("function", function_json f)]) 0 fcs in
      let finishReason :=
        stream_finish_reason (finishReason candidate) hasCalls in
      let role_field :=
        match cand_content candidate with
        | Some ct =>
            match role ct with
            | Some r =>
                if JsString.truthy r
                   && (match contentText with Some _ => true | None => false end
                       || hasCalls)
                then [("role", JStr (if String.eqb r "model" then "assistant" else r))]
                else []
            | None => []
            end
        | None => []
        end in
      let delta :=
        role_field ++
        (if hasCalls then
           [("tool_calls", JArr toolCalls);
            ("content", json_opt_str contentText)]
         else
           match contentText with
           | Some t => [("content", JStr t)]
           | None => []
           end) in
      match delta, finishReason with
      | [], None => None
      | _, _ =>
          Some (JObj
            (("id", JStr ("chatcmpl-" +:+ show_Z now_ms +:+ "-" +:+ rand))
             :: ("object", JStr "chat.completion.chunk")
             :: ("created", JNum (now_ms / 1000)%Z)
             :: opt_field "model" (option_map JStr modelId)
             ++ [("choices",
                  JArr [JObj [("index",
                               JNum (match index candidate with
                                     | Some i => i
                                     | None => 0%Z
                                     end));
                              ("delta", JObj delta);
                              ("finish_reason", json_opt_str finishReason);
                              ("logprobs", JNull)]])]))
      end
  end.

(** An SSE data frame: [`data: ${payload}\n\n`]. *)
Definition sse (payload : string) : string :=
  "data: " +:+ payload +:+ String "010" (String "010" "").

Definition DONE : string := sse "[DONE]".

Definition transformGeminiStreamChunk (geminiChunk : gemini_response)
    (modelId : option string) (now_ms : Z) (rand : string) : option string :=
  option_map (fun o => sse (JSON_stringify o))
    (stream_chunk geminiChunk modelId now_ms rand).

(** *** [transformGeminiResponseToOpenAI]

    The object that is stringified. *)
Definition error_completion (modelId : option string) (now_ms : Z)
    (errorMessage finishReason : string) : JSON :=
  JObj (("id", JStr ("chatcmpl-error-" +:+ show_Z now_ms))
        :: ("object", JStr "chat.completion")
        :: ("created", JNum (now_ms / 1000)%Z)
        :: opt_field "model" (option_map JStr modelId)
        ++ [("choices",
             JArr [JObj [("index", JNum 0%Z);
                         ("message",
                          JObj [("role", JStr "assistant");
                                ("content", JStr errorMessage)]);
                         ("finish_reason", JStr finishReason);
                         ("logprobs", JNull)]]);
            ("usage",
             JObj [("prompt_tokens", JNum 0%Z);
                   ("completion_tokens", JNum 0%Z);
                   ("total_tokens", JNum 0%Z)])]).

Definition count_or_0 (n : option Z) : Z :=
  match n with Some x => x | None => 0%Z end.

Definition completion (geminiResponse : gemini_response)
    (modelId : option string) (now_ms : Z) (rand : string) : JSON :=
  match candidates geminiResponse with
  | None | Some [] =>
      match blockReason geminiResponse with
      | Some r =>
          if JsString.truthy r then
            error_completion modelId now_ms
              ("Request blocked by Gemini: " +:+ r +:+ ".") "content_filter"
          else
            error_completion modelId now_ms
              "Gemini response missing candidates." "error"
      | None =>
          error_completion modelId now_ms
            "Gemini response missing candidates." "error"
      end
  | Some (candidate :: _) =>
      let contentText := contentText candidate in
      let fcs := functionCallParts candidate in
      let hasCalls := match fcs with [] => false | _ => true end in
      let toolCalls :=
        mapi (fun idx f =>
                JObj [("id", JStr (call_id now_ms idx f));
                      ("type", JStr "function");
                      ("function", function_json f)]) 0 fcs in
      let is_raw lit := match finishReason candidate with
                        | Some r => String.eqb r lit
                        | None => false
                        end in
      let finishReason :=
        response_finish_reason (finishReason candidate) hasCalls in
      let blocked :=
        match contentText with None => true | Some _ => false end
        && negb hasCalls && is_raw "SAFETY" in
      let contentText :=
        if blocked then Some "[Content blocked due to safety settings]"
        else contentText in
      let finishReason :=
        if blocked then Some "content_filter"
        else if is_raw "RECITATION" then Some "content_filter"
        else finishReason in
      let message :=
        ("role", JStr "assistant")
        :: (if hasCalls then [("tool_calls", JArr toolCalls)] else [])
        ++ [("content", json_opt_str contentText)] in
      let usage :=
        let u := usageMetadata geminiResponse in
        let rd (f : usage_metadata -> option Z) :=
          match u with Some m => count_or_0 (f m) | None => 0%Z end in
        JObj [("prompt_tokens", JNum (rd promptTokenCount));
              ("completion_tokens", JNum (rd candidatesTokenCount));
              ("total_tokens", JNum (rd totalTokenCount))] in
      JObj (("id", JStr ("chatcmpl-" +:+ show_Z now_ms +:+ "-" +:+ rand))
            :: ("object", JStr "chat.completion")
            :: ("created", JNum (now_ms / 1000)%Z)
            :: opt_field "model" (option_map JStr modelId)
            ++ [("choices",
                 JArr [JObj [("index",
                              JNum (match index candidate with
                                    | Some i => i
                                    | None => 0%Z
                                    end));
                             ("message", JObj message);
                             ("finish_reason", json_opt_str finishReason);
                             ("logprobs", JNull)]]);
                ("usage", usage);
                ("system_fingerprint", JNull)])
  end.

Definition transformGeminiResponseToOpenAI (geminiResponse : gemini_response)
    (modelId : option string) (now_ms : Z) (rand : string) : string :=
  JSON_stringify (completion geminiResponse modelId now_ms rand).

(** [choices[0].finish_reason] of a translated object. *)
Definition finish_reason_of (o : JSON) : option JSON :=
  match Js.field "choices" o with
  | Some (JArr (c :: _)) => Js.field "finish_reason" c
  | _ => None
  end.

End Translators.

End Response.

(** ** Stream chunker
    (the [transform] and [flush] methods of [streamTransformer])

    The buffer is the decoded text of the body, held here as its UTF-8
    bytes.  The four characters the scan looks at (braces, quote,
    backslash) are single bytes that occur in no longer sequence, so the
    scan meets them at the same places in the bytes and in the text. *)

Module Chunker.

(** The locals of one scan of the buffer. *)
Record scan := {
  startPos : Z;
  endPos : Z;
  bracketDepth : Z;
  inString : bool;
  escapeNext : bool
}.

Definition scan0 : scan :=
  {| startPos := -1; endPos := -1; bracketDepth := 0;
     inString := false; escapeNext := false |}.

Definition set_startPos (v : Z) (s : scan) : scan :=
  {| startPos := v; endPos := endPos s; bracketDepth := bracketDepth s;
     inString := inString s; escapeNext := escapeNext s |}.
Definition set_endPos (v : Z) (s : scan) : scan :=
  {| startPos := startPos s; endPos := v; bracketDepth := bracketDepth s;
     inString := inString s; escapeNext := escapeNext s |}.
Definition set_bracketDepth (v : Z) (s : scan) : scan :=
  {| startPos := startPos s; endPos := endPos s; bracketDepth := v;
     inString := inString s; escapeNext := escapeNext s |}.
Definition set_inString (v : bool) (s : scan) : scan :=
  {| startPos := startPos s; endPos := endPos s; bracketDepth := bracketDepth s;
     inString := v; escapeNext := escapeNext s |}.
Definition set_escapeNext (v : bool) (s : scan) : scan :=
  {| startPos := startPos s; endPos := endPos s; bracketDepth := bracketDepth s;
     inString := inString s; escapeNext := v |}.

Definition is_char (c : ascii) (lit : string) : bool :=
  match lit with
  | String l EmptyString => Ascii.eqb c l
  | _ => false
  end.

Definition backslash : string := String "092" "".
Definition dquote : string := String "034" "".

(** The branch taken while [inString] holds. *)
Definition in_string_step (char : ascii) (st : scan) : scan :=
  if escapeNext st then set_escapeNext false st
  else if is_char char backslash then set_escapeNext true st
  else if is_char char dquote then set_inString false st
  else st.

(** [buffer.substring(a, b)] for [0 <= a]. *)
Definition js_substring (a b : Z) (buffer : string) : string :=
  String.substring (Z.to_nat a) (Z.to_nat (b - a)) buffer.

(** What one character does outside a string: the new locals and, when
    the character closes a top-level object, the text of that object.
    The loops of [transform] set [startPos] back to [-1] after a cut
    ([restart]); the loop of [flush] leaves it. *)
Definition out_string_step (restart : bool) (buffer : string) (i : nat)
    (char : ascii) (st : scan) : scan * option string :=
  if is_char char "{" then
    let st := if (bracketDepth st =? 0)%Z
              then set_startPos (Z.of_nat i) st else st in
    (set_bracketDepth (bracketDepth st + 1) st, None)
  else if is_char char "}" then
    let st := set_bracketDepth (bracketDepth st - 1) st in
    if (bracketDepth st =? 0)%Z && negb (startPos st =? -1)%Z then
      let st := set_endPos (Z.of_nat i) st in
      let jsonStr := js_substring (startPos st) (endPos st + 1) buffer in
      (if restart then set_startPos (-1) st else st, Some jsonStr)
    else (st, None)
  else if is_char char dquote then (set_inString true st, None)
  else (st, None).

(** *** The Gemini branch of [transform]

    The [for] loop over [buffer]; [rest] is the part of [buffer] from
    index [i] on.  The result is the locals after the loop and the
    objects cut out, in the order they were cut. *)
Fixpoint gemini_loop (buffer : string) (i : nat) (rest : string)
    (st : scan) (found : list string) : scan * list string :=
  match rest with
  | EmptyString => (st, found)
  | String char rest' =>
      if inString st then
        gemini_loop buffer (S i) rest' (in_string_step char st) found
      else
        let '(st', cut) := out_string_step true buffer i char st in
        gemini_loop buffer (S i) rest' st'
          (match cut with Some jsonStr => found ++ [jsonStr] | None => found end)
  end.

(** The buffer kept for the next call. *)
Definition gemini_keep (buffer : string) (st : scan) : string :=
  if negb (startPos st =? -1)%Z && negb (endPos st =? -1)%Z
     && (startPos st <? endPos st)%Z
  then substring_from (Z.to_nat (endPos st + 1)) buffer
  else if negb (startPos st =? -1)%Z
  then substring_from (Z.to_nat (startPos st)) buffer
  else "".

(** One call of [transform] on the Gemini branch: the new buffer and the
    objects handed to [JSON.parse] and [processGeminiObject]. *)
Definition gemini_transform (buffer chunkStr : string) : string * list string :=
  let buffer := buffer +:+ chunkStr in
  let '(st, found) := gemini_loop buffer 0 buffer scan0 [] in
  (gemini_keep buffer st, found).

(** *** The Vertex branch of [transform] and of [flush]

    The loop cuts the buffer after every object and restarts at index 0;
    it ends with the buffer that is left. *)
Fixpoint vertex_loop (restart : bool) (buffer : string) (i : nat)
    (rest : string) (st : scan) (found : list string) : string * list string :=
  match rest with
  | EmptyString => (buffer, found)
  | String char rest' =>
      if inString st then
        vertex_loop restart buffer (S i) rest' (in_string_step char st) found
      else
        let '(st', cut) := out_string_step restart buffer i char st in
        match cut with
        | Some jsonStr =>
            if (S i <? String.length buffer)%nat then
              vertex_loop restart (substring_from (S i) buffer) 0 rest' st'
                (found ++ [jsonStr])
            else ("", found ++ [jsonStr])
        | None => vertex_loop restart buffer (S i) rest' st' found
        end
  end.

Definition vertex_transform (buffer chunkStr : string) : string * list string :=
  let buffer := buffer +:+ chunkStr in
  vertex_loop true buffer 0 buffer scan0 [].

(** [buffer.trim()] is truthy. *)
Definition has_text (buffer : string) : bool :=
  JsString.truthy (trim buffer).

(** *** The transformer over a whole upstream body

    The objects extracted from a list of chunks, and the buffer left when
    the body ends. *)
Fixpoint run (step : string -> string -> string * list string)
    (buffer : string) (chunks : list string) : string * list string :=
  match chunks with
  | [] => (buffer, [])
  | c :: chunks' =>
      let '(buffer', found) := step buffer c in
      let '(final, found') := run step buffer' chunks' in
      (final, found ++ found')
  end.

(** The text [flush] tries to read on the Gemini branch. *)
Definition gemini_flush (buffer : string) : list string :=
  if has_text buffer then [buffer] else [].

Definition vertex_flush (buffer : string) : list string :=
  if has_text buffer then snd (vertex_loop false buffer 0 buffer scan0 [])
  else [].

End Chunker.

(** ** Schema sanitizers
    ([transformJsonSchemaFields] of the route and [sanitizeToolParameters]
    of the translator) *)

Module Schema.

(** *** Identity of the objects of a request body

    [visited] is a [WeakSet]: it holds objects by identity.  The body is
    a tree out of [JSON.parse], so an object of the body is identified by
    its path from the root; an object the function built itself is not
    in the body and is never found in [visited] ([None]). *)
Definition path := list string.
Definition ident := option path.

Definition path_eqb (p q : path) : bool := bool_decide (p = q).

Definition child (self : ident) (key : string) : ident :=
  option_map (fun p => p ++ [key]) self.

(** [visited.has(schemaObj)] *)
Definition visited_has (visited : list path) (self : ident) : bool :=
  match self with
  | Some p => existsb (path_eqb p) visited
  | None => false
  end.

(** [visited.add(schemaObj)] *)
Definition visited_add (visited : list path) (self : ident) : list path :=
  match self with
  | Some p => p :: visited
  | None => visited
  end.

(** A table of definitions: name, value, identity of the value. *)
Definition defs := list (string * (JSON * ident)).

Fixpoint defs_get (name : string) (d : defs) : option (JSON * ident) :=
  match d with
  | [] => None
  | (k, v) :: d' => if String.eqb k name then Some v else defs_get name d'
  end.

Fixpoint indexed {A} (i : nat) (l : list A) : list (string * A) :=
  match l with
  | [] => []
  | x :: l' => (show_Z (Z.of_nat i), x) :: indexed (S i) l'
  end.

Fixpoint chars (s : string) : list JSON :=
  match s with
  | EmptyString => []
  | String c s' => JStr (String c "") :: chars s'
  end.

(** The own enumerable properties [{...v}] copies. *)
Definition spread (v : JSON) : list (string * JSON) :=
  match v with
  | JObj fs => fs
  | JArr items => indexed 0 items
  | JStr s => indexed 0 (chars s)
  | _ => []
  end.

(** [...(schemaObj[key] || {})], each value with its identity. *)
Definition defs_of (self : ident) (key : string) (fs : list (string * JSON))
  : defs :=
  match Js.get key fs with
  | Some v =>
      if Js.truthy v then
        map (fun '(k, x) => (k, (x, child (child self key) k))) (spread v)
      else []
  | None => []
  end.

(** [{...parentDefs, ...$defs, ...definitions}]: the later entry of a
    name wins, so the later tables are looked up first. *)
Definition currentLevelDefs (parentDefs : defs) (self : ident)
    (fs : list (string * JSON)) : defs :=
  defs_of self "definitions" fs ++ defs_of self "$defs" fs ++ parentDefs.

Definition MAX_RECURSION_DEPTH : nat := 20.

Definition type_object : JSON := JObj [("type", JStr "object")].

(** The keys the loop over [Object.keys(schemaObj)] skips. *)
Definition skipped_key (key : string) : bool :=
  String.eqb key "$schema" || String.eqb key "$defs" || String.eqb key "$ref"
  || String.eqb key "additionalProperties"
  || String.eqb key "patternProperties"
  || String.eqb key "definitions".

(** Post-processing 1: [enum] stays only beside [type === 'string']. *)
Definition enum_guard (t : list (string * JSON)) : list (string * JSON) :=
  if Js.has "enum" t then
    if Js.is_str "string" (Js.get "type" t) then t else Js.del "enum" t
  else t.

Definition looksObject (t : list (string * JSON)) : bool :=
  Js.otruthy (Js.get "properties" t) || Js.otruthy (Js.get "required" t).

Definition looksArray (t : list (string * JSON)) : bool :=
  Js.has "items" t
  || match Js.get "prefixItems" t with Some v => Js.isArray v | None => false end.

(** Post-processing 2: a missing [type] is inferred from the shape. *)
Definition infer_type (t : list (string * JSON)) : list (string * JSON) :=
  if Js.has "type" t then t
  else if looksObject t then Js.set "type" (JStr "object") t
  else if looksArray t then Js.set "type" (JStr "array") t
  else t.

Definition isNullish (node : JSON) : bool :=
  match node with
  | JNull => true
  | JObj fs =>
      match Js.get "enum" fs with
      | Some (JArr [JNull]) => true
      | _ => Js.is_str "null" (Js.get "type" fs)
      end
  | _ => false
  end.

Definition isEmptySchema (node : JSON) : bool :=
  match node with
  | JObj [] => true
  | JArr [] => true
  | _ => false
  end.

(** [branches.find(b => b && b.type === 'object') || branches[0]] *)
Definition is_object_typed (b : JSON) : bool :=
  Js.truthy b && Js.is_str "object" (Js.field "type" b).

Definition preferred (branches : list JSON) : option JSON :=
  match List.find is_object_typed branches with
  | Some b => Some b
  | None => match branches with b :: _ => Some b | [] => None end
  end.

(** [if (preferred && !preferred.type) ...] *)
Definition ensure_type (preferred : JSON) : JSON :=
  match preferred with
  | JObj fs =>
      if negb (Js.otruthy (Js.get "type" fs)) then
        if looksObject fs then JObj (Js.set "type" (JStr "object") fs)
        else if looksArray fs then JObj (Js.set "type" (JStr "array") fs)
        else preferred
      else preferred
  | _ => preferred
  end.

(** [l.map(f)] where [f] may throw. *)
Fixpoint map_all {A B} (f : A -> option B) (l : list A) : option (list B) :=
  match l with
  | [] => Some []
  | x :: l' =>
      match f x with
      | Some y =>
          match map_all f l' with
          | Some ys => Some (y :: ys)
          | None => None
          end
      | None => None
      end
  end.

(** The array under the first of [anyOf], [oneOf], [allOf] that holds
    one. *)
Definition first_combinator (t : list (string * JSON)) : option (list JSON) :=
  match Js.get "anyOf" t with
  | Some (JArr bs) => Some bs
  | _ =>
      match Js.get "oneOf" t with
      | Some (JArr bs) => Some bs
      | _ =>
          match Js.get "allOf" t with
          | Some (JArr bs) => Some bs
          | _ => None
          end
      end
  end.

(** The target of a local [$ref]. *)
Definition ref_name (refPath : string) : option string :=
  if startsWith refPath "#/$defs/" then Some (substring_from 8 refPath)
  else if startsWith refPath "#/definitions/" then Some (substring_from 14 refPath)
  else None.

(** *** [transformJsonSchemaFields]

    One call, with the recursive calls (at [depth + 1]) made through
    [rec].  The result is [None] when the function throws, which it does
    on a truthy [$ref] that is not a string ([refPath.startsWith] is not a
    function). *)
Definition transform_body
    (rec : defs -> list path -> ident -> JSON -> option JSON)
    (parentDefs : defs) (visited : list path) (self : ident)
    (schemaObj : JSON) : option JSON :=
  match schemaObj with
  | JArr items =>
      if visited_has visited self then Some (JObj [])
      else
        let visited := visited_add visited self in
        option_map JArr
          (map_all (fun '(k, item) => rec parentDefs visited (child self k) item)
             (indexed 0 items))
  | JObj fs =>
      if visited_has visited self then Some (JObj [])
      else
        let visited := visited_add visited self in
        let currentLevelDefs := currentLevelDefs parentDefs self fs in
        let ref := match Js.get "$ref" fs with
                   | Some r => if Js.truthy r then Some r else None
                   | None => None
                   end in
        match ref with
        | Some (JStr refPath) =>
            match ref_name refPath with
            | Some defName =>
                match defs_get defName currentLevelDefs with
                | Some (target, target_id) =>
                    if Js.truthy target
                    then rec currentLevelDefs visited target_id target
                    else Some (JObj [])
                | None => Some (JObj [])
                end
            | None => Some (JObj [])
            end
        | Some _ => None
        | None =>
            match
              map_all (fun '(key, v) =>
                         option_map (pair key)
                           (rec currentLevelDefs visited (child self key) v))
                (List.filter (fun '(key, _) => negb (skipped_key key)) fs)
            with
            | None => None
            | Some transformedObj =>
                let transformedObj := infer_type (enum_guard transformedObj) in
                match first_combinator transformedObj with
                | Some subs =>
                    let subs :=
                      map (fun sub => if isEmptySchema sub then type_object else sub)
                        (List.filter (fun sub => negb (isNullish sub)) subs) in
                    match map_all (rec currentLevelDefs visited None) subs with
                    | Some branches =>
                        let branches :=
                          match branches with [] => [type_object] | _ => branches end in
                        match preferred branches with
                        | Some b => Some (ensure_type b)
                        | None => Some (JObj transformedObj)
                        end
                    | None => Some (JObj transformedObj)
                    end
                | None => Some (JObj transformedObj)
                end
            end
        end
  | _ => Some schemaObj
  end.

(** [fuel] is [MAX_RECURSION_DEPTH + 1 - depth]: the call at a depth
    beyond the bound has no fuel left and returns [{}]. *)
Fixpoint transform_at (fuel : nat)
  : defs -> list path -> ident -> JSON -> option JSON :=
  match fuel with
  | O => fun _ _ _ _ => Some (JObj [])
  | S fuel' => transform_body (transform_at fuel')
  end.

(** [transformJsonSchemaFields(schemaObj, {}, new WeakSet(), 0)] *)
Definition transformJsonSchemaFields (schemaObj : JSON) : option JSON :=
  transform_at (S MAX_RECURSION_DEPTH) [] [] (Some []) schemaObj.

(** [if (p && !p.type && (p.properties || p.required)) p.type = 'object'] *)
Definition root_type (p : JSON) : JSON :=
  match p with
  | JObj fs =>
      if negb (Js.otruthy (Js.get "type" fs)) && looksObject fs
      then JObj (Js.set "type" (JStr "object") fs)
      else p
  | _ => p
  end.

(** What the route leaves in [tool.function.parameters]. *)
Definition route_parameters (parameters : JSON) : option JSON :=
  if Js.truthy parameters
  then option_map root_type (transformJsonSchemaFields parameters)
  else Some parameters.

(** *** [sanitizeToolParameters] *)

Record options := {
  dropTitle : bool;
  keepDescription : bool;
  dropFormatIfError : bool
}.

Definition default_options : options :=
  {| dropTitle := true; keepDescription := true; dropFormatIfError := false |}.

Definition SUPPORTED_TYPES : list string :=
  ["string"; "number"; "integer"; "boolean"; "object"; "array"].

Definition supported (t : JSON) : bool :=
  match t with
  | JStr s => existsb (String.eqb s) SUPPORTED_TYPES
  | _ => false
  end.

Definition del_all (keys : list string) (s : list (string * JSON))
  : list (string * JSON) :=
  fold_left (fun s k => Js.del k s) keys s.

(** [if (old in s) { s[new] = s[old]; delete s[old]; }] *)
Definition rename (old new : string) (s : list (string * JSON))
  : list (string * JSON) :=
  match Js.get old s with
  | Some v => Js.del old (Js.set new v s)
  | None => s
  end.

Definition const_to_enum (s : list (string * JSON)) : list (string * JSON) :=
  match Js.get "const" s with
  | Some val => Js.set "enum" (JArr [val]) (Js.del "const" s)
  | None => s
  end.

Definition isNullOnly (node : JSON) : bool :=
  match node with
  | JObj fs =>
      match Js.get "enum" fs with
      | Some (JArr [JNull]) => true
      | _ => Js.is_str "null" (Js.get "type" fs)
      end
  | _ => false
  end.

(** [branches.map(b => b && b.type).filter(Boolean).includes(t)] *)
Definition branch_typed (t : string) (b : JSON) : bool :=
  Js.truthy b && Js.is_str t (Js.field "type" b).

Definition sanitize_combinator (rec : JSON -> JSON) (key : string)
    (s : list (string * JSON)) : list (string * JSON) :=
  match Js.get key s with
  | Some v =>
      if Js.truthy v then
        let subs := match v with JArr items => items | _ => [v] end in
        let subs := map rec subs in
        let branches :=
          map (fun sub => if isEmptySchema sub then type_object else sub)
            (List.filter (fun sub => negb (isNullOnly sub)) subs) in
        let branches :=
          match branches with [] => [type_object] | _ => branches end in
        let s := Js.set key (JArr branches) s in
        if Js.has "type" s then s
        else if existsb (branch_typed "object") branches
        then Js.set "type" (JStr "object") s
        else if existsb (branch_typed "array") branches
        then Js.set "type" (JStr "array") s
        else s
      else s
  | None => s
  end.

Definition type_handling (s : list (string * JSON)) : list (string * JSON) :=
  match Js.get "type" s with
  | Some (JArr ts) =>
      match List.filter supported ts with
      | [] => Js.del "type" s
      | [t] => Js.set "type" t s
      | filtered =>
          Js.set "anyOf" (JArr (map (fun t => JObj [("type", t)]) filtered))
            (Js.del "type" s)
      end
  | Some (JStr t) => if supported (JStr t) then s else Js.del "type" s
  | _ => s
  end.

Definition infer_missing_type (s : list (string * JSON))
  : list (string * JSON) :=
  if Js.has "type" s then s
  else if looksObject s || Js.has "additionalProperties" s
  then Js.set "type" (JStr "object") s
  else if looksArray s then Js.set "type" (JStr "array") s
  else s.

Definition is_string (x : JSON) : bool :=
  match x with JStr _ => true | _ => false end.

Definition object_specifics (rec : JSON -> JSON) (s : list (string * JSON))
  : list (string * JSON) :=
  if Js.is_str "object" (Js.get "type" s) || looksObject s
     || Js.has "additionalProperties" s
  then
    let s :=
      match Js.get "properties" s with
      | Some (JObj props) =>
          Js.set "properties" (JObj (map (fun '(prop, sub) => (prop, rec sub)) props)) s
      | Some (JArr props) => Js.set "properties" (JArr (map rec props)) s
      | _ => s
      end in
    let s :=
      match Js.get "required" s with
      | Some (JArr req) => Js.set "required" (JArr (List.filter is_string req)) s
      | _ => s
      end in
    match Js.get "additionalProperties" s with
    | Some (JBool _) => s
    | Some (JObj ap) => Js.set "additionalProperties" (rec (JObj ap)) s
    | Some (JArr ap) => Js.set "additionalProperties" (rec (JArr ap)) s
    | Some _ => Js.set "additionalProperties" (JBool false) s
    | None => s
    end
  else s.

Section Sanitize.
Context `{Builtins}.

(** [toNumber] *)
Definition toNumber (n : JSON) : option JSON :=
  match n with
  | JNum _ => Some n
  | _ => option_map JNum (Number_finite n)
  end.

(** [if (k in s) { const v = toNumber(s[k]); if (v === undefined)
    delete s[k]; else s[k] = v; }] *)
Definition coerce_number (k : string) (s : list (string * JSON))
  : list (string * JSON) :=
  match Js.get k s with
  | Some n =>
      match toNumber n with
      | Some v => Js.set k v s
      | None => Js.del k s
      end
  | None => s
  end.

Definition array_specifics (rec : JSON -> JSON) (s : list (string * JSON))
  : list (string * JSON) :=
  if Js.is_str "array" (Js.get "type" s) || Js.otruthy (Js.get "items" s)
  then
    let s :=
      match Js.get "items" s with
      | Some items =>
          if Js.truthy items then Js.set "items" (rec items) s else s
      | None => s
      end in
    let s := coerce_number "minItems" s in
    let s := coerce_number "maxItems" s in
    match Js.get "uniqueItems" s with
    | Some (JBool _) => s
    | Some _ => Js.del "uniqueItems" s
    | None => s
    end
  else s.

Definition numeric_constraints (s : list (string * JSON))
  : list (string * JSON) :=
  let s := coerce_number "minimum" s in
  let s := coerce_number "maximum" s in
  let s := Js.del "exclusiveMinimum" s in
  let s := Js.del "exclusiveMaximum" s in
  let s := coerce_number "multipleOf" s in
  let s := coerce_number "minLength" s in
  coerce_number "maxLength" s.

(** One call of the inner [sanitize], recursive calls through [rec]. *)
Definition sanitize_body (options : options) (rec : JSON -> JSON)
    (node : JSON) : JSON :=
  match node with
  | JArr items => JArr (map rec items)
  | JObj s =>
      let s := del_all ["$schema"; "definitions"; "$defs"; "$ref";
                        "patternProperties"; "examples"; "deprecated";
                        "readOnly"; "writeOnly"] s in
      let s := if dropTitle options then Js.del "title" s else s in
      let s := if keepDescription options then s else Js.del "description" s in
      let s := const_to_enum s in
      let s := rename "any_of" "anyOf" s in
      let s := rename "one_of" "oneOf" s in
      let s := rename "all_of" "allOf" s in
      let s := sanitize_combinator rec "anyOf" s in
      let s := sanitize_combinator rec "oneOf" s in
      let s := sanitize_combinator rec "allOf" s in
      let s := type_handling s in
      let s := infer_missing_type s in
      let s := object_specifics rec s in
      let s := array_specifics rec s in
      let s := numeric_constraints s in
      let s := if dropFormatIfError options then Js.del "format" s else s in
      JObj s
  | _ => node
  end.

Fixpoint sanitize_at (options : options) (fuel : nat) (node : JSON) : JSON :=
  match fuel with
  | O => node
  | S fuel' => sanitize_body options (sanitize_at options fuel') node
  end.

End Sanitize.

(** The nesting of a value: what the recursion of [sanitize] descends. *)
Fixpoint height (x : JSON) : nat :=
  match x with
  | JArr items => S (fold_right (fun y n => Nat.max (height y) n) 0 items)
  | JObj fs =>
      S (fold_right (fun kv n => Nat.max (let '(_, v) := kv in height v) n) 0 fs)
  | _ => 0
  end.

Section Pipeline.
Context `{Builtins}.

(** [sanitize] recurses on values nested in its argument, so it ends
    within [height schema] nested calls: any fuel above that gives the
    same result ([sanitize_at_fuel] below).  [clone] is the identity on a
    [JSON] tree. *)
Definition sanitizeToolParameters (schema : JSON) : JSON :=
  sanitize_at default_options (S (height schema)) schema.

(** What [transformOpenAiToGemini] puts in a declaration's [parameters]:
    [Some None] is [undefined]; [None] is a [TypeError] of the [in]
    operator, applied to a value that is not an object. *)
Definition translator_parameters (parameters : JSON) : option (option JSON) :=
  if Js.truthy parameters then
    let parameters :=
      match parameters with
      | JObj fs => JObj (Js.del "$schema" fs)
      | _ => parameters
      end in
    let parameters := sanitizeToolParameters parameters in
    match parameters with
    | JObj fs =>
        if negb (Js.otruthy (Js.get "type" fs))
           && (looksObject fs || Js.has "additionalProperties" fs)
        then Some (Some (JObj (Js.set "type" (JStr "object") fs)))
        else Some (Some parameters)
    | JArr _ => Some (Some parameters)
    | _ => if Js.truthy parameters then None else Some (Some parameters)
    end
  else Some None.

(** A tool's [parameters] through the route and then the translator. *)
Definition sanitize_parameters (parameters : JSON) : option (option JSON) :=
  match route_parameters parameters with
  | Some p => translator_parameters p
  | None => None
  end.

End Pipeline.

End Schema.

(** ** Request translator ([parseDataUri], [transformOpenAiToGemini]) *)

Module Translate.

(** *** The OpenAI chat request of the data model *)

Record function_ref := {
  fn_name : option string;
  fn_arguments : option string
}.

Record tool_call := {
  tc_id : option string;
  tc_type : option string;
  tc_function : option function_ref
}.

(** A content part: the fields the translator reads. *)
Record content_part := {
  part_type : option string;
  part_text : option string;
  (** [image_url?.url] *)
  part_url : option string
}.

(** [msg.content], by the tests the code makes on it. *)
Inductive content :=
| Text (s : string)               (** [typeof msg.content === 'string'] *)
| Parts (ps : list content_part)  (** [Array.isArray(msg.content)] *)
| Object (j : JSON)               (** another object that is not [null] *)
| Scalar (j : JSON)               (** a number or a boolean *)
| Absent.                         (** [null] or [undefined] *)

Record message := {
  role : option string;
  msg_content : content;
  tool_calls : option (list tool_call);
  tool_call_id : option string;
  name : option string
}.

(** *** The upstream request *)

Inductive gemini_part :=
| PText (text : option string)
| PInlineData (mimeType data : string)
| PFunctionCall (name : string) (args : JSON)
| PFunctionResponse (name : string) (response : JSON).

Record gemini_content := {
  g_role : string;
  g_parts : list gemini_part
}.

(** [{ role: "system", parts: [{ text }] }] *)
Record system_instruction := { si_text : string }.

(** *** [parseDataUri]: [/^data:(.+?);base64,(.+)$/]

    A dot does not match a line terminator. *)
Definition is_line_terminator (c : ascii) : bool :=
  let n := nat_of_ascii c in (n =? 10)%nat || (n =? 13)%nat.

(** U+2028 and U+2029 in UTF-8. *)
Definition LS : string := String "226" (String "128" (String "168" "")).
Definition PS : string := String "226" (String "128" (String "169" "")).

Fixpoint no_line_terminator (s : string) : bool :=
  match s with
  | EmptyString => true
  | String c s' =>
      negb (is_line_terminator c)
      && negb (String.prefix LS s) && negb (String.prefix PS s)
      && no_line_terminator s'
  end.

(** The shortest non-empty [mime] with [mime ++ ";base64," ++ data = s]
    and [data] not empty; [acc] is the part of [mime] already passed. *)
Fixpoint split_base64 (acc s : string) : option (string * string) :=
  match s with
  | EmptyString => None
  | String c s' =>
      if negb (String.eqb acc "") && String.prefix ";base64," s
         && negb (String.eqb (substring_from 8 s) "")
      then Some (acc, substring_from 8 s)
      else split_base64 (acc +:+ String c "") s'
  end.

Definition parseDataUri (dataUri : string) : option (string * string) :=
  if negb (JsString.truthy dataUri) then None
  else if String.prefix "data:" dataUri
          && no_line_terminator (substring_from 5 dataUri)
  then split_base64 "" (substring_from 5 dataUri)
  else None.

(** *** The message loop of [transformOpenAiToGemini] *)

Record state := {
  contents : list gemini_content;
  systemInstruction : option system_instruction;
  toolCallIdToName : gmap string string
}.

Definition state0 : state :=
  {| contents := []; systemInstruction := None; toolCallIdToName := ∅ |}.

Definition truthy_opt (s : option string) : bool :=
  match s with Some x => JsString.truthy x | None => false end.

Definition is_lit (lit : string) (s : option string) : bool :=
  match s with Some x => String.eqb x lit | None => false end.

(** [isSafetyEnabled === false || (requestedModelId &&
    requestedModelId.startsWith('gemma'))] *)
Definition system_as_user (requestedModelId : option string)
    (isSafetyEnabled : bool) : bool :=
  negb isSafetyEnabled
  || match requestedModelId with
     | Some m => JsString.truthy m && startsWith m "gemma"
     | None => false
     end.

(** The [systemInstruction] a system message sets, if it sets one. *)
Definition instruction_of (c : content) : option system_instruction :=
  match c with
  | Text s => Some {| si_text := s |}
  | Parts ps =>
      match List.find (fun p => is_lit "text" (part_type p)) ps with
      | Some p =>
          match part_text p with
          | Some t => if JsString.truthy t then Some {| si_text := t |} else None
          | None => None
          end
      | None => None
      end
  | _ => None
  end.

(** [Array.isArray(msg.tool_calls) && msg.tool_calls.length > 0] *)
Definition live_tool_calls (msg : message) : list tool_call :=
  match tool_calls msg with Some tcs => tcs | None => [] end.

(** [tc?.type === 'function' && tc.function?.name]: the name. *)
Definition called_name (tc : tool_call) : option string :=
  if is_lit "function" (tc_type tc) then
    match tc_function tc with
    | Some f => if truthy_opt (fn_name f) then fn_name f else None
    | None => None
    end
  else None.

(** [if (tc.id) toolCallIdToName.set(tc.id, tc.function.name)] *)
Definition record_call (m : gmap string string) (tc : tool_call)
  : gmap string string :=
  match called_name tc, tc_id tc with
  | Some n, Some i => if JsString.truthy i then <[i := n]> m else m
  | _, _ => m
  end.

Definition part_json (p : content_part) : JSON :=
  JObj (Response.opt_field "type" (option_map JStr (part_type p))
        ++ Response.opt_field "text" (option_map JStr (part_text p))
        ++ match part_url p with
           | Some u => [("image_url", JObj [("url", JStr u)])]
           | None => []
           end).

Definition text_parts (ps : list content_part) : list gemini_part :=
  flat_map (fun p => if is_lit "text" (part_type p)
                     then [PText (part_text p)] else []) ps.

Definition media_parts (ps : list content_part) : list gemini_part :=
  flat_map
    (fun p =>
       if is_lit "text" (part_type p) then [PText (part_text p)]
       else if is_lit "image_url" (part_type p) then
         match part_url p with
         | Some imageUrl =>
             match parseDataUri imageUrl with
             | Some (mimeType, data) => [PInlineData mimeType data]
             | None => []
             end
         | None => []
         end
       else []) ps.

Section Loop.
Context `{Builtins}.
Variable requestedModelId : option string.
Variable isSafetyEnabled : bool.

(** The [functionCall] part of a tool call. *)
Definition call_part (tc : tool_call) : list gemini_part :=
  match called_name tc, tc_function tc with
  | Some n, Some f =>
      let arguments :=
        if truthy_opt (fn_arguments f)
        then match fn_arguments f with Some a => a | None => "{}" end
        else "{}" in
      let argsObj :=
        match JSON_parse arguments with
        | Some a => a
        | None =>
            JObj (("_error", JStr "Invalid JSON arguments")
                  :: Response.opt_field "raw"
                       (option_map JStr (fn_arguments f)))
        end in
      [PFunctionCall n argsObj]
  | _, _ => []
  end.

(** [msg.name || (msg.tool_call_id ?
    toolCallIdToName.get(msg.tool_call_id) : undefined)] *)
Definition resolve_name (m : gmap string string) (msg : message)
  : option string :=
  if truthy_opt (name msg) then name msg
  else
    match tool_call_id msg with
    | Some i => if JsString.truthy i then m !! i else None
    | None => None
    end.

Definition wrap_content (v : JSON) : JSON := JObj [("content", v)].

(** [responseObj], made a JSON object. *)
Definition responseObj (c : content) : JSON :=
  let r :=
    match c with
    | Text s =>
        match JSON_parse s with
        | Some v => v
        | None => wrap_content (JStr s)
        end
    | Parts ps => JArr (map part_json ps)
    | Object j => j
    | Scalar j => wrap_content (JStr (String_of j))
    | Absent => wrap_content (JStr "")
    end in
  match r with
  | JObj _ => r
  | _ => wrap_content r
  end.

Definition tool_part (m : gmap string string) (msg : message) : gemini_part :=
  let resolved := resolve_name m msg in
  if truthy_opt resolved then
    PFunctionResponse (match resolved with Some n => n | None => "" end)
      (responseObj (msg_content msg))
  else
    PText (Some (match msg_content msg with
                 | Text s => s
                 | c => JSON_stringify (responseObj c)
                 end)).

(** [contents.push({ role, parts })] when [parts] is not empty. *)
Definition push (role : string) (parts : list gemini_part) (st : state)
  : state :=
  match parts with
  | [] => st
  | _ =>
      {| contents := contents st ++ [{| g_role := role; g_parts := parts |}];
         systemInstruction := systemInstruction st;
         toolCallIdToName := toolCallIdToName st |}
  end.

(** The parts of a message whose role is mapped to [role]; [None] is
    the early [return] on a content that is neither a string nor an
    array. *)
Definition plain_parts (msg : message) : option (list gemini_part) :=
  match msg_content msg with
  | Text s => Some [PText (Some s)]
  | Parts ps => Some (media_parts ps)
  | _ => None
  end.

(** The body of [messages.forEach((msg) => ...)]. *)
Definition step (st : state) (msg : message) : state :=
  let with_content (role : string) : state :=
    match plain_parts msg with
    | Some parts => push role parts st
    | None => st
    end in
  if is_lit "user" (role msg) then with_content "user"
  else if is_lit "assistant" (role msg) then
    match live_tool_calls msg with
    | [] => with_content "model"
    | tcs =>
        let m := fold_left record_call tcs (toolCallIdToName st) in
        let parts :=
          flat_map call_part tcs ++
          match msg_content msg with
          | Text s => if JsString.truthy s then [PText (Some s)] else []
          | Parts ps => text_parts ps
          | _ => []
          end in
        push "model" parts
          {| contents := contents st;
             systemInstruction := systemInstruction st;
             toolCallIdToName := m |}
    end
  else if is_lit "tool" (role msg) then
    push "user" [tool_part (toolCallIdToName st) msg] st
  else if is_lit "system" (role msg) then
    if system_as_user requestedModelId isSafetyEnabled
    then with_content "user"
    else
      match instruction_of (msg_content msg) with
      | Some si =>
          {| contents := contents st;
             systemInstruction := Some si;
             toolCallIdToName := toolCallIdToName st |}
      | None => st
      end
  else st.

Definition transform_messages (messages : list message) : state :=
  fold_left step messages state0.

End Loop.

(** *** Tools and tool choice *)

Record tool_function := {
  tf_name : option string;
  tf_description : option string;
  tf_parameters : option JSON
}.

Record tool := {
  tool_type : option string;
  tool_function_of : option tool_function
}.

Record declaration := {
  d_name : option string;
  d_description : option string;
  d_parameters : option JSON
}.

(** A truthy [tool_choice]. *)
Inductive tool_choice :=
| ChoiceString (s : string)
| ChoiceObject (type : option string) (function_name : option string)
| ChoiceOther.

Record functionCallingConfig := {
  mode : string;
  allowedFunctionNames : option (list string)
}.

Record request := {
  messages : option (list message);
  tools : option (list tool);
  tool_choice_of : option tool_choice
}.

Record gemini_request := {
  r_contents : list gemini_content;
  r_systemInstruction : option system_instruction;
  r_tools : option (list declaration);
  r_toolConfig : option functionCallingConfig
}.

Definition tool_config (c : tool_choice) : functionCallingConfig :=
  match c with
  | ChoiceString s =>
      if String.eqb s "auto"
      then {| mode := "AUTO"; allowedFunctionNames := None |}
      else if String.eqb s "none"
      then {| mode := "NONE"; allowedFunctionNames := None |}
      else {| mode := "ANY"; allowedFunctionNames := Some [s] |}
  | ChoiceObject type function_name =>
      if is_lit "function" type then
        match function_name with
        | Some n =>
            if JsString.truthy n
            then {| mode := "ANY"; allowedFunctionNames := Some [n] |}
            else {| mode := "AUTO"; allowedFunctionNames := None |}
        | None => {| mode := "AUTO"; allowedFunctionNames := None |}
        end
      else {| mode := "AUTO"; allowedFunctionNames := None |}
  | ChoiceOther => {| mode := "AUTO"; allowedFunctionNames := None |}
  end.

Section Request.
Context `{Builtins}.

Definition declare (t : tool) : option (list declaration) :=
  match tool_function_of t with
  | Some f =>
      if is_lit "function" (tool_type t) then
        match
          match tf_parameters f with
          | Some p => Schema.translator_parameters p
          | None => Some None
          end
        with
        | Some parameters =>
            Some [{| d_name := tf_name f;
                     d_description := tf_description f;
                     d_parameters := parameters |}]
        | None => None
        end
      else Some []
  | None => Some []
  end.

(** [None] when the translation throws. *)
Definition transformOpenAiToGemini (requestBody : request)
    (requestedModelId : option string) (isSafetyEnabled : bool)
  : option gemini_request :=
  let st :=
    transform_messages requestedModelId isSafetyEnabled
      (match messages requestBody with Some ms => ms | None => [] end) in
  match
    Schema.map_all declare
      (match tools requestBody with Some ts => ts | None => [] end)
  with
  | None => None
  | Some ds =>
      let functionDeclarations := List.concat ds in
      let geminiTools :=
        match functionDeclarations with
        | [] => None
        | _ => Some functionDeclarations
        end in
      let toolConfig :=
        match tool_choice_of requestBody, geminiTools with
        | Some (ChoiceString ""), _ => None
        | Some c, Some _ => Some (tool_config c)
        | _, _ => None
        end in
      Some {| r_contents := contents st;
              r_systemInstruction := systemInstruction st;
              r_tools := geminiTools;
              r_toolConfig := toolConfig |}
  end.

End Request.

End Translate.

(** ** Streaming pipeline of [router.post('/chat/completions')] *)

Module Stream.

Import Response.

(** The HTTP response [res], as far as the handlers look at it. *)
Record response := {
  headersSent : bool;
  writableEnded : bool;
  (** [res.destroyed || !res.writable]: the client is gone. *)
  destroyed : bool;
  statusCode : option Z;
  (** What has been written to the client, in order. *)
  written : list string
}.

Definition res0 : response :=
  {| headersSent := false; writableEnded := false; destroyed := false;
     statusCode := None; written := [] |}.

(** [res.write(data)] (also the write a [pipe] into [res] makes). *)
Definition write (data : string) (res : response) : response :=
  if writableEnded res || destroyed res then res
  else {| headersSent := true; writableEnded := false; destroyed := false;
          statusCode := statusCode res; written := written res ++ [data] |}.

(** [res.end()] *)
Definition end_ (res : response) : response :=
  if destroyed res then res
  else {| headersSent := true; writableEnded := true; destroyed := false;
          statusCode := statusCode res; written := written res |}.

Definition write_all (frames : list string) (res : response) : response :=
  fold_left (fun r f => write f r) frames res.

Section Pipeline.
Context `{Builtins}.
(** [selectedKeyId === 'vertex-ai'] *)
Variable vertex : bool.
Variable requestedModelId : option string.
(** [Date.now()] and the random suffix: the properties below hold for
    any values, so one pair stands for the values of all the calls. *)
Variable now_ms : Z.
Variable rand : string.

(** [res.status(code).json(body)] *)
Definition json (code : Z) (body : JSON) (res : response) : response :=
  {| headersSent := true; writableEnded := true; destroyed := destroyed res;
     statusCode := Some code;
     written := written res ++ [JSON_stringify body] |}.

Definition error_payload (fields : list (string * JSON)) : JSON :=
  JObj [("error", JObj fields)].

Definition option_list {A} (o : option A) : list A :=
  match o with Some x => [x] | None => [] end.

(** *** [processGeminiObject] *)
Definition has_candidates (geminiObj : JSON) : bool :=
  match Js.field "candidates" geminiObj with
  | Some (JArr (_ :: _)) => true
  | _ => false
  end.

Fixpoint processGeminiObject (geminiObj : JSON) : list string :=
  if negb (Js.truthy geminiObj) then []
  else if has_candidates geminiObj then
    option_list
      (transformGeminiStreamChunk (read_response geminiObj)
         requestedModelId now_ms rand)
  else
    match geminiObj with
    | JArr items => flat_map processGeminiObject items
    | _ =>
        match Js.field "text" geminiObj with
        | Some t =>
            if Js.truthy t then
              option_list
                (transformGeminiStreamChunk
                   {| candidates :=
                        Some [{| cand_content :=
                                   Some {| role := Some "model";
                                           parts :=
                                             Some [{| text := read_string (Some t);
                                                      functionCall := None |}] |};
                                 finishReason := None;
                                 index := None |}];
                      blockReason := None;
                      usageMetadata := None |}
                   requestedModelId now_ms rand)
            else []
        | None => []
        end
    end.

(** *** What [transform] pushes for one extracted object *)
Definition gemini_push (jsonStr : string) : list string :=
  match JSON_parse jsonStr with
  | Some jsonObj => processGeminiObject jsonObj
  | None => []
  end.

Definition vertex_push (jsonStr : string) : list string :=
  if includes jsonStr (String "034" "done" +:+ String "034" ":true") then
    match JSON_parse jsonStr with
    | Some jsonObj =>
        if Js.otruthy (Js.field "done" jsonObj) then [] else [sse jsonStr]
    | None => [sse jsonStr]
    end
  else [sse jsonStr].

(** ... and what [flush] pushes for one on the Vertex branch. *)
Definition vertex_flush_push (jsonStr : string) : list string :=
  match JSON_parse jsonStr with
  | Some JNull => []
  | Some jsonObj =>
      if Js.otruthy (Js.field "done" jsonObj) then []
      else [sse (JSON_stringify jsonObj)]
  | None => []
  end.

(** [transform(chunk)]: the new buffer and the frames pushed. *)
Definition transform (buffer chunkStr : string) : string * list string :=
  if vertex then
    let '(buffer, found) := Chunker.vertex_transform buffer chunkStr in
    (buffer, flat_map vertex_push found)
  else
    let '(buffer, found) := Chunker.gemini_transform buffer chunkStr in
    (buffer, flat_map gemini_push found).

(** [flush()]: the frames pushed, the last of them [[DONE]]. *)
Definition flush (buffer : string) : list string :=
  (if vertex then flat_map vertex_flush_push (Chunker.vertex_flush buffer)
   else flat_map gemini_push (Chunker.gemini_flush buffer))
  ++ [DONE].

(** *** The piped streams and their handlers *)
Record pipeline := {
  buffer : string;
  res : response
}.

Definition pipeline0 : pipeline := {| buffer := ""; res := res0 |}.

Inductive event :=
| Chunk (chunkStr : string)   (** a chunk of the upstream body *)
| End                         (** the upstream body is exhausted *)
| BodyError                   (** [geminiResponse.body.on('error')] *)
| TransformError.             (** [streamTransformer.on('error')] *)

Definition on_error (json_message sse_message sse_type : string)
    (res : response) : response :=
  if negb (headersSent res) then
    json 500 (error_payload [("message", JStr json_message)]) res
  else if negb (writableEnded res) then
    end_
      (write DONE
         (write (sse (JSON_stringify
                        (error_payload [("message", JStr sse_message);
                                        ("type", JStr sse_type)])))
            res))
  else res.

Definition handle (p : pipeline) (e : event) : pipeline :=
  match e with
  | Chunk chunkStr =>
      let '(buffer', frames) := transform (buffer p) chunkStr in
      {| buffer := buffer'; res := write_all frames (res p) |}
  | End =>
      {| buffer := buffer p;
         res := end_ (write_all (flush (buffer p)) (res p)) |}
  | BodyError =>
      {| buffer := buffer p;
         res := on_error "Error reading stream from upstream API."
                  "Upstream stream error" "upstream_error" (res p) |}
  | TransformError =>
      {| buffer := buffer p;
         res := on_error "Error processing stream data."
                  "Stream processing error" "transform_error" (res p) |}
  end.

Definition run (events : list event) : pipeline :=
  fold_left handle events pipeline0.

(** *** Keep-alive mode *)
Record keepalive := {
  (** [keepAliveTimerId] is set *)
  timer : bool;
  isConnectionClosed : bool;
  (** [keepAliveSseStream.push(null)] has been called *)
  ended : bool;
  ka_res : response
}.

(** The state when the callback object is handed to the proxy service:
    headers set, [keepAliveSseStream] piped into [res]. *)
Definition keepalive0 : keepalive :=
  {| timer := false; isConnectionClosed := false; ended := false;
     ka_res := res0 |}.

Definition cleanup (k : keepalive) : keepalive :=
  {| timer := false; isConnectionClosed := true; ended := ended k;
     ka_res := ka_res k |}.

(** [keepAliveSseStream.push(frame)]; a push after the end makes the
    stream emit [error], whose handler is [cleanup]. *)
Definition ka_push (frame : string) (k : keepalive) : keepalive :=
  if ended k then cleanup k
  else {| timer := timer k; isConnectionClosed := isConnectionClosed k;
          ended := false; ka_res := write frame (ka_res k) |}.

(** [keepAliveSseStream.push(null)] *)
Definition ka_end (k : keepalive) : keepalive :=
  {| timer := timer k; isConnectionClosed := isConnectionClosed k;
     ended := true; ka_res := end_ (ka_res k) |}.

Definition res_closed (res : response) : bool :=
  writableEnded res || destroyed res.

Definition heartbeat : string :=
  sse (JSON_stringify
         (JObj (("id", JStr "keepalive")
                :: ("object", JStr "chat.completion.chunk")
                :: ("created", JNum (now_ms / 1000)%Z)
                :: opt_field "model" (option_map JStr requestedModelId)
                ++ [("choices",
                     JArr [JObj [("index", JNum 0%Z);
                                 ("delta", JObj []);
                                 ("finish_reason", JNull)]])]))).

Definition sendKeepAliveSseChunk (k : keepalive) : keepalive :=
  if isConnectionClosed k || res_closed (ka_res k) then cleanup k
  else ka_push heartbeat k.

(** [openAIResponse.choices[0].message.content] and
    [openAIResponse.choices[0].finish_reason]; [None] is a
    [TypeError]. *)
Definition final_fields (openAIResponse : JSON)
  : option (option JSON * option JSON) :=
  match Js.field "choices" openAIResponse with
  | Some choices =>
      match
        match choices with
        | JArr (c :: _) => Some c
        | JObj fs => Js.get "0" fs
        | JStr (String c _) => Some (JStr (String c ""))
        | _ => None
        end
      with
      | Some JNull | None => None
      | Some choice =>
          match Js.field "message" choice with
          | Some JNull | None => None
          | Some message =>
              Some (Js.field "content" message,
                    Js.field "finish_reason" choice)
          end
      end
  | None => None
  end.

Definition or_default (v : option JSON) (d : JSON) : JSON :=
  match v with
  | Some x => if Js.truthy x then x else d
  | None => d
  end.

Record error_data := {
  err_message : option string;
  err_type : option string;
  err_code : option JSON
}.

Definition str_or (s : option string) (d : string) : JSON :=
  match s with
  | Some x => if JsString.truthy x then JStr x else JStr d
  | None => JStr d
  end.

Inductive ka_event :=
| StartHeartbeat
| Tick                       (** the interval timer fires *)
| StopHeartbeat
| SendFinalResponse (responseData : gemini_response)
| SendError (errorData : error_data)
(** [result.error] of the route, with [result.status] *)
| RouteError (error : error_data) (status : option Z).

Definition sendFinalResponse (responseData : gemini_response)
    (k : keepalive) : keepalive :=
  if res_closed (ka_res k) then k
  else
    let text :=
      transformGeminiResponseToOpenAI responseData requestedModelId
        now_ms rand in
    let frame :=
      match
        match JSON_parse text with
        | Some openAIResponse =>
            match final_fields openAIResponse with
            | Some r => inl r
            | None => inr TypeError_message
            end
        | None => inr (SyntaxError_message text)
        end
      with
      | inl (content, finish_reason) =>
          JObj (("id", JStr ("chatcmpl-" +:+ show_Z now_ms +:+ "-" +:+ rand))
                :: ("object", JStr "chat.completion.chunk")
                :: ("created", JNum (now_ms / 1000)%Z)
                :: opt_field "model" (option_map JStr requestedModelId)
                ++ [("choices",
                     JArr [JObj [("index", JNum 0%Z);
                                 ("delta",
                                  JObj [("role", JStr "assistant");
                                        ("content", or_default content (JStr ""))]);
                                 ("finish_reason",
                                  or_default finish_reason (JStr "stop"))]])])
      | inr message =>
          error_payload
            [("message",
              str_or (Some message) "Failed to process KEEPALIVE response");
             ("type", JStr "keepalive_proxy_error")]
      end in
    ka_end (ka_push DONE (ka_push (sse (JSON_stringify frame)) k)).

Definition sendError (errorData : error_data) (k : keepalive) : keepalive :=
  if res_closed (ka_res k) then k
  else
    let errorPayload :=
      error_payload
        (("message", str_or (err_message errorData) "Upstream API error")
         :: ("type", str_or (err_type errorData) "upstream_error")
         :: opt_field "code" (err_code errorData)) in
    ka_end (ka_push DONE (ka_push (sse (JSON_stringify errorPayload)) k)).

(** The route's own delivery of [result.error]: a second stream,
    [errorStream], piped into [res]. *)
Definition route_error (error : error_data) (status : option Z)
    (k : keepalive) : keepalive :=
  let k := cleanup k in
  let errorPayload :=
    error_payload
      (("message", str_or (err_message error) "Upstream API error")
       :: ("type", str_or (err_type error) "upstream_error")
       :: opt_field "code" (err_code error)
       ++ [("status",
            JNum (match status with
                  | Some c => if (c =? 0)%Z then 500%Z else c
                  | None => 500%Z
                  end))]) in
  {| timer := timer k; isConnectionClosed := isConnectionClosed k;
     ended := ended k;
     ka_res := end_ (write DONE
                       (write (sse (JSON_stringify errorPayload)) (ka_res k))) |}.

Definition ka_handle (k : keepalive) (e : ka_event) : keepalive :=
  match e with
  | StartHeartbeat =>
      sendKeepAliveSseChunk
        {| timer := true; isConnectionClosed := isConnectionClosed k;
           ended := ended k; ka_res := ka_res k |}
  | Tick => if timer k then sendKeepAliveSseChunk k else k
  | StopHeartbeat => cleanup k
  | SendFinalResponse r => sendFinalResponse r k
  | SendError e => sendError e k
  | RouteError e st => route_error e st k
  end.

Definition ka_run (events : list ka_event) : keepalive :=
  fold_left ka_handle events keepalive0.

End Pipeline.

End Stream.

(** ** Embedding translator and [router.post('/embedded')] *)

Module Embedded.

(** *** [transformGeminiEmbeddingResponseToOpenAI] *)

(** The upstream embedding response: [embeddings] when it is an array,
    each entry with its [values] when they are an array; [embedding.values]
    when it is an array. *)
Record embedding_response := {
  embeddings : option (list (option (list JSON)));
  embedding_values : option (list JSON)
}.

Inductive original_input :=
| InputString (s : string)
| InputArray (items : list (option string))  (** [None]: not a string *)
| InputOther.                               (** another truthy value *)

Definition long_enough (s : string) : bool :=
  (5 <=? utf16_length (trim s))%nat.

Definition isInputValid (input : original_input) : bool :=
  match input with
  | InputString s => long_enough s
  | InputArray items =>
      existsb (fun x => match x with Some s => long_enough s | None => false end)
        items
  | InputOther => false
  end.

Definition usage0 : JSON :=
  JObj [("prompt_tokens", JNum 0%Z); ("total_tokens", JNum 0%Z)].

Definition embedding_list (data : list JSON) (modelId : option string)
    (error : option string) : JSON :=
  JObj (("object", JStr "list")
        :: ("data", JArr data)
        :: Response.opt_field "model" (option_map JStr modelId)
        ++ [("usage", usage0)]
        ++ match error with
           | Some m => [("error", JObj [("message", JStr m)])]
           | None => []
           end).

Definition embedding_entry (idx : nat) (values : list JSON) : JSON :=
  JObj [("object", JStr "embedding");
        ("embedding", JArr values);
        ("index", JNum (Z.of_nat idx))].

(** [originalInput] is [None] when the argument is missing or falsy (an
    empty string). *)
Definition transformGeminiEmbeddingResponseToOpenAI
    (geminiResponse : embedding_response) (modelId : option string)
    (originalInput : option original_input) : JSON :=
  let invalid :=
    match originalInput with
    | Some input => negb (isInputValid input)
    | None => false
    end in
  if invalid then
    embedding_list [] modelId
      (Some "Input too short or lacks semantic content for embedding.")
  else
    match embeddings geminiResponse with
    | Some embs =>
        match embs with
        | [] =>
            embedding_list [] modelId
              (Some "Gemini returned empty embeddings for this input.")
        | _ =>
            embedding_list
              (Response.mapi
                 (fun idx emb =>
                    embedding_entry idx
                      (match emb with Some vs => vs | None => [] end))
                 0 embs)
              modelId None
        end
    | None =>
        match embedding_values geminiResponse with
        | Some [] =>
            embedding_list [] modelId
              (Some "Gemini returned empty embedding vector.")
        | Some valuesArr =>
            embedding_list [embedding_entry 0 valuesArr] modelId None
        | None =>
            embedding_list [] modelId
              (Some "Invalid Gemini embedding response structure.")
        end
    end.

(** Reading the upstream body. *)
Definition read_embedding_response (body : JSON) : embedding_response :=
  {| embeddings :=
       match Js.field "embeddings" body with
       | Some (JArr embs) =>
           Some (map (fun emb => match Js.field "values" emb with
                                 | Some (JArr vs) => Some vs
                                 | _ => None
                                 end) embs)
       | _ => None
       end;
     embedding_values :=
       match Js.field "embedding" body with
       | Some e => match Js.field "values" e with
                   | Some (JArr vs) => Some vs
                   | _ => None
                   end
       | None => None
       end |}.

(** *** The route *)

(** What [geminiProxyService.proxyEmbedded] resolves to. *)
Record proxy_result := {
  error : option JSON;
  status : option Z;
  response_status : option Z;
  response_body : JSON;
  selectedKeyId : string
}.

Inductive outcome :=
(** [res.status(code).json(body)] or [res.status(code).send(text)] *)
| Sent (code : Z) (body : string)
(** [next(error)]: the request goes to the global error handler *)
| Next (error : string).

(** The identifiers in scope in the handler: the bindings of the module
    and the handler's own.  [requestedModelId] is a [const] of the
    handler of [/chat/completions] and is not among them. *)
Definition handler_scope : list string :=
  ["OpenAPIV3Validator"; "path"; "express"; "Readable"; "Transform";
   "requireWorkerAuth"; "geminiProxyService"; "configService";
   "transformUtils"; "vertexProxyService"; "router"; "openApiSpecPath";
   "validateMiddleware"; "req"; "res"; "next"; "result"; "geminiResponse";
   "selectedKeyId"; "modelCategory"].

Definition in_scope (x : string) : bool :=
  existsb (String.eqb x) handler_scope.

Definition code_or (c : option Z) (d : Z) : Z :=
  match c with
  | Some x => if (x =? 0)%Z then d else x
  | None => d
  end.

Section Route.
Context `{Builtins}.
Variable now_ms : Z.
Variable rand : string.

(** The handler, given the result of the proxy service.  The
    arguments of the call of the translator are evaluated before the
    call: [requestedModelId] is resolved, and that throws a
    [ReferenceError], which the [catch] passes to [next].  (Were the
    name bound, the chat translator would get the body.) *)
Definition embedded (result : proxy_result) : outcome :=
  if Js.otruthy (error result) then
    Sent (code_or (status result) 500)
      (JSON_stringify (JObj (Response.opt_field "error" (error result))))
  else if in_scope "requestedModelId" then
    Sent (code_or (response_status result) 200)
      (Response.transformGeminiResponseToOpenAI
         (Response.read_response (response_body result)) None now_ms rand)
  else Next "ReferenceError: requestedModelId is not defined".

End Route.

End Embedded.

(** ** An implementation of the built-ins

    [JSON.stringify] and [JSON.parse] for the values of the embedding.
    The instance is only used to run the code on concrete inputs. *)

Module Sample.

Definition hex_digit (n : nat) : ascii :=
  ascii_of_nat (if (n <? 10)%nat then 48 + n else 87 + n).

(** One character of a string inside its quotes. *)
Definition escape (c : ascii) : string :=
  let n := nat_of_ascii c in
  if (n =? 34)%nat then String "092" (String "034" "")
  else if (n =? 92)%nat then String "092" (String "092" "")
  else if (n =? 8)%nat then String "092" "b"
  else if (n =? 12)%nat then String "092" "f"
  else if (n =? 10)%nat then String "092" "n"
  else if (n =? 13)%nat then String "092" "r"
  else if (n =? 9)%nat then String "092" "t"
  else if (n <? 32)%nat
  then String "092" ("u00" +:+ String (hex_digit (n / 16))
                                 (String (hex_digit (n mod 16)) ""))
  else String c "".

Fixpoint escaped (s : string) : string :=
  match s with
  | EmptyString => ""
  | String c s' => escape c +:+ escaped s'
  end.

Definition quote (s : string) : string :=
  String "034" (escaped s +:+ String "034" "").

Fixpoint stringify (v : JSON) : string :=
  match v with
  | JNull => "null"
  | JBool true => "true"
  | JBool false => "false"
  | JNum n => show_Z n
  | JStr s => quote s
  | JArr items => "[" +:+ String.concat "," (map stringify items) +:+ "]"
  | JObj fs =>
      "{" +:+ String.concat ","
                (map (fun kv => let '(k, x) := kv in
                                quote k +:+ ":" +:+ stringify x) fs)
      +:+ "}"
  end.

(** [Number(v)] on the values whose conversion does not read a string. *)
Definition number_of (v : JSON) : option Z :=
  match v with
  | JNum n => Some n
  | JNull => Some 0%Z
  | JBool b => Some (if b then 1%Z else 0%Z)
  | JArr [] => Some 0%Z
  | JArr [JNum n] => Some n
  | _ => None
  end.

Definition string_of (v : JSON) : string :=
  match v with
  | JNum n => show_Z n
  | JBool true => "true"
  | JBool false => "false"
  | _ => ""
  end.

(** *** A reader of JSON texts

    It reads the texts of the JSON grammar whose numbers are integers and
    whose strings have no [\u] escape, and refuses every other text. *)
Definition is_space (c : ascii) : bool :=
  let n := nat_of_ascii c in
  (n =? 32)%nat || (n =? 9)%nat || (n =? 10)%nat || (n =? 13)%nat.

Fixpoint skip_space (s : string) : string :=
  match s with
  | String c s' => if is_space c then skip_space s' else s
  | EmptyString => s
  end.

Fixpoint digits (acc : Z) (s : string) : Z * string :=
  match s with
  | String c s' =>
      if is_digit c
      then digits (10 * acc + Z.of_nat (nat_of_ascii c - 48)) s'
      else (acc, s)
  | EmptyString => (acc, s)
  end.

(** An integer with no leading zero, not followed by a fraction or an
    exponent. *)
Definition natural (s : string) : option (Z * string) :=
  match s with
  | String c s' =>
      if is_digit c then
        let '(n, rest) := digits 0 s in
        let leading_zero :=
          Ascii.eqb c "0"
          && match s' with String d _ => is_digit d | EmptyString => false end in
        let continued :=
          match rest with
          | String d _ =>
              Ascii.eqb d "." || Ascii.eqb d "e" || Ascii.eqb d "E"
          | EmptyString => false
          end in
        if leading_zero || continued then None else Some (n, rest)
      else None
  | EmptyString => None
  end.

Definition number (s : string) : option (JSON * string) :=
  match s with
  | String "-" s' =>
      match natural s' with
      | Some (n, rest) => Some (JNum (- n), rest)
      | None => None
      end
  | _ =>
      match natural s with
      | Some (n, rest) => Some (JNum n, rest)
      | None => None
      end
  end.

Definition unescape (c : ascii) : option ascii :=
  let n := nat_of_ascii c in
  if (n =? 34)%nat || (n =? 92)%nat || (n =? 47)%nat then Some c
  else if Ascii.eqb c "b" then Some (ascii_of_nat 8)
  else if Ascii.eqb c "f" then Some (ascii_of_nat 12)
  else if Ascii.eqb c "n" then Some (ascii_of_nat 10)
  else if Ascii.eqb c "r" then Some (ascii_of_nat 13)
  else if Ascii.eqb c "t" then Some (ascii_of_nat 9)
  else None.

(** The characters of a string up to its closing quote, and the rest. *)
Fixpoint characters (s : string) : option (string * string) :=
  match s with
  | EmptyString => None
  | String c s' =>
      let n := nat_of_ascii c in
      if (n =? 34)%nat then Some ("", s')
      else if (n =? 92)%nat then
        match s' with
        | String e s'' =>
            match unescape e, characters s'' with
            | Some x, Some (body, rest) => Some (String x body, rest)
            | _, _ => None
            end
        | EmptyString => None
        end
      else if (n <? 32)%nat then None
      else
        match characters s' with
        | Some (body, rest) => Some (String c body, rest)
        | None => None
        end
  end.

(** What is being read: a value, the rest of an array or the rest of an
    object. *)
Inductive reading :=
| AValue
| Elements (read : list JSON)
| Members (read : list (string * JSON)).

Fixpoint read (fuel : nat) (what : reading) (s : string)
  : option (JSON * string) :=
  match fuel with
  | O => None
  | S fuel' =>
      let s := skip_space s in
      match what with
      | AValue =>
          match s with
          | String "n" _ =>
              if String.prefix "null" s then Some (JNull, substring_from 4 s)
              else None
          | String "t" _ =>
              if String.prefix "true" s
              then Some (JBool true, substring_from 4 s)
              else None
          | String "f" _ =>
              if String.prefix "false" s
              then Some (JBool false, substring_from 5 s)
              else None
          | String "034" s' =>
              match characters s' with
              | Some (body, rest) => Some (JStr body, rest)
              | None => None
              end
          | String "[" s' =>
              match skip_space s' with
              | String "]" rest => Some (JArr [], rest)
              | _ => read fuel' (Elements []) s'
              end
          | String "{" s' =>
              match skip_space s' with
              | String "}" rest => Some (JObj [], rest)
              | _ => read fuel' (Members []) s'
              end
          | _ => number s
          end
      | Elements items =>
          match read fuel' AValue s with
          | Some (v, rest) =>
              match skip_space rest with
              | String "," rest' => read fuel' (Elements (items ++ [v])) rest'
              | String "]" rest' => Some (JArr (items ++ [v]), rest')
              | _ => None
              end
          | None => None
          end
      | Members fields =>
          match s with
          | String "034" s' =>
              match characters s' with
              | Some (key, rest) =>
                  match skip_space rest with
                  | String ":" rest' =>
                      match read fuel' AValue rest' with
                      | Some (v, rest'') =>
                          match skip_space rest'' with
                          | String "," more =>
                              read fuel' (Members (Js.set key v fields)) more
                          | String "}" more =>
                              Some (JObj (Js.set key v fields), more)
                          | _ => None
                          end
                      | None => None
                      end
                  | _ => None
                  end
              | None => None
              end
          | _ => None
          end
      end
  end.

(** Every call of [read] but the first follows a character that was
    read, or is followed by one: twice the length of the text is fuel
    enough. *)
Definition parse (s : string) : option JSON :=
  match read (2 * String.length s + 2) AValue s with
  | Some (v, rest) =>
      match skip_space rest with
      | EmptyString => Some v
      | _ => None
      end
  | None => None
  end.

Definition builtins : Builtins :=
  {| JSON_parse := parse;
     JSON_stringify := stringify;
     Number_finite := number_of;
     String_of := string_of;
     SyntaxError_message := fun _ => "Unexpected token";
     TypeError_message := "Cannot read properties of undefined" |}.

End Sample.

(** ** Function names of tool declarations
    ([sanitizeFunctionName] and the loop of the route that makes the names
    of one tool unique)

    The regular expressions of [sanitizeFunctionName] have no [u] flag and
    [length] and [slice] count code units, so a name is held here as its
    UTF-16 code units. *)

Module Names.

Definition units := list N.

(** The code units of an ASCII text. *)
Definition of_ascii (s : string) : units :=
  map N_of_ascii (list_ascii_of_string s).

(** [\s], which is also what [trim] removes. *)
Definition is_space (u : N) : bool :=
  existsb (N.eqb u)
    [9; 10; 11; 12; 13; 32; 160; 5760; 8232; 8233; 8239; 8287; 12288; 65279]%N
  || ((8192 <=? u) && (u <=? 8202))%N.

Definition is_letter (u : N) : bool :=
  ((65 <=? u) && (u <=? 90) || (97 <=? u) && (u <=? 122))%N.

Definition is_digit (u : N) : bool := ((48 <=? u) && (u <=? 57))%N.

Definition underscore : N := 95%N.

(** [[A-Za-z0-9_.:-]] *)
Definition allowed (u : N) : bool :=
  is_letter u || is_digit u || (u =? underscore)%N || (u =? 46)%N
  || (u =? 58)%N || (u =? 45)%N.

Fixpoint trim_start (n : units) : units :=
  match n with
  | u :: n' => if is_space u then trim_start n' else n
  | [] => []
  end.

(** [n.trim()] *)
Definition trim (n : units) : units :=
  rev (trim_start (rev (trim_start n))).

(** [n.replace(/\s+/g, '_')]; [in_run] tells that the unit before was
    white space. *)
Fixpoint collapse (in_run : bool) (n : units) : units :=
  match n with
  | [] => []
  | u :: n' =>
      if is_space u then
        if in_run then collapse true n' else underscore :: collapse true n'
      else u :: collapse false n'
  end.

(** [/^[A-Za-z_]/.test(n)] *)
Definition starts_well (n : units) : bool :=
  match n with
  | u :: _ => is_letter u || (u =? underscore)%N
  | [] => false
  end.

(** [fallbackBase || 'fn']; a missing [fallbackBase] is the empty name. *)
Definition or_fn (fallbackBase : units) : units :=
  match fallbackBase with
  | [] => of_ascii "fn"
  | _ => fallbackBase
  end.

(** [name] is [None] when it is not a string. *)
Definition sanitizeFunctionName (name : option units) (fallbackBase : units)
  : units :=
  let n := match name with Some s => trim s | None => [] end in
  let n := match n with [] => or_fn fallbackBase | _ => n end in
  let n := collapse false n in
  let n := map (fun u => if allowed u then u else underscore) n in
  let n := if starts_well n then n else underscore :: n in
  let n := if (64 <? length n)%nat then firstn 64 n else n in
  match n with
  | [] => or_fn fallbackBase
  | _ => n
  end.

(** [`${counter}`] *)
Definition decimal (counter : N) : units := of_ascii (show_Z (Z.of_N counter)).

(** [`${base}${suffix}`] for [counter]. *)
Definition candidate (proposed : units) (counter : N) : units :=
  let suffix := underscore :: decimal counter in
  firstn (Nat.max 1 (64 - length suffix)) proposed ++ suffix.

Definition name_eqb (a b : units) : bool := bool_decide (a = b).

(** [usedNames.has(unique)] *)
Definition has (usedNames : list units) (unique : units) : bool :=
  existsb (name_eqb unique) usedNames.

(** The [while] loop, from its test on; [None] when [fuel] tests were
    not enough. *)
Fixpoint unique_from (fuel : nat) (usedNames : list units) (proposed : units)
    (unique : units) (counter : N) : option units :=
  match fuel with
  | O => None
  | S fuel' =>
      if has usedNames unique then
        unique_from fuel' usedNames proposed (candidate proposed counter)
          (counter + 1)%N
      else Some unique
  end.

(** The loop tests [proposed] and then candidates that differ from one
    another: [length usedNames + 2] tests are enough ([unique_name_total]
    below). *)
Definition unique_name (usedNames : list units) (proposed : units)
  : option units :=
  unique_from (length usedNames + 2) usedNames proposed proposed 2%N.

(** [`fn_${toolIdx}_${i}`] and [`fn_${toolIdx}`] *)
Definition fallback (toolIdx : N) (i : option N) : units :=
  of_ascii "fn_" ++ decimal toolIdx
  ++ match i with Some i => underscore :: decimal i | None => [] end.

(** The names given to the entries of [tool.function_declarations], from
    index [i] on: the names in order and [usedNames] after them.  Each
    entry is an object (on [null] the assignment [fnDecl.name = unique]
    throws), given by its [name], [None] when that is not a string.
    [usedNames] is a [Set] the loop adds new names to only, so a list
    without repeats. *)
Fixpoint name_declarations (toolIdx i : N) (usedNames : list units)
    (originalNames : list (option units)) : option (list units * list units) :=
  match originalNames with
  | [] => Some ([], usedNames)
  | originalName :: rest =>
      let proposed :=
        sanitizeFunctionName originalName (fallback toolIdx (Some i)) in
      match unique_name usedNames proposed with
      | Some unique =>
          match name_declarations toolIdx (i + 1)%N (unique :: usedNames) rest
          with
          | Some (names, used) => Some (unique :: names, used)
          | None => None
          end
      | None => None
      end
  end.

(** The names given in one tool: to its [function_declarations] when
    they are an array, then to its [function] when it has one. *)
Definition tool_names (toolIdx : N)
    (function_declarations : option (list (option units)))
    (function : option (option units)) : option (list units) :=
  match
    name_declarations toolIdx 0 []
      (match function_declarations with Some ds => ds | None => [] end)
  with
  | Some (names, usedNames) =>
      match function with
      | Some originalSingleName =>
          let proposed :=
            sanitizeFunctionName originalSingleName (fallback toolIdx None) in
          match unique_name usedNames proposed with
          | Some unique => Some (names ++ [unique])
          | None => None
          end
      | None => Some names
      end
  | None => None
  end.

End Names.

(** ** Non-thinking variants of a model
    (the lines of [router.post('/chat/completions')] after validation) *)

Module NonThinking.

Definition suffix : string := ":non-thinking".

(** [s.replace(pattern, '')] for a string [pattern]: the first occurrence
    goes. *)
Fixpoint remove_first (pattern s : string) : string :=
  if String.prefix pattern s
  then substring_from (String.length pattern) s
  else
    match s with
    | EmptyString => s
    | String c s' => String c (remove_first pattern s')
    end.

(** [requestedModelId?.endsWith(':non-thinking')] *)
Definition isNonThinking (requestedModelId : string) : bool :=
  endsWith requestedModelId suffix.

Definition actualModelId (requestedModelId : string) : string :=
  if isNonThinking requestedModelId
  then remove_first suffix requestedModelId
  else requestedModelId.

(** [None] is [undefined]. *)
Definition thinkingBudget (requestedModelId : string) : option Z :=
  if isNonThinking requestedModelId then Some 0%Z else None.

End NonThinking.

(** * Vocabulary of the properties *)

(** ** Finish reasons *)

Section FinishReasons.
Import Response.
Context `{Builtins}.







End FinishReasons.


(** ** The embedding route *)

(** A successful result of the proxy service: two embeddings. *)
Definition embedding_success : Embedded.proxy_result :=
  {| Embedded.error := None;
     Embedded.status := None;
     Embedded.response_status := Some 200%Z;
     Embedded.response_body :=
       JObj [("embeddings",
              JArr [JObj [("values", JArr [JNum 1; JNum 2])];
                    JObj [("values", JArr [JNum 3])]])];
     Embedded.selectedKeyId := "key-1" |}.

(** ** Request translator *)

Definition is_system (msg : Translate.message) : bool :=
  Translate.is_lit "system" (Translate.role msg).

(** The instruction the system messages of a list leave behind: that of
    the last one that sets one. *)
Definition instruction_step (acc : option Translate.system_instruction)
    (m : Translate.message) : option Translate.system_instruction :=
  if is_system m then
    match Translate.instruction_of (Translate.msg_content m) with
    | Some si => Some si
    | None => acc
    end
  else acc.

Definition last_instruction (msgs : list Translate.message)
  : option Translate.system_instruction :=
  fold_left instruction_step msgs None.

Definition message_of (role : string) (c : Translate.content) : Translate.message :=
  {| Translate.role := Some role;
     Translate.msg_content := c;
     Translate.tool_calls := None;
     Translate.tool_call_id := None;
     Translate.name := None |}.

(** An assistant turn that calls [get_weather] under the id [c1]; [type]
    is the [type] field of the call. *)
Definition weather_call (type : option string) : Translate.message :=
  {| Translate.role := Some "assistant";
     Translate.msg_content := Translate.Absent;
     Translate.tool_calls :=
       Some [{| Translate.tc_id := Some "c1";
                Translate.tc_type := type;
                Translate.tc_function :=
                  Some {| Translate.fn_name := Some "get_weather";
                          Translate.fn_arguments := Some "{}" |} |}];
     Translate.tool_call_id := None;
     Translate.name := None |}.

Definition weather_result : Translate.message :=
  {| Translate.role := Some "tool";
     Translate.msg_content := Translate.Text "70";
     Translate.tool_calls := None;
     Translate.tool_call_id := Some "c1";
     Translate.name := None |}.

(** What a part may be in a content of role [role]: a function call
    goes to the model's turns, a function response to the user's, both
    under a name that is not empty; the response of a function response
    is an object; inline data have a media type and data. *)
Definition part_fits (role : string) (p : Translate.gemini_part) : Prop :=
  match p with
  | Translate.PText _ => True
  | Translate.PInlineData mimeType data => mimeType <> "" /\ data <> ""
  | Translate.PFunctionCall n _ => role = "model" /\ n <> ""
  | Translate.PFunctionResponse n response =>
      role = "user" /\ n <> "" /\ exists fs, response = JObj fs
  end.

Definition content_fits (c : Translate.gemini_content) : Prop :=
  (Translate.g_role c = "user" \/ Translate.g_role c = "model")
  /\ Translate.g_parts c <> []
  /\ Forall (part_fits (Translate.g_role c)) (Translate.g_parts c).

(** A system message turned into a user message. *)
Definition as_user (msg : Translate.message) : Translate.message :=
  if is_system msg then
    {| Translate.role := Some "user";
       Translate.msg_content := Translate.msg_content msg;
       Translate.tool_calls := Translate.tool_calls msg;
       Translate.tool_call_id := Translate.tool_call_id msg;
       Translate.name := Translate.name msg |}
  else msg.

(** [tools.filter(tool => tool.type === 'function' && tool.function)],
    by the [function] of each. *)
Definition function_tools (ts : list Translate.tool)
  : list Translate.tool_function :=
  flat_map
    (fun t =>
       match Translate.tool_function_of t with
       | Some f =>
           if Translate.is_lit "function" (Translate.tool_type t)
           then [f] else []
       | None => []
       end) ts.

(** A truthy value that is not an object: a number other than 0, a
    string that is not empty, or [true]. *)
Definition truthy_primitive (x : JSON) : bool :=
  Js.truthy x && negb (Js.typeof_object x).

Definition bad_parameters (f : Translate.tool_function) : Prop :=
  exists p, Translate.tf_parameters f = Some p /\ truthy_primitive p = true.

(** ** Tool calls of a translated response *)

(** The function calls of the first candidate. *)
Definition first_calls (r : Response.gemini_response)
  : list Response.function_call :=
  match Response.candidates r with
  | Some (c :: _) => Response.functionCallParts c
  | _ => []
  end.

(** [choices[0][holder].tool_calls] of a translated object, where
    [holder] is [message] or [delta]. *)
Definition tool_calls_in (holder : string) (o : JSON) : list JSON :=
  match Js.field "choices" o with
  | Some (JArr (c :: _)) =>
      match Js.field holder c with
      | Some m =>
          match Js.field "tool_calls" m with
          | Some (JArr tcs) => tcs
          | _ => []
          end
      | None => []
      end
  | _ => []
  end.

(** A tool call of a response, as the request translator reads it when
    the client sends it back in an assistant message. *)
Definition as_tool_call (v : JSON) : Translate.tool_call :=
  {| Translate.tc_id := Response.read_string (Js.field "id" v);
     Translate.tc_type := Response.read_string (Js.field "type" v);
     Translate.tc_function :=
       match Js.field "function" v with
       | Some (JObj f) =>
           Some {| Translate.fn_name :=
                     Response.read_string (Js.get "name" f);
                   Translate.fn_arguments :=
                     Response.read_string (Js.get "arguments" f) |}
       | _ => None
       end |}.

(** [part.functionCall.args || {}] *)
Definition args_or_empty (f : Response.function_call) : JSON :=
  match Response.fc_args f with
  | Some a => if Js.truthy a then a else JObj []
  | None => JObj []
  end.

(** ** Schema sanitizers *)

(** The two conditions the post-processing of [transformJsonSchemaFields]
    establishes at an object. *)
Definition enum_ok (fs : list (string * JSON)) : Prop :=
  Js.has "enum" fs = true -> Js.is_str "string" (Js.get "type" fs) = true.

Definition type_ok (fs : list (string * JSON)) : Prop :=
  Js.has "type" fs = true
  \/ (Schema.looksObject fs = false /\ Schema.looksArray fs = false).

(** A schema in the form [transformJsonSchemaFields] produces: at every
    object, none of the keys the function drops, [enum] only beside
    [type: "string"], a [type] wherever the shape shows one, and no
    [anyOf], [oneOf] or [allOf] array. *)
Inductive normal : JSON -> Prop :=
| normal_null : normal JNull
| normal_bool b : normal (JBool b)
| normal_num n : normal (JNum n)
| normal_str s : normal (JStr s)
| normal_arr items : Forall normal items -> normal (JArr items)
| normal_obj fs :
    Forall (fun kv => normal (snd kv)) fs ->
    Forall (fun kv => Schema.skipped_key (fst kv) = false) fs ->
    enum_ok fs -> type_ok fs ->
    Schema.first_combinator fs = None ->
    normal (JObj fs).

(** Every object of a schema that has an [enum] has [type: "string"]. *)
Inductive enum_guarded : JSON -> Prop :=
| enum_guarded_null : enum_guarded JNull
| enum_guarded_bool b : enum_guarded (JBool b)
| enum_guarded_num n : enum_guarded (JNum n)
| enum_guarded_str s : enum_guarded (JStr s)
| enum_guarded_arr items : Forall enum_guarded items -> enum_guarded (JArr items)
| enum_guarded_obj fs :
    Forall (fun kv => enum_guarded (snd kv)) fs ->
    enum_ok fs ->
    enum_guarded (JObj fs).

(** [P] holds of the fields of every object of a value, at every
    depth. *)
Inductive everywhere (P : list (string * JSON) -> Prop) : JSON -> Prop :=
| everywhere_null : everywhere P JNull
| everywhere_bool b : everywhere P (JBool b)
| everywhere_num n : everywhere P (JNum n)
| everywhere_str s : everywhere P (JStr s)
| everywhere_arr items :
    Forall (everywhere P) items -> everywhere P (JArr items)
| everywhere_obj fs :
    P fs -> Forall (fun kv => everywhere P (snd kv)) fs ->
    everywhere P (JObj fs).

(** The keys [transformJsonSchemaFields] does not copy. *)
Definition dropped_keys : list string :=
  ["$schema"; "$defs"; "$ref"; "additionalProperties"; "patternProperties";
   "definitions"].

(** An object as the route-level pass leaves it: none of the dropped
    keys, no array under [anyOf], [oneOf] or [allOf], and a [type]
    wherever [properties], [required], [items] or [prefixItems] show an
    object or an array. *)
Definition pruned (fs : list (string * JSON)) : Prop :=
  (forall k, In k dropped_keys -> Js.has k fs = false)
  /\ Schema.first_combinator fs = None
  /\ type_ok fs.

(** The [$ref] of an object, when it has a truthy one, is a string. *)
Definition ref_is_string (fs : list (string * JSON)) : Prop :=
  match Js.get "$ref" fs with
  | Some r => Js.truthy r = false \/ Schema.is_string r = true
  | None => True
  end.

(** The values under the keys [ks] of [s] nest less than [h] levels. *)
Definition low (h : nat) (ks : list string) (s : list (string * JSON)) : Prop :=
  forall k v, In k ks -> Js.get k s = Some v -> Schema.height v < h.

(** The keys under which [sanitize] looks for a schema to descend into. *)
Definition schema_keys : list string :=
  ["any_of"; "one_of"; "all_of"; "anyOf"; "oneOf"; "allOf"; "properties";
   "additionalProperties"; "items"].

(** The paths in [visited] are those of enclosing objects: shorter than
    the path of the object at hand. *)
Definition enclosing (visited : list Schema.path) (self : Schema.ident) : Prop :=
  forall p, self = Some p -> Forall (fun q => length q < length p) visited.


(** The schema of scenario S6:
    [{$schema: u, anyOf: [{type: "null"}, {properties: {x: {const: 3}}}]}]. *)
Definition s6_parameters (u : string) : JSON :=
  JObj [("$schema", JStr u);
        ("anyOf",
         JArr [JObj [("type", JStr "null")];
               JObj [("properties", JObj [("x", JObj [("const", JNum 3)])])]])].


(** [{type: ["object", "array"]}] *)
Definition two_types : JSON :=
  JObj [("type", JArr [JStr "object"; JStr "array"])].

(** [{properties: {x: {const: 3}}}] *)
Definition const_property : JSON :=
  JObj [("properties", JObj [("x", JObj [("const", JNum 3)])])].

(** A chain of [n] objects, each the value of the key [p] of the one
    before, that ends in [{items: 1}]. *)
Fixpoint nested (n : nat) : JSON :=
  match n with
  | O => JObj [("items", JNum 1)]
  | S n' => JObj [("p", nested n')]
  end.





(** ** Stream chunker *)

(** *** The scan as an automaton over characters

    [Idle]: between objects.  [Busy d s e cur]: inside a top-level object of
    which [cur] has been read, at brace depth [d], [s] and [e] the flags
    [inString] and [escapeNext].  [Garbage]: a closing brace or a quote was
    met between objects, which no stream of objects contains. *)
Inductive automaton :=
| Idle
| Busy (depth : nat) (inString escapeNext : bool) (cur : string)
| Garbage.

Definition snoc (s : string) (c : ascii) : string := s +:+ String c "".

Definition feed (a : automaton) (c : ascii) : automaton * list string :=
  match a with
  | Idle =>
      if Chunker.is_char c "{" then (Busy 1 false false (String c ""), [])
      else if Chunker.is_char c "}" || Chunker.is_char c Chunker.dquote
      then (Garbage, [])
      else (Idle, [])
  | Busy d true e cur =>
      if e then (Busy d true false (snoc cur c), [])
      else if Chunker.is_char c Chunker.backslash
      then (Busy d true true (snoc cur c), [])
      else if Chunker.is_char c Chunker.dquote
      then (Busy d false false (snoc cur c), [])
      else (Busy d true false (snoc cur c), [])
  | Busy d false e cur =>
      if Chunker.is_char c "{" then (Busy (S d) false e (snoc cur c), [])
      else if Chunker.is_char c "}" then
        match d with
        | 1 => (Idle, [snoc cur c])
        | _ => (Busy (pred d) false e (snoc cur c), [])
        end
      else if Chunker.is_char c Chunker.dquote
      then (Busy d true e (snoc cur c), [])
      else (Busy d false e (snoc cur c), [])
  | Garbage => (Garbage, [])
  end.

Fixpoint feed_all (a : automaton) (s : string) : automaton * list string :=
  match s with
  | EmptyString => (a, [])
  | String c s' =>
      let '(a', out) := feed a c in
      let '(a'', out') := feed_all a' s' in
      (a'', out ++ out')
  end.

(** *** Streams of objects

    The characters between the quotes of a string, with an escape taking
    the character after the backslash whatever it is. *)
Inductive string_body : string -> Prop :=
| body_end : string_body ""
| body_char c s :
    Chunker.is_char c Chunker.dquote = false ->
    Chunker.is_char c Chunker.backslash = false ->
    string_body s -> string_body (String c s)
| body_escape c s :
    string_body s -> string_body (Chunker.backslash +:+ String c s).

(** A character that is neither a brace nor a quote. *)
Definition plain (c : ascii) : bool :=
  negb (Chunker.is_char c "{") && negb (Chunker.is_char c "}")
  && negb (Chunker.is_char c Chunker.dquote).

(** What stands between the braces of an object: plain characters,
    strings and nested objects.  Every well-formed JSON object is made so. *)
Inductive balanced : string -> Prop :=
| balanced_end : balanced ""
| balanced_plain c s : plain c = true -> balanced s -> balanced (String c s)
| balanced_string b s :
    string_body b -> balanced s ->
    balanced (Chunker.dquote +:+ b +:+ Chunker.dquote +:+ s)
| balanced_object o s :
    balanced o -> balanced s -> balanced ("{" +:+ o +:+ "}" +:+ s).

Definition object_text (s : string) : Prop :=
  exists o, balanced o /\ s = "{" +:+ o +:+ "}".

(** What stands between two top-level objects: array brackets, commas,
    white space; any plain characters. *)
Fixpoint separator (s : string) : bool :=
  match s with
  | EmptyString => true
  | String c s' => plain c && separator s'
  end.

(** [sep0 obj1 sep1 ... objn sepn] *)
Fixpoint stream_text (sep0 : string) (items : list (string * string)) : string :=
  match items with
  | [] => sep0
  | (obj, sep) :: items' => sep0 +:+ obj +:+ stream_text sep items'
  end.

Definition well_formed_stream (sep0 : string) (items : list (string * string))
  : Prop :=
  separator sep0 = true
  /\ Forall (fun item => object_text (fst item) /\ separator (snd item) = true)
       items.

(** *** JSON texts

    The grammar of JSON: values, the members of an object and the elements
    of an array.  A number is taken as any run of digits, signs, dots and
    exponent marks. *)
Definition is_ws (c : ascii) : bool :=
  Chunker.is_char c " " || Chunker.is_char c (String "009" "")
  || Chunker.is_char c (String "010" "") || Chunker.is_char c (String "013" "").

Fixpoint whitespace (s : string) : bool :=
  match s with
  | EmptyString => true
  | String c s' => is_ws c && whitespace s'
  end.

Definition number_char (c : ascii) : bool :=
  is_digit c || Chunker.is_char c "-" || Chunker.is_char c "+"
  || Chunker.is_char c "." || Chunker.is_char c "e" || Chunker.is_char c "E".

Fixpoint number_chars (s : string) : bool :=
  match s with
  | EmptyString => true
  | String c s' => number_char c && number_chars s'
  end.

Inductive syntax := Value | Members | Elements.

Inductive json_text : syntax -> string -> Prop :=
| text_literal s : In s ["true"; "false"; "null"] -> json_text Value s
| text_number s : s <> "" -> number_chars s = true -> json_text Value s
| text_string b :
    string_body b -> json_text Value (Chunker.dquote +:+ b +:+ Chunker.dquote)
| text_empty_object w :
    whitespace w = true -> json_text Value ("{" +:+ w +:+ "}")
| text_object ms : json_text Members ms -> json_text Value ("{" +:+ ms +:+ "}")
| text_empty_array w :
    whitespace w = true -> json_text Value ("[" +:+ w +:+ "]")
| text_array es : json_text Elements es -> json_text Value ("[" +:+ es +:+ "]")
| text_member w1 k w2 w3 v w4 :
    whitespace w1 = true -> string_body k -> whitespace w2 = true ->
    whitespace w3 = true -> json_text Value v -> whitespace w4 = true ->
    json_text Members
      (w1 +:+ Chunker.dquote +:+ k +:+ Chunker.dquote +:+ w2 +:+ ":"
       +:+ w3 +:+ v +:+ w4)
| text_members m ms :
    json_text Members m -> json_text Members ms ->
    json_text Members (m +:+ "," +:+ ms)
| text_element w1 v w2 :
    whitespace w1 = true -> json_text Value v -> whitespace w2 = true ->
    json_text Elements (w1 +:+ v +:+ w2)
| text_elements e es :
    json_text Elements e -> json_text Elements es ->
    json_text Elements (e +:+ "," +:+ es).

(** A well-formed JSON object. *)
Definition json_object (s : string) : Prop :=
  exists inner,
    s = "{" +:+ inner +:+ "}"
    /\ (whitespace inner = true \/ json_text Members inner).

(** Array brackets, commas and white space. *)
Definition wrapper_char (c : ascii) : bool :=
  Chunker.is_char c "[" || Chunker.is_char c "]" || Chunker.is_char c ","
  || is_ws c.

Fixpoint wrapping (s : string) : bool :=
  match s with
  | EmptyString => true
  | String c s' => wrapper_char c && wrapping s'
  end.

(** A sequence of well-formed JSON objects, with array brackets, commas
    and white space before, between and after them. *)
Definition json_stream (sep0 : string) (items : list (string * string))
  : Prop :=
  wrapping sep0 = true
  /\ Forall (fun item => json_object (fst item) /\ wrapping (snd item) = true)
       items.

(** What a transformer extracts from a chunked body: the objects its
    [transform] cuts out of the chunks, then what its [flush] finds in the
    buffer left. *)
Definition extracted (step : string -> string -> string * list string)
    (flush : string -> list string) (chunks : list string) : list string :=
  let '(buffer, found) := Chunker.run step "" chunks in
  found ++ flush buffer.

(** [{"a":"}"}] *)
Definition brace_in_string : string :=
  "{" +:+ Chunker.dquote +:+ "a" +:+ Chunker.dquote +:+ ":"
  +:+ Chunker.dquote +:+ "}" +:+ Chunker.dquote +:+ "}".

Definition cur_of (a : automaton) : string :=
  match a with
  | Busy _ _ _ cur => cur
  | _ => ""
  end.

(** The locals of a scan whose current object, if any, began at index
    [p], against a state of the automaton. *)
Definition matches (p : nat) (st : Chunker.scan) (a : automaton) : Prop :=
  match a with
  | Idle =>
      Chunker.startPos st = (-1)%Z /\ Chunker.bracketDepth st = 0%Z
      /\ Chunker.inString st = false /\ Chunker.escapeNext st = false
  | Busy d s e _ =>
      Chunker.startPos st = Z.of_nat p /\ Chunker.bracketDepth st = Z.of_nat d
      /\ 1 <= d /\ Chunker.inString st = s /\ Chunker.escapeNext st = e
      /\ (s = false -> e = false)
  | Garbage => False
  end.

(** [cur] is the text read of the current object, [before] what precedes
    it in the buffer. *)
Definition tracks (before cur : string) (st : Chunker.scan) (a : automaton)
  : Prop :=
  feed_all Idle cur = (a, []) /\ cur_of a = cur
  /\ matches (String.length before) st a.

(** The bytes of a body received in chunks. *)
Definition body (chunks : list string) : string :=
  fold_right String.append "" chunks.

(** A body of two objects in an array, cut inside a string and inside a
    key. *)
Definition two_objects : list (string * string) :=
  [(brace_in_string, ","); ("{" +:+ Chunker.dquote +:+ "b" +:+ Chunker.dquote
                              +:+ ":{}}", "]")].

Definition two_objects_chunks : list string :=
  ["[{" +:+ Chunker.dquote +:+ "a" +:+ Chunker.dquote +:+ ":" +:+ Chunker.dquote;
   "}" +:+ Chunker.dquote +:+ "},{" +:+ Chunker.dquote;
   "b" +:+ Chunker.dquote +:+ ":{}}]"].

(** ** Stream termination *)






(** The events that deliver the outcome of a request in keep-alive
    mode; the others drive the heartbeat. *)
Definition delivery (e : Stream.ka_event) : bool :=
  match e with
  | Stream.SendFinalResponse _ | Stream.SendError _ | Stream.RouteError _ _ =>
      true
  | _ => false
  end.







(** ** Function names *)

(** A name the upstream API takes but for its length: not empty, made of
    [A-Za-z0-9_.:-], begun by a letter or an underscore. *)
Definition well_formed_name (n : Names.units) : Prop :=
  n <> [] /\ Forall (fun u => Names.allowed u = true) n
  /\ Names.starts_well n = true.

Definition valid_name (n : Names.units) : Prop :=
  well_formed_name n /\ length n <= 64.

(** A name the de-duplication loop can leave: a valid proposal, or a
    candidate made of one with a counter below [limit]. *)
Definition renamed (limit : N) (r : Names.units) : Prop :=
  exists proposed,
    valid_name proposed
    /\ (r = proposed
        \/ exists c, (c < limit)%N /\ r = Names.candidate proposed c).

(** The entries of [tool.function_declarations] when it is an array. *)
Definition declared {A} (function_declarations : option (list A)) : list A :=
  match function_declarations with Some ds => ds | None => [] end.

(** ** Stream output *)

(** A response that is neither ended nor lost. *)
Definition live (r : Stream.response) : Prop :=
  Stream.writableEnded r = false /\ Stream.destroyed r = false.

(** [choices[0][holder].content] of a translated object. *)
Definition content_in (holder : string) (o : JSON) : option JSON :=
  match Js.field "choices" o with
  | Some (JArr (c :: _)) =>
      match Js.field holder c with
      | Some m => Js.field "content" m
      | None => None
      end
  | _ => None
  end.

(** The keys [sanitizeToolParameters] leaves at no object it sanitizes. *)
Definition removed_keys : list string :=
  ["$schema"; "definitions"; "$defs"; "$ref"; "patternProperties";
   "examples"; "deprecated"; "readOnly"; "writeOnly"; "title"; "const";
   "any_of"; "one_of"; "all_of"; "exclusiveMinimum"; "exclusiveMaximum"].

(** A [type] the upstream API takes where it is a string: never an
    array, and one of the supported names. *)
Definition type_fits (s : list (string * JSON)) : Prop :=
  forall t, Js.get "type" s = Some t ->
            Js.isArray t = false
            /\ (Schema.is_string t = true -> Schema.supported t = true).

(** ** Sample inputs *)

(** A request with one function tool, chosen by name. *)
Definition sample_request : Translate.request :=
  {| Translate.messages := Some [message_of "user" (Translate.Text "hi")];
     Translate.tools :=
       Some [{| Translate.tool_type := Some "function";
                Translate.tool_function_of :=
                  Some {| Translate.tf_name := Some "get_weather";
                          Translate.tf_description := Some "Weather of a city";
                          Translate.tf_parameters := None |} |}];
     Translate.tool_choice_of := Some (Translate.ChoiceString "get_weather") |}.

Definition sample_translation : Translate.gemini_request :=
  {| Translate.r_contents :=
       [{| Translate.g_role := "user";
           Translate.g_parts := [Translate.PText (Some "hi")] |}];
     Translate.r_systemInstruction := None;
     Translate.r_tools :=
       Some [{| Translate.d_name := Some "get_weather";
                Translate.d_description := Some "Weather of a city";
                Translate.d_parameters := None |}];
     Translate.r_toolConfig :=
       Some {| Translate.mode := "ANY";
               Translate.allowedFunctionNames := Some ["get_weather"] |} |}.

(** An upstream response that calls [get_weather]. *)
Definition sample_call : Response.gemini_response :=
  {| Response.candidates :=
       Some [{| Response.cand_content :=
                  Some {| Response.role := Some "model";
                          Response.parts :=
                            Some [{| Response.text := None;
                                     Response.functionCall :=
                                       Some {| Response.fc_name :=
                                                 Some "get_weather";
                                               Response.fc_args :=
                                                 Some (JObj [("city",
                                                              JStr "Paris")])
                                            |} |}] |};
                Response.finishReason := Some "STOP";
                Response.index := None |}];
     Response.blockReason := None;
     Response.usageMetadata := None |}.

(** A schema with a [$schema], a [$ref] and an [enum] beside a type that
    is not a string, and what the route-level pass makes of it. *)
Definition sample_schema : JSON :=
  JObj [("$schema", JStr "x");
        ("properties",
         JObj [("a", JObj [("$ref", JStr "#/x"); ("type", JStr "string")]);
               ("b", JObj [("enum", JArr [JNum 1%Z]);
                           ("type", JStr "number")])])].

Definition sample_schema_pruned : JSON :=
  JObj [("properties",
         JObj [("a", JObj []); ("b", JObj [("type", JStr "number")])]);
        ("type", JStr "object")].

(** An object as the translator's sanitizer leaves it. *)
Definition clean (s : list (string * JSON)) : Prop :=
  (forall k, In k removed_keys -> Js.has k s = false)
  /\ type_fits s
  /\ (forall req, Js.get "required" s = Some (JArr req) ->
                  Forall (fun r => Schema.is_string r = true) req).

(** [P] holds of a schema and of every schema under it that is reached
    through [properties] and [items]. *)
Inductive schema_wide (P : list (string * JSON) -> Prop) : JSON -> Prop :=
| wide_obj s :
    P s ->
    (forall props, Js.get "properties" s = Some (JObj props) ->
                   Forall (fun kv => schema_wide P (snd kv)) props) ->
    (forall items, Js.get "items" s = Some items -> schema_wide P items) ->
    schema_wide P (JObj s)
| wide_other v :
    match v with JObj _ => False | _ => True end -> schema_wide P v.



(** * Properties *)

(** ** Model catalog *)

Section CatalogFacts.
Import Catalog.

Lemma list_includes_In (l : list string) (m : string) :
  list_includes l m = true <-> In m l.
Proof.
  unfold list_includes. rewrite existsb_exists. split.
  - intros [x [Hin Heq]]. apply String.eqb_eq in Heq. by subst.
  - intros Hin. exists m. split; [done | apply String.eqb_refl].
Qed.


Lemma accepts_spec (c : config) (m : string) :
  accepts c m = true <-> m <> "" /\ In m (enabledModels c).
Proof.
  unfold accepts, validate, JsString.truthy.
  rewrite <- list_includes_In.
  destruct (String.eqb_spec m ""), (list_includes (enabledModels c) m);
    simpl; intuition congruence.
Qed.



End CatalogFacts.

(** ** Finish reasons *)

Section FinishReasonFacts.
Import Response.
Context `{Builtins}.











End FinishReasonFacts.



(** ** The embedding route *)

Section EmbeddedFacts.
Import Embedded.
Context `{Builtins}.

(** Whatever the proxy service returns without an error, the handler
    answers nothing: it passes a [ReferenceError] to [next]. *)
Lemma embedded_success_fails (now_ms : Z) (rand : string)
    (result : proxy_result) :
  Js.otruthy (error result) = false ->
  embedded now_ms rand result
  = Next "ReferenceError: requestedModelId is not defined".
Proof. intros Herr. unfold embedded. by rewrite Herr. Qed.

(** C9 on a successful result with two embeddings: the claim has the
    route answer with the list the embedding translator makes of them;
    the route as written answers nothing and hands a [ReferenceError] to
    the error handler. *)
Theorem embedded_route_on_success (now_ms : Z) (rand : string) :
  transformGeminiEmbeddingResponseToOpenAI
    (read_embedding_response (response_body embedding_success)) None None
  = JObj [("object", JStr "list");
          ("data",
           JArr [JObj [("object", JStr "embedding");
                       ("embedding", JArr [JNum 1; JNum 2]);
                       ("index", JNum 0)];
                 JObj [("object", JStr "embedding");
                       ("embedding", JArr [JNum 3]);
                       ("index", JNum 1)]]);
          ("usage", JObj [("prompt_tokens", JNum 0); ("total_tokens", JNum 0)])]
  /\ embedded now_ms rand embedding_success
     = Next "ReferenceError: requestedModelId is not defined".
Proof. split; reflexivity. Qed.

End EmbeddedFacts.

(** ** Request translator *)

Section TranslateFacts.
Import Translate.
Context `{Builtins}.
Variable requestedModelId : option string.
Variable isSafetyEnabled : bool.

#[local] Abbreviation step := (Translate.step requestedModelId isSafetyEnabled).
#[local] Abbreviation transform_messages :=
  (Translate.transform_messages requestedModelId isSafetyEnabled).

Lemma is_lit_true (lit : string) (s : option string) :
  is_lit lit s = true <-> s = Some lit.
Proof.
  unfold is_lit. destruct s as [x|]; [| by split].
  rewrite String.eqb_eq. split; congruence.
Qed.

Lemma is_lit_diff (a b : string) (s : option string) :
  a <> b -> is_lit a s = true -> is_lit b s = false.
Proof.
  intros Hne Ha. apply is_lit_true in Ha. subst. simpl.
  by apply String.eqb_neq.
Qed.

Lemma contents_push role parts st :
  contents (push role parts st)
  = contents st
    ++ match parts with [] => [] | _ => [{| g_role := role; g_parts := parts |}] end.
Proof. destruct parts; simpl; by rewrite ?app_nil_r. Qed.

Lemma systemInstruction_push role parts st :
  systemInstruction (push role parts st) = systemInstruction st.
Proof. by destruct parts. Qed.

Lemma toolCallIdToName_push role parts st :
  toolCallIdToName (push role parts st) = toolCallIdToName st.
Proof. by destruct parts. Qed.

(** A step only ever appends to [contents]. *)
Lemma step_contents_grow st msg :
  exists more, contents (step st msg) = contents st ++ more.
Proof.
  unfold Translate.step.
  repeat match goal with
    | |- context [if ?b then _ else _] => destruct b
    | |- context [match plain_parts ?m with _ => _ end] => destruct (plain_parts m)
    | |- context [match live_tool_calls ?m with _ => _ end] => destruct (live_tool_calls m)
    | |- context [match instruction_of ?m with _ => _ end] => destruct (instruction_of m)
    end;
    rewrite ?contents_push; simpl; eauto using app_nil_r.
  all: try (exists []; by rewrite app_nil_r).
Qed.

Lemma run_contents_grow msgs st :
  exists more, contents (fold_left step msgs st) = contents st ++ more.
Proof.
  revert st. induction msgs as [|m msgs IH]; intros st; simpl.
  - exists []. by rewrite app_nil_r.
  - destruct (IH (step st m)) as [more Hm].
    destruct (step_contents_grow st m) as [more' Hm'].
    exists (more' ++ more). by rewrite Hm, Hm', app_assoc.
Qed.

(** *** System messages *)

Lemma step_system st msg :
  system_as_user requestedModelId isSafetyEnabled = false ->
  is_system msg = true ->
  contents (step st msg) = contents st
  /\ toolCallIdToName (step st msg) = toolCallIdToName st
  /\ systemInstruction (step st msg)
     = instruction_step (systemInstruction st) msg.
Proof.
  intros Hsafe Hsys. unfold Translate.step, instruction_step.
  rewrite Hsys, Hsafe. unfold is_system in Hsys.
  rewrite (is_lit_diff "system" "user"), (is_lit_diff "system" "assistant"),
    (is_lit_diff "system" "tool"), Hsys by done.
  by destruct (instruction_of (msg_content msg)).
Qed.

Lemma step_other st st' msg :
  is_system msg = false ->
  contents st = contents st' ->
  toolCallIdToName st = toolCallIdToName st' ->
  contents (step st msg) = contents (step st' msg)
  /\ toolCallIdToName (step st msg) = toolCallIdToName (step st' msg)
  /\ systemInstruction (step st msg) = systemInstruction st.
Proof.
  intros Hsys Hc Hm. unfold Translate.step. unfold is_system in Hsys.
  rewrite Hsys.
  repeat match goal with
    | |- context [if ?b then _ else _] => destruct b
    | |- context [match plain_parts ?m with _ => _ end] => destruct (plain_parts m)
    | |- context [match live_tool_calls ?m with _ => _ end] => destruct (live_tool_calls m)
    end;
    rewrite ?contents_push, ?systemInstruction_push, ?toolCallIdToName_push;
    simpl; rewrite ?Hc, ?Hm; auto.
Qed.

Lemma run_system_messages msgs st st' :
  system_as_user requestedModelId isSafetyEnabled = false ->
  contents st = contents st' ->
  toolCallIdToName st = toolCallIdToName st' ->
  contents (fold_left step msgs st)
  = contents (fold_left step (List.filter (fun m => negb (is_system m)) msgs) st')
  /\ systemInstruction (fold_left step msgs st)
     = fold_left instruction_step msgs (systemInstruction st).
Proof.
  intros Hsafe. revert st st'.
  induction msgs as [|m msgs IH]; intros st st' Hc Hm; simpl; [done |].
  destruct (is_system m) eqn:Hsys; simpl.
  - destruct (step_system st m Hsafe Hsys) as (Hc1 & Hm1 & Hs1).
    destruct (IH (step st m) st') as [IHc IHs]; [congruence | congruence |].
    by rewrite IHc, IHs, Hs1.
  - destruct (step_other st st' m Hsys Hc Hm) as (Hc1 & Hm1 & Hs1).
    destruct (IH (step st m) (step st' m)) as [IHc IHs]; [done | done |].
    rewrite IHc, IHs, Hs1. split; [done |].
    f_equal. unfold instruction_step. by rewrite Hsys.
Qed.

Lemma last_instruction_app pre m post :
  is_system m = true ->
  Forall (fun x => is_system x = false) post ->
  fold_left instruction_step (pre ++ m :: post) None
  = instruction_step (fold_left instruction_step pre None) m.
Proof.
  intros Hm Hpost. rewrite fold_left_app. simpl.
  generalize (instruction_step (fold_left instruction_step pre None) m).
  induction Hpost as [|x post Hx _ IH]; intros acc; simpl; [done |].
  rewrite IH. unfold instruction_step. by rewrite Hx.
Qed.

(** C10, amended: with safety filtering enabled and a model that is not a
    gemma model, no system message reaches [contents], which is the
    [contents] of the list without its system messages, and
    [systemInstruction] is the instruction of the last system message
    that sets one: one whose content is a string, or a list of parts
    whose first text part is not empty.  When the last system message has
    a string content, that string is the instruction and every earlier
    system message is discarded. *)
Theorem system_messages_last_wins (msgs : list message) :
  system_as_user requestedModelId isSafetyEnabled = false ->
  contents (transform_messages msgs)
  = contents (transform_messages
                (List.filter (fun m => negb (is_system m)) msgs))
  /\ systemInstruction (transform_messages msgs) = last_instruction msgs
  /\ (forall pre m post s,
        msgs = pre ++ m :: post ->
        is_system m = true ->
        msg_content m = Text s ->
        Forall (fun x => is_system x = false) post ->
        systemInstruction (transform_messages msgs) = Some {| si_text := s |}).
Proof.
  intros Hsafe.
  destruct (run_system_messages msgs state0 state0 Hsafe eq_refl eq_refl)
    as [Hc Hs].
  split; [exact Hc |]. split; [exact Hs |].
  intros pre m post s -> Hm Hcontent Hpost.
  unfold Translate.transform_messages. rewrite Hs.
  change (systemInstruction state0) with (@None system_instruction).
  rewrite last_instruction_app by done.
  unfold instruction_step. by rewrite Hm, Hcontent.
Qed.

(** *** Tool-call threading *)

Lemma record_call_other (m : gmap string string) (tc : tool_call) (X : string) :
  tc_id tc <> Some X -> record_call m tc !! X = m !! X.
Proof.
  intros Hid. unfold record_call.
  destruct (called_name tc), (tc_id tc) as [i|]; try done.
  destruct (JsString.truthy i); [| done].
  apply lookup_insert_ne. congruence.
Qed.

Lemma record_calls_other (tcs : list tool_call) (m : gmap string string)
    (X : string) :
  Forall (fun tc => tc_id tc <> Some X) tcs ->
  fold_left record_call tcs m !! X = m !! X.
Proof.
  intros Hall. revert m.
  induction Hall as [|tc tcs Htc _ IH]; intros m; simpl; [done |].
  by rewrite IH, record_call_other.
Qed.

Lemma step_lookup_other st msg (X : string) :
  Forall (fun tc => tc_id tc <> Some X) (live_tool_calls msg) ->
  toolCallIdToName (step st msg) !! X = toolCallIdToName st !! X.
Proof.
  intros Hall. unfold Translate.step.
  destruct (is_lit "user" (role msg));
    [destruct (plain_parts msg); by rewrite ?toolCallIdToName_push |].
  destruct (is_lit "assistant" (role msg)).
  { destruct (live_tool_calls msg) as [|tc tcs];
      [destruct (plain_parts msg); by rewrite ?toolCallIdToName_push |].
    rewrite toolCallIdToName_push.
    exact (record_calls_other (tc :: tcs) _ X Hall). }
  destruct (is_lit "tool" (role msg));
    [by rewrite toolCallIdToName_push |].
  destruct (is_lit "system" (role msg)); [| done].
  destruct (system_as_user requestedModelId isSafetyEnabled);
    [destruct (plain_parts msg); by rewrite ?toolCallIdToName_push |].
  by destruct (instruction_of (msg_content msg)).
Qed.

Lemma run_lookup_other msgs st (X : string) :
  Forall (fun msg => Forall (fun tc => tc_id tc <> Some X) (live_tool_calls msg))
    msgs ->
  toolCallIdToName (fold_left step msgs st) !! X = toolCallIdToName st !! X.
Proof.
  intros Hall. revert st.
  induction Hall as [|m msgs Hm _ IH]; intros st; simpl; [done |].
  by rewrite IH, step_lookup_other.
Qed.

Lemma step_assistant_records st a (X F : string) (arguments : option string) :
  role a = Some "assistant" ->
  tool_calls a
  = Some [{| tc_id := Some X; tc_type := Some "function";
             tc_function := Some {| fn_name := Some F;
                                    fn_arguments := arguments |} |}] ->
  X <> "" -> F <> "" ->
  toolCallIdToName (step st a) !! X = Some F.
Proof.
  intros Hrole Htcs HX HF. unfold Translate.step, live_tool_calls.
  rewrite Hrole, Htcs. simpl.
  rewrite toolCallIdToName_push. simpl.
  unfold record_call, called_name. simpl.
  unfold JsString.truthy.
  rewrite !(proj2 (String.eqb_neq _ _)) by done. simpl.
  apply lookup_insert_eq.
Qed.

Lemma step_tool st t :
  role t = Some "tool" ->
  step st t = push "user" [tool_part (toolCallIdToName st) t] st.
Proof. intros Hrole. unfold Translate.step. by rewrite Hrole. Qed.

(** C1, amended: let an assistant message carry the single tool call
    [{id: X, type: "function", function: {name: F}}] with [X] and [F] not
    empty, and let a later tool message carry [tool_call_id = X] and no
    name, with no tool call of id [X] in the messages between the two.
    Then the translator emits, for that tool message, one user content
    whose only part is the [functionResponse] named [F].  And a tool
    message whose name cannot be resolved is emitted as one user content
    with one text part: it is never dropped. *)
Theorem tool_call_threading :
  (forall (pre mid post : list message) (a t : message) (X F : string)
          (arguments : option string),
      role a = Some "assistant" ->
      tool_calls a
      = Some [{| tc_id := Some X; tc_type := Some "function";
                 tc_function := Some {| fn_name := Some F;
                                        fn_arguments := arguments |} |}] ->
      X <> "" -> F <> "" ->
      Forall (fun msg => Forall (fun tc => tc_id tc <> Some X)
                           (live_tool_calls msg)) mid ->
      role t = Some "tool" ->
      tool_call_id t = Some X ->
      truthy_opt (name t) = false ->
      exists more,
        contents (transform_messages (pre ++ a :: mid ++ t :: post))
        = contents (transform_messages (pre ++ a :: mid))
          ++ {| g_role := "user";
                g_parts := [PFunctionResponse F (responseObj (msg_content t))] |}
          :: more)
  /\ (forall (pre post : list message) (t : message),
        role t = Some "tool" ->
        truthy_opt (resolve_name (toolCallIdToName (transform_messages pre)) t)
        = false ->
        exists text more,
          contents (transform_messages (pre ++ t :: post))
          = contents (transform_messages pre)
            ++ {| g_role := "user"; g_parts := [PText (Some text)] |} :: more).
Proof.
  split.
  - intros pre mid post a t X F arguments Hrole Htcs HX HF Hmid Ht Hid Hname.
    unfold Translate.transform_messages.
    replace (pre ++ a :: mid ++ t :: post)
      with ((pre ++ a :: mid) ++ t :: post)
      by (rewrite <- app_assoc; reflexivity).
    rewrite (fold_left_app _ (pre ++ a :: mid)). simpl.
    set (st := fold_left step (pre ++ a :: mid) state0).
    assert (Hlook : toolCallIdToName st !! X = Some F).
    { unfold st. rewrite fold_left_app. simpl.
      rewrite run_lookup_other by done.
      by eapply step_assistant_records. }
    destruct (run_contents_grow post (step st t)) as [more Hmore].
    exists more. rewrite Hmore, step_tool by done.
    rewrite contents_push, <- app_assoc. simpl. do 3 f_equal.
    unfold tool_part, resolve_name.
    rewrite Hname, Hid. unfold JsString.truthy.
    rewrite (proj2 (String.eqb_neq _ _)) by done. simpl.
    rewrite Hlook. simpl. unfold JsString.truthy.
    by rewrite (proj2 (String.eqb_neq _ _)) by done.
  - intros pre post t Ht Hname.
    unfold Translate.transform_messages in *.
    rewrite fold_left_app. simpl.
    set (st := fold_left step pre state0) in *.
    destruct (run_contents_grow post (step st t)) as [more Hmore].
    rewrite Hmore, step_tool by done.
    rewrite contents_push, <- app_assoc. simpl.
    unfold tool_part. rewrite Hname. eauto.
Qed.

End TranslateFacts.

(** C1, as stated, fails: the tool call of the claim,
    [{id: X, function: {name: F}}], has no [type], and the translator
    records the name of a call only when its [type] is ["function"].  For
    the assistant call [{id: "c1", function: {name: "get_weather"}}]
    followed by the tool message [{tool_call_id: "c1", content: "70"}] the
    tool message is emitted as the text ["70"]. *)
Lemma untyped_call_not_threaded :
  ~ (forall (B : Builtins) (requestedModelId : option string)
            (isSafetyEnabled : bool)
            (pre mid post : list Translate.message)
            (a t : Translate.message) (X F : string)
            (type arguments : option string),
        Translate.role a = Some "assistant" ->
        Translate.tool_calls a
        = Some [{| Translate.tc_id := Some X;
                   Translate.tc_type := type;
                   Translate.tc_function :=
                     Some {| Translate.fn_name := Some F;
                             Translate.fn_arguments := arguments |} |}] ->
        Translate.role t = Some "tool" ->
        Translate.tool_call_id t = Some X ->
        Translate.name t = None ->
        exists more,
          Translate.contents
            (Translate.transform_messages requestedModelId isSafetyEnabled
               (pre ++ a :: mid ++ t :: post))
          = Translate.contents
              (Translate.transform_messages requestedModelId isSafetyEnabled
                 (pre ++ a :: mid))
            ++ {| Translate.g_role := "user";
                  Translate.g_parts :=
                    [Translate.PFunctionResponse F
                       (Translate.responseObj (Translate.msg_content t))] |}
            :: more).
Proof.
  intros Hall.
  destruct (Hall Sample.builtins None true [] [] [] (weather_call None)
              weather_result "c1" "get_weather" None (Some "{}"))
    as [more Hmore]; try reflexivity.
  vm_compute in Hmore. discriminate.
Qed.

Lemma tool_call_threading_witness :
  exists more,
    Translate.contents
      (Translate.transform_messages (H := Sample.builtins) None true
         ([] ++ weather_call (Some "function") :: [] ++ weather_result :: []))
    = Translate.contents
        (Translate.transform_messages (H := Sample.builtins) None true
           ([] ++ weather_call (Some "function") :: []))
      ++ {| Translate.g_role := "user";
            Translate.g_parts :=
              [Translate.PFunctionResponse "get_weather"
                 (Translate.responseObj (H := Sample.builtins)
                    (Translate.msg_content weather_result))] |}
      :: more.
Proof.
  apply (proj1 (tool_call_threading (H := Sample.builtins) None true))
    with (X := "c1") (arguments := Some "{}").
  - reflexivity.
  - reflexivity.
  - discriminate.
  - discriminate.
  - constructor.
  - reflexivity.
  - reflexivity.
  - reflexivity.
Defined.

(** C10, as stated, fails: the last system message does not always win.
    For [{role: "system", content: "A"}] followed by a system message whose
    content is a list with one image part, [systemInstruction] is the ["A"]
    of the earlier message. *)
Lemma earlier_system_message_kept :
  ~ (forall (B : Builtins) (requestedModelId : option string)
            (isSafetyEnabled : bool)
            (pre post : list Translate.message) (m : Translate.message),
        Translate.system_as_user requestedModelId isSafetyEnabled = false ->
        Exists (fun x => is_system x = true) pre ->
        is_system m = true ->
        Forall (fun x => is_system x = false) post ->
        Translate.systemInstruction
          (Translate.transform_messages requestedModelId isSafetyEnabled
             (pre ++ m :: post))
        = Translate.instruction_of (Translate.msg_content m)).
Proof.
  intros Hall.
  specialize (Hall Sample.builtins None true
                [message_of "system" (Translate.Text "A")] []
                (message_of "system"
                   (Translate.Parts
                      [{| Translate.part_type := Some "image_url";
                          Translate.part_text := None;
                          Translate.part_url := Some "data:image/png;base64,AAAA" |}]))).
  assert (Hx : Translate.systemInstruction
                 (Translate.transform_messages (H := Sample.builtins) None true
                    ([message_of "system" (Translate.Text "A")]
                     ++ message_of "system"
                          (Translate.Parts
                             [{| Translate.part_type := Some "image_url";
                                 Translate.part_text := None;
                                 Translate.part_url :=
                                   Some "data:image/png;base64,AAAA" |}]) :: []))
               = None).
  { apply Hall; [reflexivity | | reflexivity | constructor].
    constructor. reflexivity. }
  vm_compute in Hx. discriminate.
Qed.

Lemma system_messages_last_wins_witness :
  Translate.systemInstruction
    (Translate.transform_messages (H := Sample.builtins) None true
       [message_of "system" (Translate.Text "A");
        message_of "user" (Translate.Text "hi");
        message_of "system" (Translate.Text "B")])
  = Some {| Translate.si_text := "B" |}.
Proof.
  destruct (system_messages_last_wins (H := Sample.builtins) None true
              [message_of "system" (Translate.Text "A");
               message_of "user" (Translate.Text "hi");
               message_of "system" (Translate.Text "B")] eq_refl)
    as (_ & _ & Hlast).
  apply (Hlast [message_of "system" (Translate.Text "A");
                message_of "user" (Translate.Text "hi")]
           (message_of "system" (Translate.Text "B")) [] "B");
    [reflexivity | reflexivity | reflexivity | constructor].
Defined.

(** ** Schema sanitizers *)

Section JsFacts.

(** Induction on a JSON value with the hypothesis on every member of an
    array and on every field value of an object. *)
Lemma JSON_nested_ind (P : JSON -> Prop) :
  P JNull -> (forall b, P (JBool b)) -> (forall n, P (JNum n)) ->
  (forall s, P (JStr s)) ->
  (forall items, Forall P items -> P (JArr items)) ->
  (forall fs, Forall (fun kv => P (snd kv)) fs -> P (JObj fs)) ->
  forall x, P x.
Proof.
  intros Hnull Hbool Hnum Hstr Harr Hobj.
  fix go 1. intros [| b | n | s | items | fs].
  - exact Hnull.
  - apply Hbool.
  - apply Hnum.
  - apply Hstr.
  - apply Harr.
    revert items. fix go_items 1. intros [|x items].
    + constructor.
    + constructor; [apply go | apply go_items].
  - apply Hobj.
    revert fs. fix go_fields 1. intros [|[k x] fs].
    + constructor.
    + constructor; [apply go | apply go_fields].
Qed.

Lemma get_set_eq k v fs : Js.get k (Js.set k v fs) = Some v.
Proof.
  induction fs as [|[k' v'] fs IH]; simpl.
  - by rewrite String.eqb_refl.
  - destruct (String.eqb_spec k' k); simpl.
    + subst. by rewrite String.eqb_refl.
    + by rewrite (proj2 (String.eqb_neq _ _)).
Qed.

Lemma get_set_ne k k' v fs : k <> k' -> Js.get k (Js.set k' v fs) = Js.get k fs.
Proof.
  intros Hne. induction fs as [|[k0 v0] fs IH]; simpl.
  - by rewrite (proj2 (String.eqb_neq k' k)).
  - destruct (String.eqb_spec k0 k'); simpl.
    + subst. by rewrite !(proj2 (String.eqb_neq k' k)).
    + destruct (String.eqb_spec k0 k); [done | exact IH].
Qed.

Lemma get_del_eq k fs : Js.get k (Js.del k fs) = None.
Proof.
  induction fs as [|[k0 v0] fs IH]; simpl; [done |].
  destruct (String.eqb_spec k0 k); simpl; [done |].
  by rewrite (proj2 (String.eqb_neq _ _)).
Qed.

Lemma get_del_ne k k' fs : k <> k' -> Js.get k (Js.del k' fs) = Js.get k fs.
Proof.
  intros Hne. induction fs as [|[k0 v0] fs IH]; simpl; [done |].
  destruct (String.eqb_spec k0 k'); simpl.
  - subst. by rewrite (proj2 (String.eqb_neq k' k)).
  - destruct (String.eqb_spec k0 k); [done | exact IH].
Qed.

Lemma Forall_js_set (P : string * JSON -> Prop) k v fs :
  Forall P fs -> P (k, v) -> Forall P (Js.set k v fs).
Proof.
  intros Hfs Hv. induction Hfs as [|[k0 v0] fs H0 Hfs IH]; simpl.
  - by constructor.
  - destruct (String.eqb_spec k0 k); constructor; auto. by subst.
Qed.

Lemma Forall_js_del (P : string * JSON -> Prop) k fs :
  Forall P fs -> Forall P (Js.del k fs).
Proof.
  intros Hfs. induction Hfs as [|[k0 v0] fs H0 Hfs IH]; simpl; [done |].
  destruct (String.eqb k0 k); auto.
Qed.

Lemma get_None_not_key k fs :
  Forall (fun kv => fst kv <> k) fs -> Js.get k fs = None.
Proof.
  intros Hfs. induction Hfs as [|[k0 v0] fs H0 Hfs IH]; simpl; [done |].
  simpl in H0. by rewrite (proj2 (String.eqb_neq _ _)).
Qed.

Lemma get_Some_In k v fs : Js.get k fs = Some v -> In (k, v) fs.
Proof.
  induction fs as [|[k0 v0] fs IH]; simpl; [done |].
  destruct (String.eqb_spec k0 k); [intros [= <-]; subst; by left | auto].
Qed.

End JsFacts.

Section SchemaFacts.
Import Schema.

Lemma map_all_Some {A B} (f : A -> option B) (l : list A) (ys : list B) :
  map_all f l = Some ys -> Forall2 (fun x y => f x = Some y) l ys.
Proof.
  revert ys. induction l as [|x l IH]; simpl; intros ys.
  - intros [= <-]. constructor.
  - destruct (f x) as [y|] eqn:Hx; [| done].
    destruct (map_all f l) as [ys'|]; [| done].
    intros [= <-]. constructor; auto.
Qed.

Lemma map_all_is_Some {A B} (f : A -> option B) (l : list A) :
  Forall (fun x => exists y, f x = Some y) l -> exists ys, map_all f l = Some ys.
Proof.
  induction 1 as [|x l [y Hy] _ [ys Hys]]; simpl; [eauto |].
  rewrite Hy, Hys. eauto.
Qed.

Lemma Forall_indexed {A} (P : A -> Prop) (i : nat) (l : list A) :
  Forall P l -> Forall (fun kv => P (snd kv)) (indexed i l).
Proof.
  intros Hl. revert i. induction Hl; intros i; simpl; constructor; auto.
Qed.

Lemma not_skipped_get (k : string) (fs : list (string * JSON)) :
  skipped_key k = true ->
  Forall (fun kv => skipped_key (fst kv) = false) fs ->
  Js.get k fs = None.
Proof.
  intros Hk Hfs. apply get_None_not_key.
  eapply Forall_impl; [exact Hfs |]. intros [k0 v0] H0 Heq.
  simpl in H0, Heq. congruence.
Qed.

Lemma filter_not_skipped (fs : list (string * JSON)) :
  Forall (fun kv => skipped_key (fst kv) = false) fs ->
  List.filter (fun '(key, _) => negb (skipped_key key)) fs = fs.
Proof.
  induction 1 as [|[k v] fs Hk _ IH]; simpl; [done |].
  simpl in Hk. by rewrite Hk, IH.
Qed.

Lemma normal_empty : normal (JObj []).
Proof.
  apply normal_obj; [constructor | constructor | done | by right | done].
Qed.

Lemma normal_type_object : normal type_object.
Proof.
  apply normal_obj; [repeat constructor | repeat constructor | done | by left | done].
Qed.

(** Neither [enum_guard] nor [infer_type] touches another key. *)
Lemma get_enum_guard k t : k <> "enum" -> Js.get k (enum_guard t) = Js.get k t.
Proof.
  intros Hk. unfold enum_guard.
  destruct (Js.has "enum" t); [| done].
  destruct (Js.is_str "string" (Js.get "type" t)); [done |].
  by apply get_del_ne.
Qed.

Lemma get_infer_type k t : k <> "type" -> Js.get k (infer_type t) = Js.get k t.
Proof.
  intros Hk. unfold infer_type.
  destruct (Js.has "type" t); [done |].
  destruct (looksObject t); [by apply get_set_ne |].
  destruct (looksArray t); [by apply get_set_ne | done].
Qed.

Lemma first_combinator_ext t t' :
  Js.get "anyOf" t = Js.get "anyOf" t' ->
  Js.get "oneOf" t = Js.get "oneOf" t' ->
  Js.get "allOf" t = Js.get "allOf" t' ->
  first_combinator t = first_combinator t'.
Proof. intros H1 H2 H3. unfold first_combinator. by rewrite H1, H2, H3. Qed.

Lemma looks_ext t t' :
  Js.get "properties" t = Js.get "properties" t' ->
  Js.get "required" t = Js.get "required" t' ->
  Js.get "items" t = Js.get "items" t' ->
  Js.get "prefixItems" t = Js.get "prefixItems" t' ->
  looksObject t = looksObject t' /\ looksArray t = looksArray t'.
Proof.
  intros H1 H2 H3 H4. unfold looksObject, looksArray, Js.has.
  by rewrite H1, H2, H3, H4.
Qed.

Lemma enum_ok_enum_guard t : enum_ok (enum_guard t).
Proof.
  unfold enum_ok, enum_guard.
  destruct (Js.has "enum" t) eqn:Hhas; [| congruence].
  destruct (Js.is_str "string" (Js.get "type" t)) eqn:Hstr; [done |].
  unfold Js.has. by rewrite get_del_eq.
Qed.

Lemma enum_ok_infer_type t : enum_ok t -> enum_ok (infer_type t).
Proof.
  unfold enum_ok, Js.has. intros Hok.
  rewrite get_infer_type by done. intros Henum.
  specialize (Hok Henum). unfold infer_type, Js.has.
  destruct (Js.get "type" t) eqn:Ht; [by rewrite Ht | done].
Qed.

Lemma type_ok_infer_type t : type_ok (infer_type t).
Proof.
  unfold type_ok, infer_type.
  destruct (Js.has "type" t) eqn:Hhas; [by left |].
  destruct (looksObject t) eqn:Hobj; [left; unfold Js.has; by rewrite get_set_eq |].
  destruct (looksArray t) eqn:Harr; [left; unfold Js.has; by rewrite get_set_eq |].
  by right.
Qed.

Lemma values_enum_guard (P : JSON -> Prop) t :
  Forall (fun kv => P (snd kv)) t -> Forall (fun kv => P (snd kv)) (enum_guard t).
Proof.
  intros Ht. unfold enum_guard.
  destruct (Js.has "enum" t); [| done].
  destruct (Js.is_str "string" (Js.get "type" t)); [done | by apply Forall_js_del].
Qed.

Lemma values_infer_type (P : JSON -> Prop) t :
  (forall s, P (JStr s)) ->
  Forall (fun kv => P (snd kv)) t -> Forall (fun kv => P (snd kv)) (infer_type t).
Proof.
  intros Hstr Ht. unfold infer_type.
  destruct (Js.has "type" t); [done |].
  destruct (looksObject t); [apply Forall_js_set; simpl; auto |].
  destruct (looksArray t); [apply Forall_js_set; simpl; auto | done].
Qed.

Lemma keys_enum_guard t :
  Forall (fun kv => skipped_key (fst kv) = false) t ->
  Forall (fun kv => skipped_key (fst kv) = false) (enum_guard t).
Proof.
  intros Ht. unfold enum_guard.
  destruct (Js.has "enum" t); [| done].
  destruct (Js.is_str "string" (Js.get "type" t)); [done | by apply Forall_js_del].
Qed.

Lemma keys_infer_type t :
  Forall (fun kv => skipped_key (fst kv) = false) t ->
  Forall (fun kv => skipped_key (fst kv) = false) (infer_type t).
Proof.
  intros Ht. unfold infer_type.
  destruct (Js.has "type" t); [done |].
  destruct (looksObject t); [apply Forall_js_set; simpl; auto |].
  destruct (looksArray t); [apply Forall_js_set; simpl; auto | done].
Qed.

(** The object the post-processing leaves is in normal form as soon as it
    holds no combinator array. *)
Lemma normal_post (t : list (string * JSON)) :
  Forall (fun kv => normal (snd kv)) t ->
  Forall (fun kv => skipped_key (fst kv) = false) t ->
  first_combinator (infer_type (enum_guard t)) = None ->
  normal (JObj (infer_type (enum_guard t))).
Proof.
  intros Hv Hk Hc. constructor.
  - apply values_infer_type; [constructor |]. by apply values_enum_guard.
  - by apply keys_infer_type, keys_enum_guard.
  - apply enum_ok_infer_type, enum_ok_enum_guard.
  - apply type_ok_infer_type.
  - exact Hc.
Qed.

Lemma Forall2_right {A B} (R : A -> B -> Prop) (Q : B -> Prop) l ys :
  Forall2 R l ys -> (forall x y, In x l -> R x y -> Q y) -> Forall Q ys.
Proof.
  induction 1 as [|x y l ys Hxy _ IH]; intros HQ; constructor.
  - eapply HQ; [by left | exact Hxy].
  - apply IH. intros x' y' Hin. apply HQ. by right.
Qed.

Lemma In_indexed {A} (i : nat) (l : list A) k x :
  In (k, x) (indexed i l) -> In x l.
Proof.
  revert i. induction l as [|y l IH]; simpl; intros i; [done |].
  intros [[= _ <-]|Hin]; [by left | right; eauto].
Qed.

(** The transformed fields keep the keys of the fields they come from. *)
Lemma map_all_fields (g : string -> JSON -> option JSON) fs t :
  map_all (fun '(key, v) => option_map (pair key) (g key v)) fs = Some t ->
  Forall2 (fun kv kv' => fst kv' = fst kv /\ g (fst kv) (snd kv) = Some (snd kv'))
    fs t.
Proof.
  intros Hm. apply map_all_Some in Hm.
  induction Hm as [|[k v] [k' v'] fs t Hkv _ IH]; constructor; [| done].
  simpl. destruct (g k v); simpl in Hkv; [| done].
  by injection Hkv as <- <-.
Qed.

Lemma first_combinator_In t subs :
  first_combinator t = Some subs -> exists k, In (k, JArr subs) t.
Proof.
  unfold first_combinator.
  destruct (Js.get "anyOf" t) as [[]|] eqn:H1;
    destruct (Js.get "oneOf" t) as [[]|] eqn:H2;
    destruct (Js.get "allOf" t) as [[]|] eqn:H3;
    intros [= <-]; eauto using get_Some_In.
Qed.

Lemma first_combinator_post t :
  first_combinator (infer_type (enum_guard t)) = first_combinator t.
Proof.
  apply first_combinator_ext; by rewrite get_infer_type, get_enum_guard.
Qed.

Lemma preferred_In bs b : preferred bs = Some b -> In b bs.
Proof.
  unfold preferred. destruct (List.find is_object_typed bs) eqn:Hf.
  - intros [= <-]. by apply find_some in Hf as [? _].
  - destruct bs; [done | intros [= <-]; by left].
Qed.

Lemma preferred_is_Some bs : bs <> [] -> exists b, preferred bs = Some b.
Proof.
  unfold preferred. destruct (List.find is_object_typed bs); [eauto |].
  destruct bs; [done | eauto].
Qed.

Lemma normal_ensure_type b : normal b -> normal (ensure_type b).
Proof.
  intros Hb. destruct b as [| | | | |fs]; try done. simpl.
  destruct (Js.otruthy (Js.get "type" fs)) eqn:Htype; [done |]. simpl.
  inversion Hb as [| | | | |? Hv Hk He Ht Hc]; subst.
  assert (Hset : forall v, normal (JObj (Js.set "type" (JStr v) fs))).
  { intros v. apply normal_obj.
    - apply Forall_js_set; [done | constructor].
    - by apply Forall_js_set.
    - unfold enum_ok, Js.has. rewrite get_set_ne by done. intros Henum.
      specialize (He Henum). unfold Js.is_str in He.
      destruct (Js.get "type" fs) as [[]|]; try done.
      simpl in Htype. apply String.eqb_eq in He. subst. done.
    - left. unfold Js.has. by rewrite get_set_eq.
    - rewrite <- Hc. apply first_combinator_ext; by rewrite get_set_ne. }
  destruct (looksObject fs); [apply Hset |].
  destruct (looksArray fs); [apply Hset | done].
Qed.

(** On a schema in normal form the function never throws. *)
Lemma transform_normal_total (fuel : nat) :
  forall d v s y, normal y -> exists z, transform_at fuel d v s y = Some z.
Proof.
  induction fuel as [|fuel IH]; intros d v s y Hy; simpl; [eauto |].
  unfold transform_body.
  inversion Hy as [| | | |items Hitems|fs Hv Hk He Ht Hc]; subst; eauto.
  - destruct (visited_has v s); [eauto |].
    destruct (map_all_is_Some
                (fun '(k, item) =>
                   transform_at fuel d (visited_add v s) (child s k) item)
                (indexed 0 items)) as [ys Hys].
    { eapply Forall_impl; [exact (Forall_indexed normal 0 items Hitems) |].
      intros [k item] Hn. by apply IH. }
    rewrite Hys. simpl. eauto.
  - destruct (visited_has v s); [eauto |].
    rewrite (not_skipped_get "$ref") by done.
    rewrite filter_not_skipped by done.
    destruct (map_all_is_Some
                (fun '(key, x) =>
                   option_map (pair key)
                     (transform_at fuel (currentLevelDefs d s fs)
                        (visited_add v s) (child s key) x)) fs) as [t Ht'].
    { eapply Forall_impl; [exact Hv |].
      intros [k x] Hn. simpl in Hn.
      destruct (IH (currentLevelDefs d s fs) (visited_add v s) (child s k) x Hn)
        as [z Hz].
      rewrite Hz. simpl. eauto. }
    rewrite Ht'.
    repeat match goal with
      | |- context [match ?x with _ => _ end] => destruct x
      end; eauto.
Qed.

(** Whatever the schema, the result is in normal form. *)
Lemma transform_normal (fuel : nat) :
  forall d v s x y, transform_at fuel d v s x = Some y -> normal y.
Proof.
  induction fuel as [|fuel IH]; intros d v s x y; simpl.
  { intros [= <-]. apply normal_empty. }
  unfold transform_body. destruct x as [| | | |items|fs];
    try (intros [= <-]; constructor).
  - destruct (visited_has v s); [intros [= <-]; apply normal_empty |].
    destruct (map_all _ (indexed 0 items)) as [ys|] eqn:Hys; [| done].
    intros [= <-]. constructor.
    eapply Forall2_right; [exact (map_all_Some _ _ _ Hys) |].
    intros [k item] z _ Hz. eauto.
  - destruct (visited_has v s); [intros [= <-]; apply normal_empty |].
    set (d' := currentLevelDefs d s fs). set (v' := visited_add v s).
    destruct (match Js.get "$ref" fs with
              | Some r => if Js.truthy r then Some r else None
              | None => None
              end) as [r|].
    { destruct r; try done.
      destruct (ref_name s0); [| intros [= <-]; apply normal_empty].
      destruct (defs_get s1 d') as [[target tid]|];
        [| intros [= <-]; apply normal_empty].
      destruct (Js.truthy target); [apply IH | intros [= <-]; apply normal_empty]. }
    destruct (map_all _ (List.filter _ fs)) as [t|] eqn:Ht; [| done].
    apply map_all_fields in Ht.
    assert (Hv : Forall (fun kv => normal (snd kv)) t).
    { eapply Forall2_right; [exact Ht |].
      intros [k x] [k' z] _ [_ Hz]. simpl in *. eauto. }
    assert (Hk : Forall (fun kv => skipped_key (fst kv) = false) t).
    { eapply Forall2_right; [exact Ht |].
      intros [k x] [k' z] Hin [Hkk _]. simpl in *. subst.
      apply filter_In in Hin as [_ Hin]. by apply negb_true_iff in Hin. }
    destruct (first_combinator (infer_type (enum_guard t))) as [subs|] eqn:Hc;
      [| intros [= <-]; by apply normal_post].
    assert (Hsubs : Forall normal subs).
    { rewrite first_combinator_post in Hc.
      apply first_combinator_In in Hc as [k Hin].
      rewrite List.Forall_forall in Hv. specialize (Hv _ Hin). simpl in Hv.
      by inversion Hv. }
    set (subs' := map _ (List.filter _ subs)).
    assert (Hsubs' : Forall normal subs').
    { unfold subs'. apply List.Forall_forall. intros b Hb.
      apply in_map_iff in Hb as [b0 [<- Hb0]].
      apply filter_In in Hb0 as [Hb0 _].
      destruct (isEmptySchema b0); [apply normal_type_object |].
      rewrite List.Forall_forall in Hsubs. auto. }
    destruct (map_all (transform_at fuel d' v' None) subs') as [branches|] eqn:Hb.
    2:{ destruct (map_all_is_Some (transform_at fuel d' v' None) subs')
          as [ys Hys]; [| congruence].
        eapply Forall_impl; [exact Hsubs' |]. intros b Hn.
        by apply transform_normal_total. }
    set (branches' := match branches with [] => [type_object] | _ => branches end).
    assert (Hbr : Forall normal branches').
    { unfold branches'. destruct branches as [|b0 bs];
        [constructor; [apply normal_type_object | constructor] |].
      eapply Forall2_right; [exact (map_all_Some _ _ _ Hb) |].
      intros x z _ Hz. simpl in Hz. eauto. }
    destruct (preferred branches') as [b|] eqn:Hp.
    + intros [= <-]. apply normal_ensure_type.
      rewrite List.Forall_forall in Hbr. by apply Hbr, preferred_In.
    + destruct (preferred_is_Some branches') as [b Hb']; [| congruence].
      unfold branches'. by destruct branches.
Qed.

(** *** A schema in normal form is a fixed point *)

Lemma enum_guard_id fs : enum_ok fs -> enum_guard fs = fs.
Proof.
  unfold enum_ok, enum_guard. intros Hok.
  destruct (Js.has "enum" fs); [| done]. by rewrite Hok.
Qed.

Lemma infer_type_id fs : type_ok fs -> infer_type fs = fs.
Proof.
  unfold type_ok, infer_type. intros [Hhas|[Hobj Harr]].
  - by rewrite Hhas.
  - rewrite Hobj, Harr. by destruct (Js.has "type" fs).
Qed.

Lemma height_items (items : list JSON) :
  Forall (fun y => height y < height (JArr items)) items.
Proof.
  simpl. induction items as [|y items IH]; constructor; simpl.
  - lia.
  - eapply Forall_impl; [exact IH |]. intros z Hz. simpl in Hz. lia.
Qed.

Lemma height_fields (fs : list (string * JSON)) :
  Forall (fun kv => height (snd kv) < height (JObj fs)) fs.
Proof.
  simpl. induction fs as [|[k y] fs IH]; constructor; simpl.
  - lia.
  - eapply Forall_impl; [exact IH |]. intros z Hz. simpl in Hz. lia.
Qed.

Lemma enclosing_not_visited visited self :
  enclosing visited self -> visited_has visited self = false.
Proof.
  intros Henc. destruct self as [p|]; [| done]. simpl.
  specialize (Henc p eq_refl).
  induction Henc as [|q visited Hq _ IH]; simpl; [done |].
  rewrite IH, orb_false_r. unfold path_eqb. apply bool_decide_eq_false.
  intros ->. lia.
Qed.

Lemma enclosing_child visited self k :
  enclosing visited self -> enclosing (visited_add visited self) (child self k).
Proof.
  intros Henc p Hp. destruct self as [p0|]; [| done].
  simpl in Hp. injection Hp as <-. simpl.
  rewrite length_app. simpl. constructor; [lia |].
  eapply Forall_impl; [exact (Henc p0 eq_refl) |]. intros q Hq. simpl in Hq. lia.
Qed.

Lemma map_all_items_id (f : string -> JSON -> option JSON) (i : nat)
    (items : list JSON) :
  Forall (fun item => forall k, f k item = Some item) items ->
  map_all (fun '(k, item) => f k item) (indexed i items) = Some items.
Proof.
  intros Hitems. revert i.
  induction Hitems as [|item items Hitem _ IH]; intros i; simpl; [done |].
  by rewrite Hitem, IH.
Qed.

Lemma map_all_fields_id (f : string -> JSON -> option JSON)
    (fs : list (string * JSON)) :
  Forall (fun kv => forall k, f k (snd kv) = Some (snd kv)) fs ->
  map_all (fun '(key, v) => option_map (pair key) (f key v)) fs = Some fs.
Proof.
  induction 1 as [|[k v] fs Hkv _ IH]; simpl; [done |].
  simpl in Hkv. by rewrite Hkv, IH.
Qed.

Lemma transform_fixed (fuel : nat) :
  forall d v s y,
    normal y -> height y < fuel -> enclosing v s ->
    transform_at fuel d v s y = Some y.
Proof.
  induction fuel as [|fuel IH]; intros d v s y Hy Hh Henc; [lia |].
  simpl. unfold transform_body.
  inversion Hy as [| | | |items Hitems|fs Hv Hk He Ht Hc]; subst; try done.
  - rewrite enclosing_not_visited by done.
    rewrite (map_all_items_id
               (fun k item => transform_at fuel d (visited_add v s) (child s k) item));
      [done |].
    pose proof (height_items items) as Hhi.
    rewrite List.Forall_forall in Hitems, Hhi |- *.
    intros item Hin k. apply IH; [auto | | by apply enclosing_child].
    specialize (Hhi item Hin). lia.
  - rewrite enclosing_not_visited by done.
    rewrite (not_skipped_get "$ref") by done.
    rewrite filter_not_skipped by done.
    rewrite (map_all_fields_id
               (fun key x =>
                  transform_at fuel (currentLevelDefs d s fs) (visited_add v s)
                    (child s key) x)).
    + rewrite enum_guard_id by done. rewrite infer_type_id by done.
      by rewrite Hc.
    + pose proof (height_fields fs) as Hhf.
      rewrite List.Forall_forall in Hv, Hhf |- *.
      intros kv Hin k. apply IH; [auto | | by apply enclosing_child].
      specialize (Hhf kv Hin). lia.
Qed.

Lemma normal_enum_guarded y : normal y -> enum_guarded y.
Proof.
  induction y as [| | | |items IH|fs IH] using JSON_nested_ind;
    intros Hy; inversion Hy as [| | | |? Hitems|? Hv Hk He Ht Hc]; subst;
    constructor; try done.
  - rewrite List.Forall_forall in IH, Hitems |- *. auto.
  - rewrite List.Forall_forall in IH, Hv |- *. auto.
Qed.

Lemma enum_guarded_root_type y : enum_guarded y -> enum_guarded (root_type y).
Proof.
  intros Hy. destruct y as [| | | | |fs]; try done. simpl.
  destruct (negb (Js.otruthy (Js.get "type" fs)) && looksObject fs) eqn:Hc;
    [| done].
  apply andb_true_iff in Hc as [Htype _]. apply negb_true_iff in Htype.
  inversion Hy as [| | | | |? Hv He]; subst.
  constructor.
  - apply Forall_js_set; [done | constructor].
  - unfold enum_ok, Js.has. rewrite get_set_ne by done. intros Henum.
    specialize (He Henum). unfold Js.is_str in He.
    destruct (Js.get "type" fs) as [[]|]; try done.
    simpl in Htype. apply String.eqb_eq in He. subst. done.
Qed.

(** C8, amended: after the route-level pass ([transformJsonSchemaFields],
    and the default of the root [type] the route applies after it) every
    object of the result that has an [enum] key has [type] equal to the
    string ["string"], at every depth.  (The [const] to [enum] conversion
    belongs to the later pass of the translator, which has no such guard.) *)
Theorem enum_guard_after_route (parameters y : JSON) :
  (transformJsonSchemaFields parameters = Some y -> enum_guarded y)
  /\ (route_parameters parameters = Some y -> enum_guarded y).
Proof.
  split.
  - intros Hy. apply normal_enum_guarded. by eapply transform_normal.
  - unfold route_parameters. destruct (Js.truthy parameters) eqn:Htr.
    + destruct (transformJsonSchemaFields parameters) as [z|] eqn:Hz; [| done].
      intros [= <-]. apply enum_guarded_root_type, normal_enum_guarded.
      by eapply transform_normal.
    + intros [= <-]. destruct parameters; try done; constructor.
Qed.

(** C3, amended: the route-level pass is idempotent on every schema whose
    sanitized form nests at most [MAX_RECURSION_DEPTH] levels: sanitizing
    the result again returns it unchanged. *)
Theorem route_sanitizer_idempotent (schema y : JSON) :
  transformJsonSchemaFields schema = Some y ->
  height y <= MAX_RECURSION_DEPTH ->
  transformJsonSchemaFields y = Some y.
Proof.
  intros Hy Hh. unfold transformJsonSchemaFields.
  apply transform_fixed.
  - by eapply transform_normal.
  - lia.
  - intros p [= <-]. constructor.
Qed.

End SchemaFacts.

(** *** [sanitize] ends: its result does not depend on the fuel *)

Section SanitizeFuel.
Import Schema.
Context `{Builtins}.

Lemma low_sub h ks ks' s :
  (forall k, In k ks' -> In k ks) -> low h ks s -> low h ks' s.
Proof. intros Hsub Hlow k v Hin. apply Hlow. by apply Hsub. Qed.

Lemma low_del h ks k' s : low h ks s -> low h ks (Js.del k' s).
Proof.
  intros Hlow k v Hin. destruct (decide (k = k')) as [-> | Hne].
  - by rewrite get_del_eq.
  - rewrite get_del_ne by done. by apply Hlow.
Qed.

Lemma low_set_in h ks k' v' s :
  height v' < h -> low h ks s -> low h ks (Js.set k' v' s).
Proof.
  intros Hv Hlow k v Hin. destruct (decide (k = k')) as [-> | Hne].
  - rewrite get_set_eq. by intros [= <-].
  - rewrite get_set_ne by done. by apply Hlow.
Qed.

Lemma low_set_out h ks k' v' s :
  ~ In k' ks -> low h ks s -> low h ks (Js.set k' v' s).
Proof.
  intros Hout Hlow k v Hin. destruct (decide (k = k')) as [-> | Hne]; [done |].
  rewrite get_set_ne by done. by apply Hlow.
Qed.

Lemma low_del_all h ks keys s : low h ks s -> low h ks (del_all keys s).
Proof.
  revert s. induction keys as [|k keys IH]; intros s Hlow; [done |].
  apply IH. by apply low_del.
Qed.

Lemma low_rename h ks old new s :
  In old ks -> low h ks s -> low h ks (rename old new s).
Proof.
  intros Hin Hlow. unfold rename. destruct (Js.get old s) as [v|] eqn:Hv;
    [| done].
  apply low_del, low_set_in; [| done]. by apply (Hlow old).
Qed.

Lemma low_fields (fs : list (string * JSON)) ks :
  low (height (JObj fs)) ks fs.
Proof.
  intros k v _ Hget. apply get_Some_In in Hget.
  pose proof (height_fields fs) as Hall.
  rewrite List.Forall_forall in Hall. apply (Hall (k, v) Hget).
Qed.

Lemma map_ext_low (rec1 rec2 : JSON -> JSON) h (v : JSON) (items : list JSON) :
  (forall y, height y < h -> rec1 y = rec2 y) ->
  height (JArr items) <= h ->
  map rec1 items = map rec2 items.
Proof.
  intros Hrec Hh. apply map_ext_in. intros y Hy. apply Hrec.
  pose proof (height_items items) as Hall.
  rewrite List.Forall_forall in Hall. specialize (Hall y Hy). lia.
Qed.

Lemma sanitize_combinator_ext (rec1 rec2 : JSON -> JSON) h ks key s :
  (forall y, height y < h -> rec1 y = rec2 y) ->
  low h ks s -> In key ks ->
  sanitize_combinator rec1 key s = sanitize_combinator rec2 key s.
Proof.
  intros Hrec Hlow Hin. unfold sanitize_combinator.
  destruct (Js.get key s) as [v|] eqn:Hv; [| done].
  destruct (Js.truthy v); [| done].
  specialize (Hlow key v Hin Hv).
  assert (Hmap : map rec1 match v with JArr items => items | _ => [v] end
                 = map rec2 match v with JArr items => items | _ => [v] end).
  { destruct v; simpl; try (by rewrite Hrec).
    apply (map_ext_low rec1 rec2 h JNull); [done | lia]. }
  by rewrite Hmap.
Qed.

Lemma sanitize_combinator_low (rec : JSON -> JSON) h ks key s :
  ~ In key ks -> ~ In "type" ks -> low h ks s ->
  low h ks (sanitize_combinator rec key s).
Proof.
  intros Hkey Htype Hlow. unfold sanitize_combinator.
  destruct (Js.get key s) as [v|]; [| done].
  destruct (Js.truthy v); [| done].
  repeat match goal with
    | |- low _ _ (if ?c then _ else _) => destruct c
    | |- low _ _ (Js.set _ _ _) => apply low_set_out; [done |]
    end; done.
Qed.

Lemma type_handling_low h ks s :
  ~ In "type" ks -> ~ In "anyOf" ks -> low h ks s ->
  low h ks (type_handling s).
Proof.
  intros Htype Hany Hlow. unfold type_handling.
  repeat match goal with
    | |- low _ _ (match ?c with _ => _ end) => destruct c
    | |- low _ _ (Js.set _ _ _) => apply low_set_out; [done |]
    | |- low _ _ (Js.del _ _) => apply low_del
    end; done.
Qed.

Lemma infer_missing_type_low h ks s :
  ~ In "type" ks -> low h ks s -> low h ks (infer_missing_type s).
Proof.
  intros Htype Hlow. unfold infer_missing_type.
  repeat match goal with
    | |- low _ _ (if ?c then _ else _) => destruct c
    | |- low _ _ (Js.set _ _ _) => apply low_set_out; [done |]
    end; done.
Qed.

Lemma object_specifics_ext (rec1 rec2 : JSON -> JSON) h ks s :
  (forall y, height y < h -> rec1 y = rec2 y) ->
  low h ks s -> In "properties" ks -> In "additionalProperties" ks ->
  object_specifics rec1 s = object_specifics rec2 s.
Proof.
  intros Hrec Hlow Hp Hap. unfold object_specifics.
  destruct (Js.is_str "object" (Js.get "type" s) || looksObject s
            || Js.has "additionalProperties" s); [| done].
  assert (Hprops :
            match Js.get "properties" s with
            | Some (JObj props) =>
                Js.set "properties"
                  (JObj (map (fun '(prop, sub) => (prop, rec1 sub)) props)) s
            | Some (JArr props) => Js.set "properties" (JArr (map rec1 props)) s
            | _ => s
            end
            = match Js.get "properties" s with
              | Some (JObj props) =>
                  Js.set "properties"
                    (JObj (map (fun '(prop, sub) => (prop, rec2 sub)) props)) s
              | Some (JArr props) =>
                  Js.set "properties" (JArr (map rec2 props)) s
              | _ => s
              end).
  { destruct (Js.get "properties" s) as [v|] eqn:Hv; [| done].
    specialize (Hlow "properties" v Hp Hv).
    destruct v as [| | | |props|props]; try done.
    - f_equal. f_equal. apply (map_ext_low rec1 rec2 h JNull); [done | lia].
    - f_equal. f_equal. apply map_ext_in. intros [prop sub] Hin.
      f_equal. apply Hrec.
      pose proof (height_fields props) as Hall.
      rewrite List.Forall_forall in Hall. specialize (Hall _ Hin).
      cbn [snd] in Hall. lia. }
  rewrite Hprops. clear Hprops.
  match goal with
  | |- match Js.get "additionalProperties"
               (match Js.get "required" ?t with _ => _ end) with _ => _ end
       = _ => set (t1 := t)
  end.
  assert (G1 : Js.get "additionalProperties" t1
               = Js.get "additionalProperties" s).
  { subst t1. destruct (Js.get "properties" s) as [[| | | |?|?]|];
      rewrite ?get_set_ne by done; done. }
  match goal with
  | |- match Js.get "additionalProperties" ?t with _ => _ end = _ =>
      set (t2 := t)
  end.
  assert (G2 : Js.get "additionalProperties" t2
               = Js.get "additionalProperties" s).
  { subst t2. destruct (Js.get "required" t1) as [[| | | |?|?]|];
      rewrite ?get_set_ne by done; done. }
  rewrite G2.
  destruct (Js.get "additionalProperties" s) as [ap|] eqn:Hget; [| done].
  specialize (Hlow _ _ Hap Hget). destruct ap; try done; by rewrite Hrec.
Qed.

Lemma object_specifics_low (rec : JSON -> JSON) h ks s :
  ~ In "properties" ks -> ~ In "required" ks ->
  ~ In "additionalProperties" ks -> low h ks s ->
  low h ks (object_specifics rec s).
Proof.
  intros Hp Hr Hap Hlow. unfold object_specifics.
  repeat match goal with
    | |- low _ _ (if ?c then _ else _) => destruct c
    | |- low _ _ (match ?c with _ => _ end) => destruct c
    | |- low _ _ (Js.set _ _ _) => apply low_set_out; [done |]
    end; done.
Qed.

Lemma array_specifics_ext (rec1 rec2 : JSON -> JSON) h ks s :
  (forall y, height y < h -> rec1 y = rec2 y) ->
  low h ks s -> In "items" ks ->
  array_specifics rec1 s = array_specifics rec2 s.
Proof.
  intros Hrec Hlow Hin. unfold array_specifics.
  destruct (Js.is_str "array" (Js.get "type" s)
            || Js.otruthy (Js.get "items" s)); [| done].
  destruct (Js.get "items" s) as [items|] eqn:Hitems; [| done].
  destruct (Js.truthy items); [| done].
  by rewrite (Hrec items (Hlow "items" items Hin Hitems)).
Qed.

(** One call of [sanitize] calls itself on values nested in its
    argument only. *)
Lemma sanitize_body_ext o (rec1 rec2 : JSON -> JSON) (node : JSON) :
  (forall y, height y < height node -> rec1 y = rec2 y) ->
  sanitize_body o rec1 node = sanitize_body o rec2 node.
Proof.
  intros Hrec. destruct node as [| | | |items|s]; try done.
  - simpl. f_equal.
    apply (map_ext_low rec1 rec2 (height (JArr items)) JNull); [done | lia].
  - cbn [sanitize_body]. cbv zeta.
    set (h := height (JObj s)) in *.
    set (base := rename "all_of" "allOf" _).
    assert (H0 : low h schema_keys base).
    { subst base.
      apply low_rename; [simpl; tauto |].
      apply low_rename; [simpl; tauto |].
      apply low_rename; [simpl; tauto |].
      unfold const_to_enum.
      match goal with
      | |- low _ _ (match Js.get "const" ?t with _ => _ end) =>
          assert (Ht : low h schema_keys t)
      end.
      { destruct (keepDescription o), (dropTitle o);
          repeat apply low_del;
          first [apply low_del_all, low_fields | apply low_fields]. }
      match goal with
      | |- low _ _ (match ?c with _ => _ end) => destruct c
      end; [| done].
      apply low_set_out; [simpl; intuition discriminate |]. by apply low_del. }
    rewrite (sanitize_combinator_ext rec1 rec2 h schema_keys "anyOf" base)
      by (done || (simpl; tauto)).
    set (s1 := sanitize_combinator rec2 "anyOf" base).
    assert (H1 : low h ["oneOf"; "allOf"; "properties";
                        "additionalProperties"; "items"] s1).
    { apply sanitize_combinator_low;
        [simpl; intuition discriminate .. |].
      eapply low_sub; [| exact H0]. simpl. tauto. }
    rewrite (sanitize_combinator_ext rec1 rec2 h _ "oneOf" s1 Hrec H1)
      by (simpl; tauto).
    set (s2 := sanitize_combinator rec2 "oneOf" s1).
    assert (H2 : low h ["allOf"; "properties"; "additionalProperties";
                        "items"] s2).
    { apply sanitize_combinator_low;
        [simpl; intuition discriminate .. |].
      eapply low_sub; [| exact H1]. simpl. tauto. }
    rewrite (sanitize_combinator_ext rec1 rec2 h _ "allOf" s2 Hrec H2)
      by (simpl; tauto).
    set (s3 := infer_missing_type
                 (type_handling (sanitize_combinator rec2 "allOf" s2))).
    assert (H3 : low h ["properties"; "additionalProperties"; "items"] s3).
    { apply infer_missing_type_low; [simpl; intuition discriminate |].
      apply type_handling_low; [simpl; intuition discriminate .. |].
      apply sanitize_combinator_low;
        [simpl; intuition discriminate .. |].
      eapply low_sub; [| exact H2]. simpl. tauto. }
    rewrite (object_specifics_ext rec1 rec2 h _ s3 Hrec H3)
      by (simpl; tauto).
    set (s4 := object_specifics rec2 s3).
    assert (H4 : low h ["items"] s4).
    { apply object_specifics_low; [simpl; intuition discriminate .. |].
      eapply low_sub; [| exact H3]. simpl. tauto. }
    by rewrite (array_specifics_ext rec1 rec2 h _ s4 Hrec H4)
      by (simpl; tauto).
Qed.

(** Any fuel above the nesting of the schema gives the same result: the
    recursion of [sanitize] has ended by then. *)
Lemma sanitize_at_fuel o (n : nat) :
  forall m node,
    height node < n -> height node < m ->
    sanitize_at o n node = sanitize_at o m node.
Proof.
  induction n as [|n IH]; intros m node Hn Hm; [lia |].
  destruct m as [|m]; [lia |]. cbn [sanitize_at].
  apply sanitize_body_ext. intros y Hy. apply IH; lia.
Qed.

Lemma sanitizeToolParameters_fuel (n : nat) (schema : JSON) :
  height schema < n ->
  sanitize_at default_options n schema = sanitizeToolParameters schema.
Proof.
  intros Hn. unfold sanitizeToolParameters. apply sanitize_at_fuel; lia.
Qed.

End SanitizeFuel.

Section SanitizerFacts.
Import Schema.


End SanitizerFacts.


(** C8, as stated, fails: the [const] to [enum] conversion of the
    translator runs after the guard of the route.  [{properties: {x:
    {const: 3}}}] sanitizes to [{properties: {x: {enum: [3]}}, type:
    "object"}], where [x] has an [enum] and no [type]. *)
Lemma enum_without_string_type :
  ~ (forall (B : Builtins) (parameters out : JSON),
        Schema.sanitize_parameters parameters = Some (Some out) ->
        enum_guarded out).
Proof.
  intros Hall.
  assert (Hout : Schema.sanitize_parameters (H := Sample.builtins) const_property
                 = Some (Some (JObj [("properties",
                                      JObj [("x", JObj [("enum", JArr [JNum 3])])]);
                                     ("type", JStr "object")])))
    by (vm_compute; reflexivity).
  apply Hall in Hout. clear Hall. rename Hout into Hall.
  inversion Hall as [| | | | |? Hv _]; subst.
  inversion Hv as [|? ? Hprops _]; subst. simpl in Hprops.
  inversion Hprops as [| | | | |? Hv' _]; subst.
  inversion Hv' as [|? ? Hx _]; subst. simpl in Hx.
  inversion Hx as [| | | | |? _ Hok]; subst.
  specialize (Hok eq_refl). discriminate.
Qed.

Lemma enum_guard_after_route_witness :
  enum_guarded
    (JObj [("properties", JObj [("x", JObj [("const", JNum 3)])]);
           ("type", JStr "object")]).
Proof.
  apply (proj1 (enum_guard_after_route
                  (s6_parameters "http://json-schema.org/draft-07/schema#") _)).
  vm_compute. reflexivity.
Defined.

(** C3, as stated, fails: the translator-level pass is not idempotent.
    [{type: ["object", "array"]}] becomes [{anyOf: [{type: "object"},
    {type: "array"}]}], and a second pass infers [type: "object"] from the
    branches and adds it. *)
Lemma translator_sanitizer_not_idempotent :
  ~ (forall (B : Builtins) (schema : JSON),
        Schema.sanitizeToolParameters (Schema.sanitizeToolParameters schema)
        = Schema.sanitizeToolParameters schema).
Proof.
  intros Hall. specialize (Hall Sample.builtins two_types).
  vm_compute in Hall. discriminate.
Qed.

(** Nor is the composition of the two passes: on the same schema the
    second round collapses the [anyOf] of the first to [{type: "object"}]. *)
Lemma pipeline_not_idempotent :
  Schema.sanitize_parameters (H := Sample.builtins) two_types
  = Some (Some (JObj [("anyOf", JArr [JObj [("type", JStr "object")];
                                       JObj [("type", JStr "array")]])]))
  /\ Schema.sanitize_parameters (H := Sample.builtins)
       (JObj [("anyOf", JArr [JObj [("type", JStr "object")];
                              JObj [("type", JStr "array")]])])
     = Some (Some (JObj [("type", JStr "object")])).
Proof. split; vm_compute; reflexivity. Qed.

(** Nor is the route-level pass beyond the depth bound: the [type] it
    infers for an object at depth 20 is cut by the next pass. *)
Lemma route_sanitizer_not_idempotent_deep :
  exists y z,
    Schema.transformJsonSchemaFields (nested 20) = Some y
    /\ Schema.transformJsonSchemaFields y = Some z
    /\ y <> z.
Proof.
  do 2 eexists. split; [vm_compute; reflexivity |].
  split; [vm_compute; reflexivity |].
  discriminate.
Qed.

Lemma route_sanitizer_idempotent_witness :
  Schema.transformJsonSchemaFields
    (JObj [("properties", JObj [("x", JObj [("const", JNum 3)])]);
           ("type", JStr "object")])
  = Some (JObj [("properties", JObj [("x", JObj [("const", JNum 3)])]);
                ("type", JStr "object")]).
Proof.
  apply (route_sanitizer_idempotent
           (s6_parameters "http://json-schema.org/draft-07/schema#")).
  - vm_compute. reflexivity.
  - apply Nat.leb_le. vm_compute. reflexivity.
Defined.

(** ** Stream chunker *)

Section AutomatonFacts.

#[local] Arguments String.append !_ _ / : simpl nomatch.

Lemma feed_all_app a s1 s2 :
  feed_all a (s1 +:+ s2)
  = let '(a1, out1) := feed_all a s1 in
    let '(a2, out2) := feed_all a1 s2 in
    (a2, out1 ++ out2).
Proof.
  revert a. induction s1 as [|c s1 IH]; intros a; simpl.
  - by destruct (feed_all a s2).
  - destruct (feed a c) as [a' out]. rewrite IH.
    destruct (feed_all a' s1) as [a1 out1].
    destruct (feed_all a1 s2) as [a2 out2]. by rewrite app_assoc.
Qed.

Lemma feed_all_garbage s : feed_all Garbage s = (Garbage, []).
Proof. induction s as [|c s IH]; simpl; [done | by rewrite IH]. Qed.

Lemma append_snoc cur c s : snoc cur c +:+ s = cur +:+ String c s.
Proof.
  unfold snoc. induction cur as [|x cur IH]; simpl; [done | by rewrite IH].
Qed.

Lemma append_assoc (a b c : string) : (a +:+ b) +:+ c = a +:+ (b +:+ c).
Proof. induction a as [|x a IH]; simpl; [done | by rewrite IH]. Qed.

Lemma append_empty_r (a : string) : a +:+ "" = a.
Proof. induction a as [|x a IH]; simpl; [done | by rewrite IH]. Qed.

(** A string body and its closing quote take the automaton out of the
    string. *)
Lemma feed_string_body b :
  string_body b ->
  forall d cur,
    feed_all (Busy d true false cur) (b +:+ Chunker.dquote)
    = (Busy d false false (cur +:+ b +:+ Chunker.dquote), []).
Proof.
  induction 1 as [|c s Hq Hb _ IH|c s _ IH]; intros d cur.
  - done.
  - cbn [feed_all feed String.append]. rewrite Hb, Hq, IH.
    by rewrite append_snoc.
  - cbn [feed_all feed String.append Chunker.backslash].
    change (Chunker.is_char "092" Chunker.backslash) with true.
    cbn [feed]. rewrite IH. unfold snoc. by rewrite ?append_assoc.
Qed.

(** A balanced text leaves the automaton where it was, inside the object. *)
Lemma feed_balanced o :
  balanced o ->
  forall d cur,
    feed_all (Busy (S d) false false cur) o
    = (Busy (S d) false false (cur +:+ o), []).
Proof.
  induction 1 as [|c s Hc _ IH|b s Hb _ IH|o s _ IHo _ IHs]; intros d cur.
  - simpl. by rewrite append_empty_r.
  - cbn [feed_all feed]. unfold plain in Hc.
    apply andb_true_iff in Hc as [Hc H3]. apply andb_true_iff in Hc as [H1 H2].
    apply negb_true_iff in H1, H2, H3. rewrite H1, H2, H3, IH.
    by rewrite append_snoc.
  - change (Chunker.dquote +:+ b +:+ Chunker.dquote +:+ s)
      with (String "034" (b +:+ Chunker.dquote +:+ s)).
    cbn [feed_all feed]. change (Chunker.is_char "034" "{") with false.
    change (Chunker.is_char "034" "}") with false.
    change (Chunker.is_char "034" Chunker.dquote) with true. cbn iota.
    rewrite <- append_assoc, feed_all_app, feed_string_body by done.
    rewrite IH. simpl. unfold snoc. by rewrite ?append_assoc.
  - change ("{" +:+ o +:+ "}" +:+ s) with (String "{" (o +:+ String "}" s)).
    cbn [feed_all feed]. change (Chunker.is_char "{" "{") with true. cbn iota.
    rewrite feed_all_app, IHo. cbn [feed_all feed].
    change (Chunker.is_char "}" "{") with false.
    change (Chunker.is_char "}" "}") with true. cbn iota. cbn [pred].
    rewrite IHs. simpl. unfold snoc. by rewrite ?append_assoc.
Qed.

Lemma feed_object obj :
  object_text obj -> feed_all Idle obj = (Idle, [obj]).
Proof.
  intros [o [Ho ->]].
  change ("{" +:+ o +:+ "}") with (String "{" (o +:+ "}")).
  cbn [feed_all feed]. change (Chunker.is_char "{" "{") with true. cbn iota.
  rewrite feed_all_app, feed_balanced by done. simpl.
  unfold snoc. by rewrite ?append_assoc.
Qed.

Lemma feed_separator sep :
  separator sep = true -> feed_all Idle sep = (Idle, []).
Proof.
  induction sep as [|c s IH]; cbn [separator feed_all feed]; [done |].
  intros Hsep. apply andb_true_iff in Hsep as [Hc Hs].
  unfold plain in Hc.
  apply andb_true_iff in Hc as [Hc H3]. apply andb_true_iff in Hc as [H1 H2].
  apply negb_true_iff in H1, H2, H3. rewrite H1, H2, H3. cbn [orb].
  by rewrite IH.
Qed.

(** The automaton reads the objects of a well-formed stream, in order. *)
Lemma feed_stream sep0 items :
  well_formed_stream sep0 items ->
  feed_all Idle (stream_text sep0 items) = (Idle, map fst items).
Proof.
  intros [Hsep Hitems]. revert sep0 Hsep.
  induction Hitems as [|[obj sep] items [Hobj Hs] _ IH]; intros sep0 Hsep; simpl.
  - by apply feed_separator.
  - rewrite feed_all_app, feed_separator by done.
    rewrite feed_all_app, feed_object by done.
    by rewrite IH.
Qed.

End AutomatonFacts.

(** *** The loops of the source follow the automaton *)

Section ScanFacts.

#[local] Arguments String.append !_ _ / : simpl nomatch.

Lemma length_append (a b : string) :
  String.length (a +:+ b) = String.length a + String.length b.
Proof. induction a as [|x a IH]; simpl; [done | by rewrite IH]. Qed.

Lemma length_snoc s c : String.length (snoc s c) = S (String.length s).
Proof. unfold snoc. rewrite length_append. simpl. lia. Qed.

Lemma substring_prefix (a b : string) :
  String.substring 0 (String.length a) (a +:+ b) = a.
Proof. induction a as [|x a IH]; simpl; [by destruct b | by rewrite IH]. Qed.

Lemma substring_middle (a b c : string) :
  String.substring (String.length a) (String.length b) (a +:+ b +:+ c) = b.
Proof.
  induction a as [|x a IH]; simpl; [apply substring_prefix | apply IH].
Qed.

Lemma substring_all (a : string) :
  String.substring 0 (String.length a) a = a.
Proof. induction a as [|x a IH]; simpl; [done | by rewrite IH]. Qed.

Lemma substring_from_app (a b : string) :
  substring_from (String.length a) (a +:+ b) = b.
Proof.
  unfold substring_from. rewrite length_append.
  replace (String.length a + String.length b - String.length a)
    with (String.length b) by lia.
  induction a as [|x a IH]; simpl; [apply substring_all | apply IH].
Qed.

Lemma feed_all_snoc a cur c :
  feed_all a (snoc cur c)
  = let '(a1, out1) := feed_all a cur in
    let '(a2, out2) := feed a1 c in
    (a2, out1 ++ out2).
Proof.
  unfold snoc. rewrite feed_all_app. destruct (feed_all a cur) as [a1 out1].
  cbn [feed_all]. destruct (feed a1 c) as [a2 out2]. by rewrite app_nil_r.
Qed.

Lemma plain_tests c :
  plain c = true ->
  Chunker.is_char c "{" = false /\ Chunker.is_char c "}" = false
  /\ Chunker.is_char c Chunker.dquote = false.
Proof.
  unfold plain. intros Hc.
  apply andb_true_iff in Hc as [Hc H3]. apply andb_true_iff in Hc as [H1 H2].
  by apply negb_true_iff in H1, H2, H3.
Qed.

(** One character inside a string. *)
Lemma scan_in_string before cur c st a a1 out1 :
  tracks before cur st a -> Chunker.inString st = true ->
  feed a c = (a1, out1) ->
  out1 = []
  /\ tracks before (snoc cur c) (Chunker.in_string_step c st) a1
  /\ Chunker.endPos (Chunker.in_string_step c st) = Chunker.endPos st.
Proof.
  intros (Hfeed & Hcur & Hm) Hin Hstep.
  destruct a as [|d s e cur'|]; simpl in Hm; [| |done].
  { destruct Hm as (_ & _ & Hs & _). congruence. }
  destruct Hm as (Hp & Hd & Hd1 & Hs & He & Hse).
  simpl in Hcur. subst cur'. rewrite Hin in Hs. subst s.
  unfold tracks. rewrite feed_all_snoc, Hfeed, Hstep. cbn [app].
  unfold Chunker.in_string_step. rewrite He.
  cbn [feed] in Hstep. destruct e.
  { injection Hstep as <- <-. simpl. repeat split; auto. }
  destruct (Chunker.is_char c Chunker.backslash).
  { injection Hstep as <- <-. simpl. repeat split; auto. }
  destruct (Chunker.is_char c Chunker.dquote).
  { injection Hstep as <- <-. simpl. repeat split; auto. }
  injection Hstep as <- <-. simpl. repeat split; auto.
Qed.

(** One character outside a string: it is read into the current object,
    or skipped between objects, or it closes the current object, which is
    cut out of the buffer. *)
Lemma scan_out_string before cur c rest' st a a1 out1 :
  tracks before cur st a -> Chunker.inString st = false ->
  feed a c = (a1, out1) -> a1 <> Garbage ->
  exists st',
    (Chunker.out_string_step true (before +:+ cur +:+ String c rest')
       (String.length before + String.length cur) c st = (st', None)
     /\ out1 = [] /\ Chunker.endPos st' = Chunker.endPos st
     /\ (tracks before (snoc cur c) st' a1
         \/ (a1 = Idle /\ cur = "" /\ plain c = true
             /\ forall p, matches p st' Idle)))
    \/ (Chunker.out_string_step true (before +:+ cur +:+ String c rest')
          (String.length before + String.length cur) c st
        = (st', Some (snoc cur c))
        /\ out1 = [snoc cur c] /\ a1 = Idle
        /\ Chunker.endPos st'
           = Z.of_nat (String.length before + String.length cur)
        /\ forall p, matches p st' Idle).
Proof.
  intros (Hfeed & Hcur & Hm) Hin Hstep Hgood.
  destruct a as [|d s e cur'|]; simpl in Hm; [| |done].
  - destruct Hm as (Hp & Hd & Hs & He). simpl in Hcur. subst cur.
    unfold Chunker.out_string_step. cbn [feed] in Hstep.
    destruct (Chunker.is_char c "{") eqn:H1.
    { injection Hstep as <- <-. rewrite Hd. cbn [Z.eqb].
      eexists. left. split; [reflexivity |]. simpl.
      repeat split; auto. left. unfold tracks.
      rewrite feed_all_snoc. cbn [feed_all feed]. rewrite H1. simpl.
      repeat split; auto; lia. }
    destruct (Chunker.is_char c "}") eqn:H2.
    { injection Hstep as <- <-. done. }
    destruct (Chunker.is_char c Chunker.dquote) eqn:H3.
    { injection Hstep as <- <-. done. }
    injection Hstep as <- <-. exists st. left.
    repeat split; auto. right. repeat split; auto.
    unfold plain. by rewrite H1, H2, H3.
  - destruct Hm as (Hp & Hd & Hd1 & Hs & He & Hse).
    simpl in Hcur. subst cur'. rewrite Hin in Hs. subst s.
    specialize (Hse eq_refl). subst e.
    unfold Chunker.out_string_step. cbn [feed] in Hstep.
    destruct (Chunker.is_char c "{") eqn:H1.
    { injection Hstep as <- <-.
      replace (Chunker.bracketDepth st =? 0)%Z with false
        by (symmetry; apply Z.eqb_neq; lia).
      eexists. left. split; [reflexivity |]. simpl.
      repeat split; auto. left. unfold tracks.
      rewrite feed_all_snoc, Hfeed. cbn [feed]. rewrite H1. simpl.
      repeat split; auto; lia. }
    destruct (Chunker.is_char c "}") eqn:H2.
    { destruct d as [|[|d]]; [lia | |].
      - injection Hstep as <- <-. cbn [Chunker.set_bracketDepth
          Chunker.bracketDepth Chunker.startPos Chunker.set_endPos
          Chunker.endPos].
        replace (Chunker.bracketDepth st - 1 =? 0)%Z with true
          by (symmetry; apply Z.eqb_eq; lia).
        replace (Chunker.startPos st =? -1)%Z with false
          by (symmetry; apply Z.eqb_neq; lia).
        cbn [andb negb]. eexists. right. split.
        { f_equal. f_equal. unfold Chunker.js_substring. rewrite Hp.
          rewrite Nat2Z.id.
          replace (Z.to_nat (Z.of_nat (String.length before
                                       + String.length cur) + 1
                             - Z.of_nat (String.length before)))
            with (String.length (snoc cur c))
            by (rewrite length_snoc; lia).
          rewrite <- append_snoc. apply substring_middle. }
        simpl. repeat split; auto. lia.
      - injection Hstep as <- <-. cbn [Chunker.set_bracketDepth
          Chunker.bracketDepth Chunker.startPos].
        replace (Chunker.bracketDepth st - 1 =? 0)%Z with false
          by (symmetry; apply Z.eqb_neq; lia).
        cbn [andb]. eexists. left. split; [reflexivity |]. simpl.
        repeat split; auto. left. unfold tracks.
        rewrite feed_all_snoc, Hfeed. cbn [feed]. rewrite H1, H2. simpl.
        repeat split; auto; lia. }
    destruct (Chunker.is_char c Chunker.dquote) eqn:H3.
    { injection Hstep as <- <-. eexists. left. split; [reflexivity |].
      simpl. repeat split; auto.
      left. unfold tracks. rewrite feed_all_snoc, Hfeed. cbn [feed].
      rewrite H1, H2, H3. simpl. repeat split; auto. }
    injection Hstep as <- <-. exists st. left. repeat split; auto.
    left. unfold tracks. rewrite feed_all_snoc, Hfeed. cbn [feed].
    rewrite H1, H2, H3. simpl. repeat split; auto.
Qed.

Lemma feed_all_cons a c rest a' out :
  feed_all a (String c rest) = (a', out) -> a' <> Garbage ->
  exists a1 out1 out',
    feed a c = (a1, out1) /\ feed_all a1 rest = (a', out')
    /\ out = out1 ++ out' /\ a1 <> Garbage.
Proof.
  cbn [feed_all]. destruct (feed a c) as [a1 out1] eqn:H1.
  destruct (feed_all a1 rest) as [a2 out2] eqn:H2.
  intros [= <- <-] Hgood. exists a1, out1, out2. repeat split; auto.
  intros ->. rewrite feed_all_garbage in H2. congruence.
Qed.

Lemma tracks_idle before st :
  (forall p, matches p st Idle) -> tracks before "" st Idle.
Proof. intros Hm. repeat split; apply (Hm 0). Qed.

(** The loop of the Gemini branch cuts what the automaton emits and
    keeps the text of the object it is in. *)
Lemma gemini_loop_feed rest :
  forall buffer before cur st a found a' out,
    buffer = before +:+ cur +:+ rest ->
    tracks before cur st a ->
    (Chunker.endPos st < Z.of_nat (String.length before))%Z ->
    feed_all a rest = (a', out) -> a' <> Garbage ->
    exists st',
      Chunker.gemini_loop buffer (String.length before + String.length cur)
        rest st found = (st', found ++ out)
      /\ Chunker.gemini_keep buffer st' = cur_of a'
      /\ feed_all Idle (cur_of a') = (a', []).
Proof.
  induction rest as [|c rest IH];
    intros buffer before cur st a found a' out Hbuf Htr Hend Hfeed Hgood.
  - cbn [feed_all] in Hfeed. injection Hfeed as <- <-.
    exists st. rewrite app_nil_r. split; [done |].
    destruct Htr as (Hcur & Hof & Hm). rewrite Hof. split; [| done].
    rewrite append_empty_r in Hbuf. subst buffer.
    unfold Chunker.gemini_keep.
    destruct a as [|d s e cur'|]; simpl in Hm; [| |done].
    + destruct Hm as (-> & _). simpl in Hof. by subst cur.
    + destruct Hm as (Hp & _). rewrite Hp.
      replace (Z.of_nat (String.length before) <? Chunker.endPos st)%Z
        with false by (symmetry; apply Z.ltb_ge; lia).
      rewrite andb_false_r.
      replace (Z.of_nat (String.length before) =? -1)%Z with false
        by (symmetry; apply Z.eqb_neq; lia).
      cbn [negb]. rewrite Nat2Z.id. apply substring_from_app.
  - apply feed_all_cons in Hfeed as (a1 & out1 & out' & H1 & H2 & -> & Hg1);
      [| done].
    cbn [Chunker.gemini_loop].
    destruct (Chunker.inString st) eqn:Hin.
    + destruct (scan_in_string _ _ _ _ _ _ _ Htr Hin H1) as (-> & Htr' & He).
      destruct (IH buffer before (snoc cur c) (Chunker.in_string_step c st)
                  a1 found a' out') as (st' & Hloop & Hkeep);
        [by rewrite append_snoc | done | lia | done | done |].
      rewrite length_snoc in Hloop.
      replace (S (String.length before + String.length cur))
        with (String.length before + S (String.length cur)) by lia.
      exists st'. by split.
    + destruct (scan_out_string before cur c rest st a a1 out1 Htr Hin H1 Hg1)
        as (st1 & [(Hstep & -> & He & Hnext) | (Hstep & -> & -> & He & Hm)]);
        rewrite <- Hbuf in Hstep; rewrite Hstep.
      * destruct Hnext as [Htr' | (-> & -> & Hc & Hm)].
        -- destruct (IH buffer before (snoc cur c) st1 a1 found a' out')
             as (st' & Hloop & Hkeep);
             [by rewrite append_snoc | done | lia | done | done |].
           rewrite length_snoc in Hloop.
           replace (S (String.length before + String.length cur))
             with (String.length before + S (String.length cur)) by lia.
           exists st'. by split.
        -- destruct (IH buffer (snoc before c) "" st1 Idle found a' out')
             as (st' & Hloop & Hkeep);
             [ by rewrite Hbuf, append_snoc | by apply tracks_idle
             | rewrite length_snoc; lia | done | done |].
           rewrite length_snoc in Hloop. cbn [String.length] in Hloop |- *.
           replace (S (String.length before + 0))
             with (S (String.length before) + 0) by lia.
           exists st'. by split.
      * destruct (IH buffer (before +:+ snoc cur c) "" st1 Idle
                    (found ++ [snoc cur c]) a' out')
          as (st' & Hloop & Hkeep);
          [ by rewrite Hbuf, !append_assoc, append_snoc
          | by apply tracks_idle
          | rewrite length_append, length_snoc; lia | done | done |].
        rewrite length_append, length_snoc in Hloop.
        cbn [String.length] in Hloop.
        replace (S (String.length before + String.length cur))
          with (String.length before + S (String.length cur) + 0) by lia.
        exists st'. rewrite <- app_assoc in Hloop. by split.
Qed.

Lemma separator_app a b :
  separator a = true -> separator b = true -> separator (a +:+ b) = true.
Proof.
  induction a as [|x a IH]; simpl; [done |].
  intros [Hx Ha]%andb_true_iff Hb. by rewrite Hx, IH.
Qed.

Lemma separator_snoc a c :
  separator a = true -> plain c = true -> separator (snoc a c) = true.
Proof.
  intros Ha Hc. apply separator_app; [done |]. simpl. by rewrite Hc.
Qed.

(** The loop of the Vertex branch cuts what the automaton emits and keeps
    what follows the last object cut. *)
Lemma vertex_loop_feed rest :
  forall buffer before cur st a found a' out,
    buffer = before +:+ cur +:+ rest ->
    tracks before cur st a -> separator before = true ->
    feed_all a rest = (a', out) -> a' <> Garbage ->
    exists kept,
      Chunker.vertex_loop true buffer
        (String.length before + String.length cur) rest st found
      = (kept, found ++ out)
      /\ feed_all Idle kept = (a', [])
      /\ (a' = Idle -> separator kept = true).
Proof.
  induction rest as [|c rest IH];
    intros buffer before cur st a found a' out Hbuf Htr Hsep Hfeed Hgood.
  - cbn [feed_all] in Hfeed. injection Hfeed as <- <-.
    exists buffer. rewrite app_nil_r. split; [done |].
    destruct Htr as (Hcur & Hof & Hm).
    rewrite append_empty_r in Hbuf. subst buffer. split.
    + by rewrite feed_all_app, feed_separator, Hcur.
    + intros ->. simpl in Hof. subst cur. by rewrite append_empty_r.
  - apply feed_all_cons in Hfeed as (a1 & out1 & out' & H1 & H2 & -> & Hg1);
      [| done].
    cbn [Chunker.vertex_loop].
    destruct (Chunker.inString st) eqn:Hin.
    + destruct (scan_in_string _ _ _ _ _ _ _ Htr Hin H1) as (-> & Htr' & He).
      destruct (IH buffer before (snoc cur c) (Chunker.in_string_step c st)
                  a1 found a' out') as (kept & Hloop & Hkept);
        [by rewrite append_snoc | done | done | done | done |].
      rewrite length_snoc in Hloop.
      replace (S (String.length before + String.length cur))
        with (String.length before + S (String.length cur)) by lia.
      exists kept. by split.
    + destruct (scan_out_string before cur c rest st a a1 out1 Htr Hin H1 Hg1)
        as (st1 & [(Hstep & -> & He & Hnext) | (Hstep & -> & -> & He & Hm)]);
        rewrite <- Hbuf in Hstep; rewrite Hstep.
      * destruct Hnext as [Htr' | (-> & -> & Hc & Hm)].
        -- destruct (IH buffer before (snoc cur c) st1 a1 found a' out')
             as (kept & Hloop & Hkept);
             [by rewrite append_snoc | done | done | done | done |].
           rewrite length_snoc in Hloop.
           replace (S (String.length before + String.length cur))
             with (String.length before + S (String.length cur)) by lia.
           exists kept. by split.
        -- destruct (IH buffer (snoc before c) "" st1 Idle found a' out')
             as (kept & Hloop & Hkept);
             [ by rewrite Hbuf, append_snoc | by apply tracks_idle
             | by apply separator_snoc | done | done |].
           rewrite length_snoc in Hloop. cbn [String.length] in Hloop |- *.
           replace (S (String.length before + 0))
             with (S (String.length before) + 0) by lia.
           exists kept. by split.
      * assert (Hlen : String.length buffer
                       = S (String.length before + String.length cur)
                         + String.length rest).
        { rewrite Hbuf, !length_append. simpl. lia. }
        destruct (S (String.length before + String.length cur)
                  <? String.length buffer)%nat eqn:Hlt.
        -- assert (Hcut : substring_from
                            (S (String.length before + String.length cur))
                            buffer = rest).
           { rewrite Hbuf. rewrite <- append_snoc, <- append_assoc.
             replace (S (String.length before + String.length cur))
               with (String.length (before +:+ snoc cur c))
               by (rewrite length_append, length_snoc; lia).
             apply substring_from_app. }
           rewrite Hcut.
           destruct (IH rest "" "" st1 Idle (found ++ [snoc cur c]) a' out')
             as (kept & Hloop & Hkept);
             [done | by apply tracks_idle | done | done | done |].
           cbn [String.length Nat.add] in Hloop.
           exists kept. rewrite <- app_assoc in Hloop. by split.
        -- apply Nat.ltb_ge in Hlt.
           assert (rest = "") as -> by (destruct rest; [done | simpl in Hlen; lia]).
           cbn [feed_all] in H2. injection H2 as <- <-.
           exists "". by rewrite app_nil_r.
Qed.

Lemma vertex_loop_separator restart s :
  forall buffer i st found,
    separator s = true -> Chunker.inString st = false ->
    Chunker.vertex_loop restart buffer i s st found = (buffer, found).
Proof.
  induction s as [|c s IH]; intros buffer i st found Hs Hin; [done |].
  simpl in Hs. apply andb_true_iff in Hs as [Hc Hs].
  apply plain_tests in Hc as (H1 & H2 & H3).
  cbn [Chunker.vertex_loop]. rewrite Hin. unfold Chunker.out_string_step.
  rewrite H1, H2, H3. by apply IH.
Qed.

(** One call of [transform], on each branch. *)
Lemma gemini_transform_feed buffer chunkStr a a' out :
  feed_all Idle buffer = (a, []) ->
  feed_all a chunkStr = (a', out) -> a' <> Garbage ->
  Chunker.gemini_transform buffer chunkStr = (cur_of a', out)
  /\ feed_all Idle (cur_of a') = (a', []).
Proof.
  intros Hb Hc Hgood. unfold Chunker.gemini_transform.
  destruct (gemini_loop_feed (buffer +:+ chunkStr) (buffer +:+ chunkStr)
              "" "" Chunker.scan0 Idle [] a' out)
    as (st' & Hloop & Hkeep & Hcur); [done | by repeat split | simpl; lia | |
                                      done |].
  { by rewrite feed_all_app, Hb, Hc. }
  cbn [String.length Nat.add] in Hloop. rewrite Hloop. cbn [app].
  by rewrite Hkeep.
Qed.

Lemma vertex_transform_feed buffer chunkStr a a' out :
  feed_all Idle buffer = (a, []) ->
  feed_all a chunkStr = (a', out) -> a' <> Garbage ->
  exists kept,
    Chunker.vertex_transform buffer chunkStr = (kept, out)
    /\ feed_all Idle kept = (a', [])
    /\ (a' = Idle -> separator kept = true).
Proof.
  intros Hb Hc Hgood. unfold Chunker.vertex_transform.
  destruct (vertex_loop_feed (buffer +:+ chunkStr) (buffer +:+ chunkStr)
              "" "" Chunker.scan0 Idle [] a' out)
    as (kept & Hloop & Hkept); [done | by repeat split | done | | done |].
  { by rewrite feed_all_app, Hb, Hc. }
  cbn [String.length Nat.add] in Hloop. exists kept. by rewrite Hloop.
Qed.

Lemma feed_all_body a c chunks a' out :
  feed_all a (body (c :: chunks)) = (a', out) -> a' <> Garbage ->
  exists a1 out1 out',
    feed_all a c = (a1, out1) /\ feed_all a1 (body chunks) = (a', out')
    /\ out = out1 ++ out' /\ a1 <> Garbage.
Proof.
  cbn [body fold_right]. rewrite feed_all_app.
  destruct (feed_all a c) as [a1 out1].
  fold (body chunks). destruct (feed_all a1 (body chunks)) as [a2 out2] eqn:H2.
  intros [= <- <-] Hgood. exists a1, out1, out2. repeat split; auto.
  intros ->. rewrite feed_all_garbage in H2. congruence.
Qed.

(** The transformer over a body, however it is cut into chunks. *)
Lemma run_gemini_feed chunks :
  forall buffer a a' out,
    feed_all Idle buffer = (a, []) -> buffer = cur_of a ->
    feed_all a (body chunks) = (a', out) -> a' <> Garbage ->
    Chunker.run Chunker.gemini_transform buffer chunks = (cur_of a', out).
Proof.
  induction chunks as [|c chunks IH]; intros buffer a a' out Hb Hcur Hfeed Hgood.
  - cbn in Hfeed. injection Hfeed as <- <-. by rewrite Hcur.
  - apply feed_all_body in Hfeed as (a1 & out1 & out' & H1 & H2 & -> & Hg1);
      [| done].
    cbn [Chunker.run].
    destruct (gemini_transform_feed buffer c a a1 out1 Hb H1 Hg1) as [-> Hk].
    by rewrite (IH (cur_of a1) a1 a' out').
Qed.

Lemma run_vertex_feed chunks :
  forall buffer a a' out,
    feed_all Idle buffer = (a, []) -> (a = Idle -> separator buffer = true) ->
    feed_all a (body chunks) = (a', out) -> a' <> Garbage ->
    exists kept,
      Chunker.run Chunker.vertex_transform buffer chunks = (kept, out)
      /\ (a' = Idle -> separator kept = true).
Proof.
  induction chunks as [|c chunks IH]; intros buffer a a' out Hb Hsep Hfeed Hgood.
  - cbn in Hfeed. injection Hfeed as <- <-. by exists buffer.
  - apply feed_all_body in Hfeed as (a1 & out1 & out' & H1 & H2 & -> & Hg1);
      [| done].
    cbn [Chunker.run].
    destruct (vertex_transform_feed buffer c a a1 out1 Hb H1 Hg1)
      as (kept1 & -> & Hk & Hs).
    destruct (IH kept1 a1 a' out' Hk Hs H2 Hgood) as (kept & -> & Hkept).
    by exists kept.
Qed.


(** Whatever the chunks a body arrives in, if the body is a sequence of
    brace-balanced texts with plain characters around them, both branches
    extract exactly these texts, in order, and [flush] finds nothing
    more. *)
Lemma extracted_balanced (chunks : list string) (sep0 : string)
    (items : list (string * string)) :
  well_formed_stream sep0 items ->
  body chunks = stream_text sep0 items ->
  extracted Chunker.gemini_transform Chunker.gemini_flush chunks
  = map fst items
  /\ extracted Chunker.vertex_transform Chunker.vertex_flush chunks
     = map fst items.
Proof.
  intros Hwf Hbody. pose proof (feed_stream sep0 items Hwf) as Hfeed.
  rewrite <- Hbody in Hfeed. split.
  - unfold extracted.
    rewrite (run_gemini_feed chunks "" Idle Idle (map fst items)); try done.
    cbn [cur_of]. by rewrite app_nil_r.
  - unfold extracted.
    destruct (run_vertex_feed chunks "" Idle Idle (map fst items))
      as (kept & -> & Hkept); try done.
    unfold Chunker.vertex_flush.
    rewrite vertex_loop_separator by auto.
    destruct (Chunker.has_text kept); apply app_nil_r.
Qed.

(** Every JSON text is brace-balanced. *)
Lemma balanced_app a b : balanced a -> balanced b -> balanced (a +:+ b).
Proof.
  induction 1 as [|c s Hc _ IH|k s Hk _ IH|o s Ho _ _ IH]; intros Hb.
  - done.
  - simpl. by apply balanced_plain; [| apply IH].
  - rewrite !append_assoc. by apply balanced_string; [| apply IH].
  - change (("{" +:+ o +:+ "}" +:+ s) +:+ b)
      with (String "{" ((o +:+ String "}" s) +:+ b)).
    rewrite append_assoc.
    change (String "{" (o +:+ String "}" s +:+ b))
      with ("{" +:+ o +:+ "}" +:+ (s +:+ b)).
    by apply balanced_object; [| apply IH].
Qed.

Lemma separator_balanced s : separator s = true -> balanced s.
Proof.
  induction s as [|c s IH]; simpl; [constructor |].
  intros [Hc Hs]%andb_true_iff. by apply balanced_plain; [| apply IH].
Qed.

Lemma all_plain (test : ascii -> bool) (all : string -> bool) :
  (forall c, test c = true -> plain c = true) ->
  (forall c s, all (String c s) = test c && all s) ->
  forall s, all s = true -> separator s = true.
Proof.
  intros Htest Hall. induction s as [|c s IH]; [done |].
  rewrite Hall. intros [Hc Hs]%andb_true_iff. simpl.
  by rewrite (Htest c Hc), IH.
Qed.

Lemma ascii_tests (c : ascii) (lit : ascii) :
  Chunker.is_char c (String lit "") = true -> c = lit.
Proof. simpl. apply Ascii.eqb_eq. Qed.

Lemma is_ws_plain c : is_ws c = true -> plain c = true.
Proof.
  unfold is_ws. rewrite !orb_true_iff.
  intros [[[H | H] | H] | H]; apply ascii_tests in H; by subst c.
Qed.

Lemma number_char_plain c : number_char c = true -> plain c = true.
Proof.
  unfold number_char. rewrite !orb_true_iff.
  intros [[[[[H | H] | H] | H] | H] | H];
    [| apply ascii_tests in H; by subst c ..].
  unfold is_digit in H. unfold plain, Chunker.is_char, Chunker.dquote.
  destruct (Ascii.eqb c "{") eqn:E1;
    [apply Ascii.eqb_eq in E1; by subst c |].
  destruct (Ascii.eqb c "}") eqn:E2;
    [apply Ascii.eqb_eq in E2; by subst c |].
  destruct (Ascii.eqb c "034") eqn:E3;
    [apply Ascii.eqb_eq in E3; by subst c |].
  done.
Qed.

Lemma wrapper_char_plain c : wrapper_char c = true -> plain c = true.
Proof.
  unfold wrapper_char. rewrite !orb_true_iff.
  intros [[[H | H] | H] | H];
    [apply ascii_tests in H; by subst c .. | by apply is_ws_plain].
Qed.

Lemma whitespace_balanced w : whitespace w = true -> balanced w.
Proof.
  intros H. apply separator_balanced.
  by apply (all_plain is_ws whitespace is_ws_plain).
Qed.

Lemma wrapping_separator s : wrapping s = true -> separator s = true.
Proof. by apply (all_plain wrapper_char wrapping wrapper_char_plain). Qed.

Lemma balanced_quoted b : string_body b ->
  balanced (Chunker.dquote +:+ b +:+ Chunker.dquote).
Proof.
  intros Hb. rewrite <- (append_empty_r Chunker.dquote) at 2.
  apply balanced_string; [done | constructor].
Qed.

Lemma balanced_braces o : balanced o -> balanced ("{" +:+ o +:+ "}").
Proof.
  intros Ho. change ("{" +:+ o +:+ "}") with ("{" +:+ o +:+ "}" +:+ "").
  apply balanced_object; [done | constructor].
Qed.

Lemma json_text_balanced k s : json_text k s -> balanced s.
Proof.
  induction 1 as [s Hs|s _ Hs|b Hb|w Hw|ms _ IH|w Hw|es _ IH
                 |w1 k w2 w3 v w4 H1 Hk H2 H3 _ IH H4|m ms _ IHm _ IHms
                 |w1 v w2 H1 _ IH H2|e es _ IHe _ IHes].
  - apply separator_balanced.
    destruct Hs as [<- | [<- | [<- | []]]]; reflexivity.
  - apply separator_balanced.
    by apply (all_plain number_char number_chars number_char_plain).
  - by apply balanced_quoted.
  - by apply balanced_braces, whitespace_balanced.
  - by apply balanced_braces.
  - apply (balanced_plain "["); [done |].
    apply balanced_app; [by apply whitespace_balanced |].
    apply (balanced_plain "]"); [done | constructor].
  - apply (balanced_plain "["); [done |].
    apply balanced_app; [done |].
    apply (balanced_plain "]"); [done | constructor].
  - apply balanced_app; [by apply whitespace_balanced |].
    apply balanced_string; [done |].
    apply balanced_app; [by apply whitespace_balanced |].
    apply (balanced_plain ":"); [done |].
    apply balanced_app; [by apply whitespace_balanced |].
    apply balanced_app; [done | by apply whitespace_balanced].
  - apply balanced_app; [done |]. by apply (balanced_plain ",").
  - apply balanced_app; [by apply whitespace_balanced |].
    apply balanced_app; [done | by apply whitespace_balanced].
  - apply balanced_app; [done |]. by apply (balanced_plain ",").
Qed.

Lemma json_object_text s : json_object s -> object_text s.
Proof.
  intros (inner & -> & [Hw | Hm]); exists inner; split; try done.
  - by apply whitespace_balanced.
  - by apply (json_text_balanced Members).
Qed.

Lemma json_stream_well_formed sep0 items :
  json_stream sep0 items -> well_formed_stream sep0 items.
Proof.
  intros [Hsep Hitems]. split; [by apply wrapping_separator |].
  eapply Forall_impl; [exact Hitems |].
  intros item [Ho Hs]. split; [by apply json_object_text |
                               by apply wrapping_separator].
Qed.

Lemma brace_in_string_json : json_object brace_in_string.
Proof.
  exists (Chunker.dquote +:+ "a" +:+ Chunker.dquote
          +:+ ":" +:+ Chunker.dquote +:+ "}" +:+ Chunker.dquote).
  split; [done |]. right.
  apply (text_member "" "a" "" "" (Chunker.dquote +:+ "}" +:+ Chunker.dquote)
           ""); try done.
  - by repeat constructor.
  - apply (text_string "}"). by repeat constructor.
Qed.

(** C5.  Whatever the chunks a body arrives in, if the body is a sequence
    of well-formed JSON objects with array brackets, commas and white
    space around them, both branches of the stream transformer extract
    exactly these objects, each once, in the order of the body, and
    [flush] finds nothing more.  A brace inside a string closes nothing:
    a body that is [{"a":"}"}], in any chunks, yields this one object. *)
Theorem chunker_extracts_objects (chunks : list string) (sep0 : string)
    (items : list (string * string)) :
  json_stream sep0 items ->
  body chunks = stream_text sep0 items ->
  (extracted Chunker.gemini_transform Chunker.gemini_flush chunks
   = map fst items
   /\ extracted Chunker.vertex_transform Chunker.vertex_flush chunks
      = map fst items)
  /\ (forall parts,
        body parts = brace_in_string ->
        extracted Chunker.gemini_transform Chunker.gemini_flush parts
        = [brace_in_string]
        /\ extracted Chunker.vertex_transform Chunker.vertex_flush parts
           = [brace_in_string]).
Proof.
  intros Hjson Hbody. split.
  - by apply (extracted_balanced chunks sep0 items);
      [apply json_stream_well_formed |].
  - intros parts Hparts.
    apply (extracted_balanced parts "" [(brace_in_string, "")]); [| done].
    apply json_stream_well_formed. split; [done |].
    constructor; [| constructor]. split; [apply brace_in_string_json | done].
Qed.

End ScanFacts.

Lemma two_objects_json : json_stream "[" two_objects.
Proof.
  split; [reflexivity |]. constructor; [| constructor; [| constructor]].
  - split; [apply brace_in_string_json | reflexivity].
  - split; [| reflexivity].
    exists (Chunker.dquote +:+ "b" +:+ Chunker.dquote +:+ ":{}").
    split; [reflexivity |]. right.
    apply (text_member "" "b" "" "" "{}" ""); try reflexivity.
    + repeat constructor; reflexivity.
    + by apply (text_empty_object "").
Qed.

Lemma chunker_extracts_objects_witness :
  (extracted Chunker.gemini_transform Chunker.gemini_flush two_objects_chunks
   = map fst two_objects
   /\ extracted Chunker.vertex_transform Chunker.vertex_flush
        two_objects_chunks
      = map fst two_objects)
  /\ (forall parts,
        body parts = brace_in_string ->
        extracted Chunker.gemini_transform Chunker.gemini_flush parts
        = [brace_in_string]
        /\ extracted Chunker.vertex_transform Chunker.vertex_flush parts
           = [brace_in_string]).
Proof.
  apply (chunker_extracts_objects two_objects_chunks "[" two_objects).
  - apply two_objects_json.
  - reflexivity.
Defined.

(** ** Stream termination *)

Section ChunkerFrames.

#[local] Arguments String.append !_ _ / : simpl nomatch.









End ChunkerFrames.

Section StreamFacts.

Context {B : Builtins}.
(** No value is serialized as the text [[DONE]], which is not JSON. *)
Hypothesis stringify_not_done : forall v, JSON_stringify v <> "[DONE]".
Variable vertex : bool.
Variable requestedModelId : option string.
Variable now_ms : Z.
Variable rand : string.

#[local] Abbreviation handle :=
  (Stream.handle vertex requestedModelId now_ms rand).
#[local] Abbreviation run := (Stream.run vertex requestedModelId now_ms rand).
#[local] Abbreviation ka_handle :=
  (Stream.ka_handle requestedModelId now_ms rand).
#[local] Abbreviation ka_run := (Stream.ka_run requestedModelId now_ms rand).






































End StreamFacts.






(** ** Function names of tool declarations *)

Section NameFacts.
Import Names.

Lemma allowed_not_space u : allowed u = true -> is_space u = false.
Proof.
  unfold allowed, is_space, is_letter, is_digit, underscore. cbn [existsb].
  intros Ha. apply not_true_iff_false. intros Hs.
  repeat match goal with
         | H : _ || _ = true |- _ => apply orb_prop in H as [H | H]
         | H : _ && _ = true |- _ => apply andb_prop in H as [? ?]
         | H : (_ =? _)%N = true |- _ => apply N.eqb_eq in H
         | H : (_ <=? _)%N = true |- _ => apply N.leb_le in H
         | H : false = true |- _ => discriminate H
         end; lia.
Qed.

Lemma trim_start_allowed n :
  (forall u n', n = u :: n' -> allowed u = true) -> trim_start n = n.
Proof.
  destruct n as [|u n']; [done |]. intros Hu. simpl.
  by rewrite (allowed_not_space u (Hu u n' eq_refl)).
Qed.

Lemma trim_allowed n :
  Forall (fun u => allowed u = true) n -> trim n = n.
Proof.
  intros Hall. unfold trim. rewrite (trim_start_allowed n).
  - rewrite trim_start_allowed; [apply rev_involutive |].
    intros u n' Hrev. rewrite List.Forall_forall in Hall. apply Hall.
    apply in_rev. rewrite Hrev. by left.
  - intros u n' ->. by inversion Hall.
Qed.

Lemma collapse_allowed n :
  Forall (fun u => allowed u = true) n -> collapse false n = n.
Proof.
  induction 1 as [|u n Hu _ IH]; [done |]. simpl.
  by rewrite (allowed_not_space u Hu), IH.
Qed.

Lemma collapse_nonempty u n : collapse false (u :: n) <> [].
Proof. simpl. by destruct (is_space u). Qed.

Lemma or_fn_nonempty fallbackBase : or_fn fallbackBase <> [].
Proof. by destruct fallbackBase. Qed.

Lemma replaced_allowed (n : units) :
  Forall (fun u => allowed u = true)
    (map (fun u => if allowed u then u else underscore) n).
Proof.
  induction n as [|u n IH]; constructor; [| done].
  by destruct (allowed u) eqn:Hu.
Qed.

Lemma well_formed_firstn k n :
  well_formed_name n -> well_formed_name (firstn (S k) n).
Proof.
  intros (Hne & Hall & Hstart). destruct n as [|u n]; [done |].
  split; [done |]. split; [by apply Forall_take | done].
Qed.

Lemma sanitizeFunctionName_valid name fallbackBase :
  valid_name (sanitizeFunctionName name fallbackBase).
Proof.
  unfold sanitizeFunctionName.
  set (n0 := match name with Some s => trim s | None => [] end).
  set (n1 := match n0 with [] => or_fn fallbackBase | _ => n0 end).
  assert (H1 : n1 <> []).
  { subst n1. destruct n0; [apply or_fn_nonempty | done]. }
  set (n2 := map (fun u => if allowed u then u else underscore)
               (collapse false n1)).
  assert (H2 : n2 <> [] /\ Forall (fun u => allowed u = true) n2).
  { split; [| apply replaced_allowed]. subst n2.
    destruct n1 as [|u n1]; [done |].
    pose proof (collapse_nonempty u n1) as Hc.
    by destruct (collapse false (u :: n1)). }
  set (n3 := if starts_well n2 then n2 else underscore :: n2).
  assert (H3 : well_formed_name n3).
  { subst n3. destruct H2 as [Hne Hall].
    destruct (starts_well n2) eqn:Hs; [done |].
    split; [done |]. split; [by constructor | done]. }
  set (n4 := if (64 <? length n3)%nat then firstn 64 n3 else n3).
  assert (H4 : valid_name n4).
  { subst n4. destruct (64 <? length n3)%nat eqn:Hlen.
    - split; [by apply well_formed_firstn |].
      rewrite length_firstn. lia.
    - apply Nat.ltb_ge in Hlen. by split. }
  clearbody n4. destruct n4 as [|u n5]; [| done].
  by destruct H4 as [[Hne _] _].
Qed.

Lemma sanitizeFunctionName_kept n fallbackBase :
  valid_name n -> sanitizeFunctionName (Some n) fallbackBase = n.
Proof.
  intros [(Hne & Hall & Hstart) Hlen].
  unfold sanitizeFunctionName. rewrite trim_allowed by done.
  assert (Hm : forall d : units,
             match n with [] => d | _ :: _ => n end = n).
  { intros d. by destruct n. }
  rewrite Hm, collapse_allowed by done.
  assert (Hmap : map (fun u => if allowed u then u else underscore) n = n).
  { clear -Hall. induction Hall as [|x l Hx _ IH]; [done |].
    simpl. by rewrite Hx, IH. }
  rewrite Hmap, Hstart.
  replace (64 <? length n)%nat with false
    by (symmetry; apply Nat.ltb_ge; lia).
  apply Hm.
Qed.

(** [sanitizeFunctionName] always returns a name the upstream API takes:
    between 1 and 64 code units, each of [A-Za-z0-9_.:-], the first a
    letter or an underscore. *)
Theorem sanitized_name_valid (name : option units) (fallbackBase : units) :
  let n := sanitizeFunctionName name fallbackBase in
  1 <= length n <= 64
  /\ Forall (fun u => allowed u = true) n
  /\ exists u n', n = u :: n' /\ (is_letter u || (u =? underscore)%N) = true.
Proof.
  intros n. destruct (sanitizeFunctionName_valid name fallbackBase)
    as [(Hne & Hall & Hstart) Hlen]. fold n in Hne, Hall, Hstart, Hlen.
  clearbody n. destruct n as [|u n']; [done |].
  split; [simpl in *; lia |]. split; [done |]. by exists u, n'.
Qed.

(** A name that is already valid (1 to 64 code units of [A-Za-z0-9_.:-],
    begun by a letter or an underscore) is returned as it is, whatever the
    fallback. *)
Theorem valid_name_kept (n fallbackBase : units) :
  valid_name n -> sanitizeFunctionName (Some n) fallbackBase = n.
Proof. apply sanitizeFunctionName_kept. Qed.

(** Sanitizing twice gives what sanitizing once gives, for every input
    and every pair of fallbacks. *)
Theorem sanitizeFunctionName_idempotent
    (name : option units) (fallbackBase fallbackBase' : units) :
  sanitizeFunctionName
    (Some (sanitizeFunctionName name fallbackBase)) fallbackBase'
  = sanitizeFunctionName name fallbackBase.
Proof. apply sanitizeFunctionName_kept, sanitizeFunctionName_valid. Qed.

End NameFacts.

Lemma valid_name_kept_witness :
  Names.sanitizeFunctionName (Some (Names.of_ascii "get_weather")) []
  = Names.of_ascii "get_weather".
Proof.
  apply (valid_name_kept (Names.of_ascii "get_weather") []).
  split; [| simpl; lia]. split; [done |]. split; [| done].
  vm_compute. repeat constructor.
Defined.


Section UniqueNameFacts.
Import Names.

Lemma of_ascii_inj s s' : of_ascii s = of_ascii s' -> s = s'.
Proof.
  unfold of_ascii. revert s'.
  induction s as [|c s IH]; intros [|c' s']; simpl; try discriminate;
    [done |].
  intros [= Hc Hs]. f_equal; [| by apply IH].
  by rewrite <- (ascii_N_embedding c), <- (ascii_N_embedding c'), Hc.
Qed.

Lemma show_Z_of_N c :
  show_Z (Z.of_N c) = NilEmpty.string_of_uint (N.to_uint c).
Proof.
  destruct c as [|p]; [done |]. unfold show_Z. simpl.
  pose proof (DecimalPos.Unsigned.to_uint_nonnil p) as Hnil.
  by destruct (Pos.to_uint p).
Qed.

Lemma decimal_inj c c' : decimal c = decimal c' -> c = c'.
Proof.
  unfold decimal. intros Heq. apply of_ascii_inj in Heq.
  rewrite !show_Z_of_N in Heq.
  apply DecimalN.Unsigned.to_uint_inj.
  apply (f_equal NilEmpty.uint_of_string) in Heq.
  rewrite !NilEmpty.usu in Heq. by injection Heq.
Qed.

Lemma decimal_digits c : Forall (fun u => is_digit u = true) (decimal c).
Proof.
  unfold decimal. rewrite show_Z_of_N.
  induction (N.to_uint c); simpl; by constructor.
Qed.

Lemma digit_allowed u : is_digit u = true -> allowed u = true.
Proof. unfold allowed. intros ->. by rewrite orb_true_r. Qed.

(** Two texts that end in digits after the same other unit end in the
    same digits. *)
Lemma digit_prefix_unique (x : N) (p1 p2 r1 r2 : units) :
  is_digit x = false ->
  Forall (fun u => is_digit u = true) p1 ->
  Forall (fun u => is_digit u = true) p2 ->
  p1 ++ x :: r1 = p2 ++ x :: r2 -> p1 = p2.
Proof.
  intros Hx H1. revert p2.
  induction H1 as [|u p1 Hu _ IH]; intros p2 H2 Heq.
  - destruct H2 as [|v p2 Hv _]; [done |].
    simpl in Heq. injection Heq as -> _. congruence.
  - destruct H2 as [|v p2 Hv H2].
    + simpl in Heq. injection Heq as -> _. congruence.
    + simpl in Heq. injection Heq as -> Heq. f_equal. by apply IH.
Qed.

Lemma candidate_inj proposed c c' :
  candidate proposed c = candidate proposed c' -> c = c'.
Proof.
  unfold candidate. intros Heq. apply (f_equal (@rev N)) in Heq.
  rewrite !rev_app_distr in Heq. simpl in Heq.
  rewrite <- !app_assoc in Heq. simpl in Heq.
  apply digit_prefix_unique in Heq.
  - apply decimal_inj. by apply rev_inj.
  - done.
  - apply Forall_rev, decimal_digits.
  - apply Forall_rev, decimal_digits.
Qed.

Lemma has_In usedNames unique :
  has usedNames unique = true <-> In unique usedNames.
Proof.
  unfold has, name_eqb. rewrite existsb_exists. split.
  - intros (x & Hx & Heq). apply bool_decide_eq_true in Heq. by subst.
  - intros Hin. exists unique. split; [done |].
    by apply bool_decide_eq_true.
Qed.

Lemma has_not_In usedNames unique :
  has usedNames unique = false <-> ~ In unique usedNames.
Proof. rewrite <- has_In. by destruct (has usedNames unique). Qed.

Lemma forallb_false {A} (f : A -> bool) (l : list A) :
  forallb f l = false -> exists x, In x l /\ f x = false.
Proof.
  induction l as [|x l IH]; [done |]. simpl.
  destruct (f x) eqn:Hx.
  - intros Hl. destruct (IH Hl) as (y & Hy & Hf). exists y. auto.
  - intros _. exists x. auto.
Qed.

(** Among [length usedNames + 1] candidates with successive counters one
    is not in [usedNames]. *)
Lemma fresh_candidate usedNames proposed counter :
  exists j, j < S (length usedNames)
            /\ has usedNames (candidate proposed (counter + N.of_nat j))
               = false.
Proof.
  set (f := fun j => candidate proposed (counter + N.of_nat j)).
  set (l := map f (seq 0 (S (length usedNames)))).
  destruct (forallb (has usedNames) l) eqn:Hall.
  - exfalso. assert (Hdup : List.NoDup l).
    { apply Injective_map_NoDup; [| apply seq_NoDup].
      intros j j' Hj. apply candidate_inj in Hj. lia. }
    assert (Hincl : incl l usedNames).
    { intros x Hx. apply has_In.
      by apply (proj1 (forallb_forall _ _) Hall). }
    pose proof (NoDup_incl_length Hdup Hincl) as Hlen.
    subst l. rewrite length_map, length_seq in Hlen. lia.
  - destruct (forallb_false _ _ Hall) as (x & Hx & Hfresh).
    apply in_map_iff in Hx as (j & <- & Hj). apply in_seq in Hj.
    exists j. split; [lia | done].
Qed.

Lemma unique_from_fresh fuel usedNames proposed :
  forall unique counter,
    has usedNames unique = false
    \/ (exists j, j < fuel
                  /\ has usedNames (candidate proposed (counter + N.of_nat j))
                     = false) ->
    exists r,
      unique_from (S fuel) usedNames proposed unique counter = Some r
      /\ has usedNames r = false
      /\ (r = unique
          \/ exists c, (c < counter + N.of_nat fuel)%N
                       /\ r = candidate proposed c).
Proof.
  induction fuel as [|fuel IH]; intros unique counter Hfresh.
  - destruct Hfresh as [Hu | (j & Hj & _)]; [| lia].
    exists unique. simpl. rewrite Hu. auto.
  - cbn [unique_from]. destruct (has usedNames unique) eqn:Hu.
    + destruct Hfresh as [Hu' | (j & Hj & Hfresh)]; [congruence |].
      destruct (IH (candidate proposed counter) (counter + 1)%N)
        as (r & Hr & Hnew & Hshape).
      { destruct j as [|j].
        - left. by rewrite N.add_0_r in Hfresh.
        - right. exists j. split; [lia |].
          by replace (counter + 1 + N.of_nat j)%N
            with (counter + N.of_nat (S j))%N by lia. }
      exists r. split; [exact Hr |]. split; [done |]. right.
      destruct Hshape as [-> | (c & Hc & ->)].
      * exists counter. split; [lia | done].
      * exists c. split; [lia | done].
    + exists unique. auto.
Qed.

(** The loop ends, on a name that is not in [usedNames]: the proposal,
    or a candidate of it. *)
Lemma unique_name_total usedNames proposed :
  exists unique,
    unique_name usedNames proposed = Some unique
    /\ ~ In unique usedNames
    /\ (unique = proposed
        \/ exists c, (c < N.of_nat (length usedNames) + 3)%N
                     /\ unique = candidate proposed c).
Proof.
  unfold unique_name.
  replace (length usedNames + 2) with (S (S (length usedNames))) by lia.
  destruct (unique_from_fresh (S (length usedNames)) usedNames proposed
              proposed 2%N) as (r & Hr & Hnew & Hshape).
  { right. apply fresh_candidate. }
  exists r. split; [done |]. split; [by apply has_not_In |].
  destruct Hshape as [-> | (c & Hc & ->)]; [by left |].
  right. exists c. split; [lia | done].
Qed.

Lemma unique_name_kept usedNames proposed :
  ~ In proposed usedNames -> unique_name usedNames proposed = Some proposed.
Proof.
  intros Hnew. apply has_not_In in Hnew. unfold unique_name.
  replace (length usedNames + 2) with (S (S (length usedNames))) by lia.
  simpl. by rewrite Hnew.
Qed.

End UniqueNameFacts.


Section ToolNameFacts.
Import Names.

Lemma candidate_well_formed proposed c :
  well_formed_name proposed -> well_formed_name (candidate proposed c).
Proof.
  intros (Hne & Hall & Hstart). unfold candidate.
  destruct proposed as [|u proposed]; [done |].
  destruct (Nat.max 1 (64 - length (underscore :: decimal c))) as [|k] eqn:Hk;
    [lia |].
  split; [done |]. split; [| done].
  apply Forall_app. split; [by apply Forall_take |].
  constructor; [done |].
  eapply List.Forall_impl; [| apply decimal_digits].
  apply digit_allowed.
Qed.

Lemma candidate_length proposed c :
  length (decimal c) <= 62 -> length (candidate proposed c) <= 64.
Proof.
  intros Hc. unfold candidate. rewrite length_app, length_firstn.
  simpl. lia.
Qed.

Lemma decimal_short c : (c < 1003)%N -> length (decimal c) <= 4.
Proof.
  intros Hc.
  assert (Hall : forallb (fun j => (length (decimal (N.of_nat j)) <=? 4)%nat)
                   (seq 0 1003) = true) by (vm_compute; reflexivity).
  rewrite forallb_forall in Hall.
  specialize (Hall (N.to_nat c)). rewrite N2Nat.id in Hall.
  apply Nat.leb_le, Hall, in_seq. lia.
Qed.

Lemma renamed_mono limit limit' r :
  (limit <= limit')%N -> renamed limit r -> renamed limit' r.
Proof.
  intros Hle (proposed & Hp & Hr). exists proposed. split; [done |].
  destruct Hr as [-> | (c & Hc & ->)]; [by left |].
  right. exists c. split; [lia | done].
Qed.

Lemma renamed_well_formed limit r : renamed limit r -> well_formed_name r.
Proof.
  intros (proposed & [Hp _] & [-> | (c & _ & ->)]); [done |].
  by apply candidate_well_formed.
Qed.

Lemma renamed_valid limit r :
  (limit <= 1003)%N -> renamed limit r -> valid_name r.
Proof.
  intros Hle (proposed & Hp & [-> | (c & Hc & ->)]); [done |].
  split; [apply candidate_well_formed, Hp |].
  apply candidate_length.
  assert (length (decimal c) <= 4) by (apply decimal_short; lia). lia.
Qed.

Lemma name_declarations_spec toolIdx originalNames :
  forall i usedNames,
    List.NoDup usedNames ->
    exists names,
      name_declarations toolIdx i usedNames originalNames
      = Some (names, rev names ++ usedNames)
      /\ length names = length originalNames
      /\ List.NoDup (rev names ++ usedNames)
      /\ Forall (renamed (N.of_nat (length usedNames + length originalNames)
                          + 3)) names.
Proof.
  induction originalNames as [|originalName rest IH]; intros i usedNames Hused.
  - exists []. simpl. auto.
  - cbn [name_declarations].
    set (proposed := sanitizeFunctionName originalName _).
    destruct (unique_name_total usedNames proposed)
      as (unique & -> & Hnew & Hshape).
    destruct (IH (i + 1)%N (unique :: usedNames)) as (names & -> & Hlen & Hdup & Hall).
    { by constructor. }
    exists (unique :: names). simpl. rewrite <- app_assoc. simpl.
    split; [done |]. split; [by rewrite Hlen |]. split; [done |].
    constructor.
    + exists proposed. split; [apply sanitizeFunctionName_valid |].
      destruct Hshape as [-> | (c & Hc & ->)]; [by left |].
      right. exists c. split; [lia | done].
    + eapply List.Forall_impl; [| exact Hall].
      intros r. apply renamed_mono. simpl. lia.
Qed.

Lemma tool_names_spec toolIdx function_declarations function :
  exists names,
    tool_names toolIdx function_declarations function = Some names
    /\ length names
       = length (declared function_declarations)
         + match function with Some _ => 1 | None => 0 end
    /\ List.NoDup names
    /\ Forall (renamed (N.of_nat (length names) + 3)) names.
Proof.
  unfold tool_names. fold (declared function_declarations).
  destruct (name_declarations_spec toolIdx (declared function_declarations)
              0%N []) as (names & -> & Hlen & Hdup & Hall); [constructor |].
  rewrite app_nil_r in *. rewrite <- Hlen in *. clear Hlen.
  apply NoDup_rev in Hdup as Hnames. rewrite rev_involutive in Hnames.
  destruct function as [originalSingleName|].
  - set (proposed := sanitizeFunctionName originalSingleName _).
    destruct (unique_name_total (rev names) proposed)
      as (unique & -> & Hnew & Hshape).
    exists (names ++ [unique]). split; [done |].
    rewrite length_app. split; [done |]. split.
    + apply List.NoDup_app; [done | repeat constructor; by intros [] |].
      intros x Hx [<- | []]. by apply Hnew, in_rev; rewrite rev_involutive.
    + apply Forall_app. split.
      * eapply List.Forall_impl; [| exact Hall].
        intros r. apply renamed_mono. simpl. lia.
      * constructor; [| done]. exists proposed.
        split; [apply sanitizeFunctionName_valid |].
        destruct Hshape as [-> | (c & Hc & ->)]; [by left |].
        right. exists c. rewrite length_rev in Hc. split; [simpl; lia | done].
  - exists names. split; [done |]. split; [lia |]. split; [done |].
    eapply List.Forall_impl; [| exact Hall].
    intros r. apply renamed_mono. simpl. lia.
Qed.

(** The names given within one tool, to the entries of
    [function_declarations] and then to [function], are found (the
    de-duplication loop ends), are as many as the declarations, are
    pairwise different, and each is made of [A-Za-z0-9_.:-] and begins
    with a letter or an underscore. *)
Theorem tool_names_distinct (toolIdx : N)
    (function_declarations : option (list (option units)))
    (function : option (option units)) :
  exists names,
    tool_names toolIdx function_declarations function = Some names
    /\ length names
       = length (declared function_declarations)
         + match function with Some _ => 1 | None => 0 end
    /\ List.NoDup names
    /\ Forall well_formed_name names.
Proof.
  destruct (tool_names_spec toolIdx function_declarations function)
    as (names & Hnames & Hlen & Hdup & Hall).
  exists names. split; [done |]. split; [done |]. split; [done |].
  eapply List.Forall_impl; [| exact Hall].
  intros r. apply renamed_well_formed.
Qed.

(** In a tool of at most 1000 functions every name given has at most 64
    code units, the counter suffix included. *)
Theorem tool_names_short (toolIdx : N)
    (function_declarations : option (list (option units)))
    (function : option (option units)) :
  length (declared function_declarations)
  + match function with Some _ => 1 | None => 0 end <= 1000 ->
  exists names,
    tool_names toolIdx function_declarations function = Some names
    /\ Forall (fun n => 1 <= length n <= 64) names.
Proof.
  intros Hcount.
  destruct (tool_names_spec toolIdx function_declarations function)
    as (names & Hnames & Hlen & Hdup & Hall).
  exists names. split; [done |].
  eapply List.Forall_impl; [| exact Hall].
  intros r Hr. apply (renamed_valid _ r) in Hr; [| lia].
  destruct Hr as [(Hne & _) Hr]. destruct r; [done |]. simpl in *. lia.
Qed.

Lemma name_declarations_kept toolIdx names :
  forall i usedNames,
    Forall valid_name names -> List.NoDup names ->
    (forall n, In n names -> ~ In n usedNames) ->
    name_declarations toolIdx i usedNames (map Some names)
    = Some (names, rev names ++ usedNames).
Proof.
  induction names as [|n names IH]; intros i usedNames Hvalid Hdup Hnew;
    [done |].
  inversion Hvalid as [|? ? Hn Hrest]; subst.
  inversion Hdup as [|? ? Hfirst Hdup']; subst.
  cbn [map name_declarations].
  rewrite sanitizeFunctionName_kept by done.
  rewrite unique_name_kept by (apply Hnew; by left).
  rewrite IH; [| done | done |].
  - simpl. by rewrite <- app_assoc.
  - intros x Hx [<- | Hin]; [done |]. apply (Hnew x); [by right | done].
Qed.

(** Names that are valid and pairwise different are all kept: the tool's
    declarations, and its [function] after them, keep the names they
    came with. *)
Theorem valid_distinct_names_kept (toolIdx : N) (names : list units)
    (single : option units) :
  let all := names ++ match single with Some n => [n] | None => [] end in
  Forall valid_name all -> List.NoDup all ->
  tool_names toolIdx (Some (map Some names)) (option_map Some single)
  = Some all.
Proof.
  intros all Hvalid Hdup. subst all. unfold tool_names.
  apply Forall_app in Hvalid as [Hnames Hsingle].
  rewrite (name_declarations_kept toolIdx names 0%N []);
    [| done | by apply NoDup_app_remove_r in Hdup | by intros n _ []].
  destruct single as [n|]; simpl; [| by rewrite app_nil_r].
  inversion Hsingle as [|? ? Hn _]; subst.
  rewrite sanitizeFunctionName_kept by done.
  rewrite unique_name_kept; [done |].
  rewrite app_nil_r. intros Hin. apply in_rev in Hin.
  apply NoDup_remove_2 in Hdup. apply Hdup. rewrite app_nil_r. done.
Qed.

End ToolNameFacts.

Lemma tool_names_short_witness :
  exists names,
    Names.tool_names 0
      (Some [Some (Names.of_ascii "f"); Some (Names.of_ascii "f")])
      (Some None) = Some names
    /\ Forall (fun n => 1 <= length n <= 64) names.
Proof.
  apply (tool_names_short 0
           (Some [Some (Names.of_ascii "f"); Some (Names.of_ascii "f")])
           (Some None)).
  simpl. lia.
Defined.

Lemma valid_distinct_names_kept_witness :
  Names.tool_names 1
    (Some (map Some [Names.of_ascii "get_weather"; Names.of_ascii "search"]))
    (option_map Some (Some (Names.of_ascii "now")))
  = Some ([Names.of_ascii "get_weather"; Names.of_ascii "search"]
          ++ [Names.of_ascii "now"]).
Proof.
  apply (valid_distinct_names_kept 1
           [Names.of_ascii "get_weather"; Names.of_ascii "search"]
           (Some (Names.of_ascii "now"))).
  - vm_compute. repeat constructor; try discriminate; lia.
  - vm_compute. repeat constructor; intros Hin; simpl in Hin;
      repeat destruct Hin as [Hin | Hin]; try discriminate; done.
Defined.


(** ** The [:non-thinking] variants of a model *)

Section NonThinkingFacts.
Import Catalog NonThinking.
#[local] Arguments String.append !_ _ / : simpl nomatch.

Lemma prefix_app (p s : string) : String.prefix p (p +:+ s) = true.
Proof.
  induction p as [|a p IH]; simpl; [by destruct s |].
  by destruct (ascii_dec a a).
Qed.

Lemma prefix_cons a p c s :
  String.prefix (String a p) (String c s) = true ->
  a = c /\ String.prefix p s = true.
Proof. simpl. by destruct (ascii_dec a c). Qed.

(** A pattern whose first character does not come again does not
    straddle the end of a text it is appended to. *)
Lemma prefix_app_skip a q p :
  ~ In a (list_ascii_of_string p) ->
  forall m, String.prefix p (m +:+ String a q) = true ->
            String.prefix p m = true.
Proof.
  induction p as [|b p IH]; intros Hnot m Hpre; [by destruct m |].
  destruct m as [|d m].
  - simpl in Hpre. destruct (ascii_dec b a) as [-> |]; [| done].
    exfalso. apply Hnot. by left.
  - apply prefix_cons in Hpre as [-> Hpre]. simpl.
    destruct (ascii_dec d d); [| done].
    apply IH; [| done]. intros Hin. apply Hnot. by right.
Qed.

Lemma remove_first_app a p m :
  ~ In a (list_ascii_of_string p) ->
  includes m (String a p) = false ->
  remove_first (String a p) (m +:+ String a p) = m.
Proof.
  intros Hnot. induction m as [|c m IH]; intros Hinc.
  - change ("" +:+ String a p) with (String a p).
    pose proof (prefix_app (String a p) "") as Hpre.
    pose proof (substring_from_app (String a p) "") as Hsub.
    rewrite append_empty_r in Hpre, Hsub.
    cbn [remove_first]. by rewrite Hpre.
  - cbn [includes] in Hinc. apply orb_false_elim in Hinc as [Hpre Hinc].
    change (String c m +:+ String a p) with (String c (m +:+ String a p)).
    cbn [remove_first].
    destruct (String.prefix (String a p) (String c (m +:+ String a p)))
      eqn:Hpre'.
    + apply prefix_cons in Hpre' as [-> Hpre'].
      apply prefix_app_skip in Hpre'; [| done].
      simpl in Hpre. destruct (ascii_dec c c); congruence.
    + by rewrite IH.
Qed.

Lemma endsWith_app (m p : string) : endsWith (m +:+ p) p = true.
Proof.
  unfold endsWith. rewrite length_append.
  replace (String.length m + String.length p - String.length p)
    with (String.length m) by lia.
  rewrite <- (append_empty_r (m +:+ p)), append_assoc, substring_middle.
  rewrite String.eqb_refl, andb_true_r. apply Nat.leb_le. lia.
Qed.

Lemma endsWith_includes (m p : string) :
  endsWith m p = true -> includes m p = true.
Proof.
  unfold endsWith. intros Hends. apply andb_prop in Hends as [Hk Hsub].
  apply Nat.leb_le in Hk. apply String.eqb_eq in Hsub.
  revert Hk Hsub. generalize (String.length p) at 1 2 3 as k.
  induction m as [|c m IH]; intros k Hk Hsub.
  - simpl in *. destruct k; [| lia]. by subst p.
  - cbn [includes]. destruct (decide (k = S (String.length m))) as [-> | Hne].
    + replace (String.length (String c m) - S (String.length m)) with 0
        in Hsub by (simpl; lia).
      change (S (String.length m)) with (String.length (String c m)) in Hsub.
      rewrite substring_all in Hsub. subst p.
      rewrite <- (append_empty_r (String c m)) at 2.
      by rewrite prefix_app.
    + rewrite (IH k); [apply orb_true_r | simpl in Hk; lia |].
      simpl in Hk.
      replace (String.length (String c m) - k)
        with (S (String.length m - k)) in Hsub by (simpl; lia).
      exact Hsub.
Qed.

(** A configured model whose id contains [gemini-2.5-flash-preview] and
    not [:non-thinking] is offered with the suffix [:non-thinking]: the
    suffixed id passes validation, the id looked up then is the
    configured one again, and the thinking budget is set to 0. *)
Theorem non_thinking_round_trip (c : config) (m : string) :
  In m (modelsConfig c) ->
  includes m "gemini-2.5-flash-preview" = true ->
  includes m suffix = false ->
  validate c (Some (m +:+ suffix)) = Passed
  /\ actualModelId (m +:+ suffix) = m
  /\ thinkingBudget (m +:+ suffix) = Some 0%Z.
Proof.
  intros Hin Hflash Hnone.
  assert (Hends : isNonThinking (m +:+ suffix) = true)
    by apply endsWith_app.
  split; [| split].
  - pose proof (proj2 (accepts_spec c (m +:+ suffix))) as Hacc.
    unfold accepts in Hacc.
    destruct (validate c (Some (m +:+ suffix))); [| done].
    discriminate Hacc. split; [by destruct m |].
    assert (Hnt : In (m +:+ suffix) (nonThinkingModels c)).
    { unfold nonThinkingModels. apply in_map_iff. exists m.
      split; [done |]. apply filter_In. split; [done |].
      rewrite Hflash. simpl. apply negb_true_iff.
      destruct (endsWith m ":non-thinking") eqn:He; [| done].
      apply endsWith_includes in He. unfold suffix in Hnone. congruence. }
    unfold enabledModels. destruct (isVertexEnabled c);
      rewrite ?in_app_iff; destruct (webSearchEnabled c);
      rewrite ?in_app_iff; auto.
  - unfold actualModelId. rewrite Hends.
    apply (remove_first_app ":" "non-thinking"); [| done].
    intros Hcolon. vm_compute in Hcolon.
    repeat destruct Hcolon as [Hcolon | Hcolon]; try discriminate; done.
  - unfold thinkingBudget. by rewrite Hends.
Qed.

End NonThinkingFacts.

Lemma non_thinking_round_trip_witness :
  let c := {| Catalog.modelsConfig := ["gemini-2.5-flash-preview-04-17"];
              Catalog.web_search := "0";
              Catalog.isVertexEnabled := false;
              Catalog.getVertexSupportedModels := [] |} in
  Catalog.validate c
    (Some ("gemini-2.5-flash-preview-04-17" +:+ NonThinking.suffix))
  = Catalog.Passed
  /\ NonThinking.actualModelId
       ("gemini-2.5-flash-preview-04-17" +:+ NonThinking.suffix)
     = "gemini-2.5-flash-preview-04-17"
  /\ NonThinking.thinkingBudget
       ("gemini-2.5-flash-preview-04-17" +:+ NonThinking.suffix)
     = Some 0%Z.
Proof.
  intros c.
  apply (non_thinking_round_trip c "gemini-2.5-flash-preview-04-17").
  - simpl. by left.
  - vm_compute. reflexivity.
  - vm_compute. reflexivity.
Defined.


(** ** Data URIs *)

Section DataUriFacts.
Import Translate.
#[local] Arguments String.append !_ _ / : simpl nomatch.

Lemma prefix_split (p s : string) :
  String.prefix p s = true -> s = p +:+ substring_from (String.length p) s.
Proof.
  revert s. induction p as [|a p IH]; intros s Hpre.
  - unfold substring_from. rewrite Nat.sub_0_r. simpl.
    by rewrite substring_all.
  - destruct s as [|c s]; [done |].
    apply prefix_cons in Hpre as [-> Hpre].
    rewrite (IH s Hpre) at 1. done.
Qed.

Lemma split_base64_sound s :
  forall acc mimeType data,
    split_base64 acc s = Some (mimeType, data) ->
    acc +:+ s = mimeType +:+ ";base64," +:+ data
    /\ mimeType <> "" /\ data <> "".
Proof.
  induction s as [|c s IH]; intros acc mimeType data Hsplit; [done |].
  cbn [split_base64] in Hsplit.
  destruct (negb (acc =? "")%string
            && String.prefix ";base64," (String c s)
            && negb (substring_from 8 (String c s) =? "")%string) eqn:Hhere.
  - injection Hsplit as <- <-.
    apply andb_prop in Hhere as [Hhere Hdata].
    apply andb_prop in Hhere as [Hacc Hpre].
    apply negb_true_iff, String.eqb_neq in Hacc, Hdata.
    split; [| done].
    by rewrite (prefix_split _ _ Hpre) at 1.
  - apply IH in Hsplit as (Heq & Hm & Hd).
    split; [| done]. rewrite <- Heq. by rewrite append_assoc.
Qed.

Lemma parseDataUri_parts (dataUri mimeType data : string) :
  parseDataUri dataUri = Some (mimeType, data) ->
  dataUri = "data:" +:+ mimeType +:+ ";base64," +:+ data
  /\ mimeType <> "" /\ data <> "".
Proof.
  unfold parseDataUri. destruct (negb (JsString.truthy dataUri)); [done |].
  destruct (String.prefix "data:" dataUri) eqn:Hpre; [| done].
  destruct (no_line_terminator (substring_from 5 dataUri)); [| done].
  cbn [andb]. intros Hsplit.
  apply split_base64_sound in Hsplit as (Heq & Hm & Hd).
  split; [| done]. rewrite <- Heq. apply (prefix_split "data:" _ Hpre).
Qed.

(** What [parseDataUri] returns is what the URI holds: the URI is
    [data:], the media type, [;base64,] and the data, neither of them
    empty. *)
Theorem parseDataUri_sound (dataUri mimeType data : string) :
  parseDataUri dataUri = Some (mimeType, data) ->
  dataUri = "data:" +:+ mimeType +:+ ";base64," +:+ data
  /\ mimeType <> "" /\ data <> "".
Proof. apply parseDataUri_parts. Qed.

Lemma includes_cons c s p :
  includes (String c s) p = false ->
  String.prefix p (String c s) = false /\ includes s p = false.
Proof. cbn [includes]. apply orb_false_elim. Qed.

Lemma split_base64_complete mimeType data :
  includes mimeType ";" = false -> data <> "" ->
  forall acc,
    acc +:+ mimeType <> "" ->
    split_base64 acc (mimeType +:+ ";base64," +:+ data)
    = Some (acc +:+ mimeType, data).
Proof.
  intros Hsemi Hdata.
  induction mimeType as [|c m IH]; intros acc Hne.
  - rewrite append_empty_r in *.
    change ("" +:+ ";base64," +:+ data) with (String ";" ("base64," +:+ data)).
    cbn [split_base64].
    change (String ";" ("base64," +:+ data)) with (";base64," +:+ data).
    rewrite prefix_app.
    pose proof (substring_from_app ";base64," data) as Hsub.
    change (String.length ";base64,") with 8 in Hsub. rewrite Hsub.
    apply String.eqb_neq in Hne, Hdata. by rewrite Hne, Hdata.
  - apply includes_cons in Hsemi as [Hc Hsemi].
    change (String c m +:+ ";base64," +:+ data)
      with (String c (m +:+ ";base64," +:+ data)).
    cbn [split_base64].
    replace (String.prefix ";base64," (String c (m +:+ ";base64," +:+ data)))
      with false.
    + rewrite andb_false_r. simpl.
      rewrite IH; [| done |].
      * by rewrite append_assoc.
      * rewrite append_assoc. simpl. by destruct acc.
    + symmetry. cbn [String.prefix] in Hc |- *.
      destruct (ascii_dec ";" c); [| done]. by destruct m.
Qed.

(** A [data:] URI with a media type that is not empty and has no
    semicolon, [;base64,] and data that are not empty, all on one line,
    is parsed into that media type and those data. *)
Theorem parseDataUri_complete (mimeType data : string) :
  mimeType <> "" -> includes mimeType ";" = false -> data <> "" ->
  no_line_terminator (mimeType +:+ ";base64," +:+ data) = true ->
  parseDataUri ("data:" +:+ mimeType +:+ ";base64," +:+ data)
  = Some (mimeType, data).
Proof.
  intros Hm Hsemi Hd Hline. unfold parseDataUri.
  change (JsString.truthy ("data:" +:+ mimeType +:+ ";base64," +:+ data))
    with true.
  rewrite (prefix_app "data:"). cbn [negb andb].
  pose proof (substring_from_app "data:"
                (mimeType +:+ ";base64," +:+ data)) as Hsub.
  change (String.length "data:") with 5 in Hsub. rewrite Hsub, Hline.
  by rewrite split_base64_complete.
Qed.

End DataUriFacts.

Lemma parseDataUri_sound_witness :
  "data:image/png;base64,iVBORw0KGgo="
  = "data:" +:+ "image/png" +:+ ";base64," +:+ "iVBORw0KGgo="
  /\ "image/png" <> "" /\ "iVBORw0KGgo=" <> "".
Proof.
  apply (parseDataUri_sound "data:image/png;base64,iVBORw0KGgo=").
  vm_compute. reflexivity.
Defined.

Lemma parseDataUri_complete_witness :
  Translate.parseDataUri
    ("data:" +:+ "image/jpeg" +:+ ";base64," +:+ "/9j/4AAQ")
  = Some ("image/jpeg", "/9j/4AAQ").
Proof.
  apply (parseDataUri_complete "image/jpeg" "/9j/4AAQ");
    [done | vm_compute; reflexivity | done | vm_compute; reflexivity].
Defined.


(** ** Shape of the translated request *)

Section RequestFacts.
Import Translate.
Context `{Builtins}.
Variable requestedModelId : option string.
Variable isSafetyEnabled : bool.

#[local] Abbreviation step := (Translate.step requestedModelId isSafetyEnabled).
#[local] Abbreviation transform_messages :=
  (Translate.transform_messages requestedModelId isSafetyEnabled).

Lemma truthy_opt_Some (s : option string) :
  truthy_opt s = true -> exists n, s = Some n /\ n <> "".
Proof.
  destruct s as [n|]; [| done]. simpl. unfold JsString.truthy.
  intros Hn. exists n. split; [done |].
  by apply negb_true_iff, String.eqb_neq in Hn.
Qed.

Lemma push_fits role parts st :
  role = "user" \/ role = "model" ->
  Forall (part_fits role) parts ->
  Forall content_fits (contents st) ->
  Forall content_fits (contents (push role parts st))
  /\ length (contents (push role parts st)) <= S (length (contents st)).
Proof.
  intros Hrole Hparts Hst. destruct parts as [|p parts]; simpl.
  - split; [done | lia].
  - split; [| rewrite length_app; simpl; lia].
    apply Forall_app. split; [done |]. constructor; [| done].
    split; [done |]. split; done.
Qed.

Lemma media_parts_fit role ps : Forall (part_fits role) (media_parts ps).
Proof.
  unfold media_parts. induction ps as [|p ps IH]; [done |].
  cbn [flat_map]. apply Forall_app. split; [| done].
  destruct (is_lit "text" (part_type p)); [by repeat constructor |].
  destruct (is_lit "image_url" (part_type p)); [| done].
  destruct (part_url p) as [imageUrl|]; [| done].
  destruct (parseDataUri imageUrl) as [[mimeType data]|] eqn:Hparse; [| done].
  apply parseDataUri_parts in Hparse as (_ & Hm & Hd).
  by repeat constructor.
Qed.

Lemma text_parts_fit role ps : Forall (part_fits role) (text_parts ps).
Proof.
  unfold text_parts. induction ps as [|p ps IH]; [done |].
  cbn [flat_map]. apply Forall_app. split; [| done].
  destruct (is_lit "text" (part_type p)); by repeat constructor.
Qed.

Lemma plain_parts_fit role msg parts :
  plain_parts msg = Some parts -> Forall (part_fits role) parts.
Proof.
  unfold plain_parts. destruct (msg_content msg); try done.
  - intros [= <-]. by repeat constructor.
  - intros [= <-]. apply media_parts_fit.
Qed.

Lemma call_parts_fit tcs : Forall (part_fits "model") (flat_map call_part tcs).
Proof.
  induction tcs as [|tc tcs IH]; [done |].
  cbn [flat_map]. apply Forall_app. split; [| done].
  unfold call_part. destruct (called_name tc) as [n|] eqn:Hn; [| done].
  destruct (tc_function tc) as [f|] eqn:Hf; [| done].
  repeat constructor. unfold called_name in Hn. rewrite Hf in Hn.
  destruct (is_lit "function" (tc_type tc)); [| done].
  destruct (truthy_opt (fn_name f)) eqn:Ht; [| done].
  apply truthy_opt_Some in Ht as (n' & Hn' & Hne). congruence.
Qed.

Lemma responseObj_object c : exists fs, responseObj c = JObj fs.
Proof.
  unfold responseObj.
  match goal with
  | |- exists fs, match ?r with _ => _ end = _ => destruct r
  end; by eexists.
Qed.

Lemma tool_part_fits m msg : part_fits "user" (tool_part m msg).
Proof.
  unfold tool_part. destruct (truthy_opt (resolve_name m msg)) eqn:Ht;
    [| done].
  apply truthy_opt_Some in Ht as (n & -> & Hne).
  split; [done |]. split; [done |]. apply responseObj_object.
Qed.

Lemma step_fits st msg :
  Forall content_fits (contents st) ->
  Forall content_fits (contents (step st msg))
  /\ length (contents (step st msg)) <= S (length (contents st)).
Proof.
  intros Hst.
  assert (Hwith : forall role, role = "user" \/ role = "model" ->
            let st' := match plain_parts msg with
                       | Some parts => push role parts st
                       | None => st
                       end in
            Forall content_fits (contents st')
            /\ length (contents st') <= S (length (contents st))).
  { intros role Hrole. destruct (plain_parts msg) as [parts|] eqn:Hparts.
    - apply push_fits; [done | | done]. by apply (plain_parts_fit _ msg).
    - split; [done | lia]. }
  unfold Translate.step.
  destruct (is_lit "user" (role msg)); [apply Hwith; by left |].
  destruct (is_lit "assistant" (role msg)).
  { destruct (live_tool_calls msg) as [|tc tcs] eqn:Htcs;
      [apply Hwith; by right |].
    match goal with
    | |- context [push "model" ?parts ?s] =>
        apply (push_fits "model" parts s); [by right | | done]
    end.
    apply Forall_app. split; [apply call_parts_fit |].
    destruct (msg_content msg); try done.
    - destruct (JsString.truthy s); by repeat constructor.
    - apply text_parts_fit. }
  destruct (is_lit "tool" (role msg)).
  { apply push_fits; [by left | | done].
    constructor; [apply tool_part_fits | done]. }
  destruct (is_lit "system" (role msg)); [| split; [done | lia]].
  destruct (system_as_user requestedModelId isSafetyEnabled);
    [apply Hwith; by left |].
  destruct (instruction_of (msg_content msg)); simpl; split; done || lia.
Qed.

Lemma run_fits msgs :
  forall st,
    Forall content_fits (contents st) ->
    Forall content_fits (contents (fold_left step msgs st))
    /\ length (contents (fold_left step msgs st))
       <= length (contents st) + length msgs.
Proof.
  induction msgs as [|msg msgs IH]; intros st Hst; simpl.
  - split; [done | lia].
  - destruct (step_fits st msg Hst) as [Hfit Hlen].
    destruct (IH _ Hfit) as [Hfit' Hlen']. split; [done | lia].
Qed.

(** Every content the translator emits has the role [user] or [model]
    and at least one part; a function call is in a [model] content and
    a function response in a [user] content, both under a name that is
    not empty; the response of a function response is a JSON object;
    inline data have a media type and data that are not empty.  There
    are never more contents than messages. *)
Theorem contents_well_formed (msgs : list message) :
  Forall content_fits (contents (transform_messages msgs))
  /\ length (contents (transform_messages msgs)) <= length msgs.
Proof. apply (run_fits msgs state0). constructor. Qed.

Lemma step_as_user st msg :
  system_as_user requestedModelId isSafetyEnabled = true ->
  step st (as_user msg) = step st msg
  /\ systemInstruction (step st msg) = systemInstruction st.
Proof.
  intros Hsafe. unfold as_user, is_system.
  assert (Hpush : forall role parts s,
            systemInstruction (push role parts s) = systemInstruction s).
  { intros role parts s. by destruct parts. }
  assert (Hkeep : systemInstruction (step st msg) = systemInstruction st).
  { unfold Translate.step. rewrite Hsafe.
    destruct (plain_parts msg) as [parts|]; rewrite ?Hpush;
      repeat match goal with
             | |- context [if ?c then _ else _] => destruct c
             end; rewrite ?Hpush; try done;
      destruct (live_tool_calls msg); rewrite ?Hpush; done. }
  split; [| done].
  destruct (is_lit "system" (role msg)) eqn:Hsys; [| done].
  apply is_lit_true in Hsys. unfold Translate.step. rewrite Hsys, Hsafe.
  done.
Qed.

Lemma run_as_user msgs :
  system_as_user requestedModelId isSafetyEnabled = true ->
  forall st,
    fold_left step (map as_user msgs) st = fold_left step msgs st
    /\ systemInstruction (fold_left step msgs st) = systemInstruction st.
Proof.
  intros Hsafe. induction msgs as [|msg msgs IH]; intros st; [done |].
  simpl. destruct (step_as_user st msg Hsafe) as [-> Hsi].
  destruct (IH (step st msg)) as [-> ->]. done.
Qed.

(** With safety filtering disabled, or with a model whose id begins
    with [gemma], a system message is translated as the same message
    with the role [user] is, and no system instruction is set. *)
Theorem system_treated_as_user (msgs : list message) :
  system_as_user requestedModelId isSafetyEnabled = true ->
  transform_messages msgs = transform_messages (map as_user msgs)
  /\ systemInstruction (transform_messages msgs) = None.
Proof.
  intros Hsafe. destruct (run_as_user msgs Hsafe state0) as [Heq Hsi].
  split; [by symmetry |]. exact Hsi.
Qed.

End RequestFacts.


Section ToolFacts.
Import Translate.
Context `{Builtins}.

Lemma map_all_None {A B} (f : A -> option B) l :
  Schema.map_all f l = None <-> Exists (fun x => f x = None) l.
Proof.
  induction l as [|x l IH]; simpl.
  - split; [done | by inversion 1].
  - destruct (f x) as [y|] eqn:Hx.
    + destruct (Schema.map_all f l) as [ys|].
      * split; [done |]. inversion 1 as [? ? Hhd|? ? Htl]; subst;
          [congruence |]. by apply IH in Htl.
      * split; [| done]. intros _. apply Exists_cons_tl. by apply IH.
    + split; [| done]. intros _. by apply Exists_cons_hd.
Qed.

Lemma sanitizeToolParameters_shape (x : JSON) :
  match x with
  | JObj _ => exists fs, Schema.sanitizeToolParameters x = JObj fs
  | JArr _ => exists items, Schema.sanitizeToolParameters x = JArr items
  | _ => Schema.sanitizeToolParameters x = x
  end.
Proof.
  unfold Schema.sanitizeToolParameters. destruct x; try done.
  - cbn [Schema.sanitize_at]. unfold Schema.sanitize_body. by eexists.
  - cbn [Schema.sanitize_at]. unfold Schema.sanitize_body. by eexists.
Qed.

Lemma translator_parameters_None (p : JSON) :
  Schema.translator_parameters p = None <-> truthy_primitive p = true.
Proof.
  unfold Schema.translator_parameters, truthy_primitive.
  pose proof (sanitizeToolParameters_shape p) as Hshape.
  destruct p as [|b|n|s|items|fs]; cbn [Js.truthy Js.typeof_object negb].
  - done.
  - rewrite Hshape. destruct b; simpl; split; done.
  - rewrite Hshape. cbn [Js.truthy]. destruct (negb (n =? 0)%Z); split; done.
  - rewrite Hshape. cbn [Js.truthy]. destruct (JsString.truthy s); split; done.
  - destruct Hshape as (items' & ->). split; done.
  - pose proof (sanitizeToolParameters_shape (JObj (Js.del "$schema" fs)))
      as (fs' & ->).
    match goal with |- context [if ?c then _ else _] => destruct c end;
      split; done.
Qed.

Lemma declare_None (t : tool) :
  declare t = None
  <-> Exists bad_parameters (function_tools [t]).
Proof.
  unfold declare, function_tools, bad_parameters. cbn [flat_map].
  rewrite app_nil_r.
  destruct (tool_function_of t) as [f|]; [| by split; [| inversion 1]].
  destruct (is_lit "function" (tool_type t)); [| by split; [| inversion 1]].
  destruct (tf_parameters f) as [p|] eqn:Hp.
  - pose proof (translator_parameters_None p) as Hnone.
    destruct (Schema.translator_parameters p) as [parameters|].
    + split; [done |]. inversion 1 as [? ? (q & Hq & Hbad)|? ? Hnil]; subst.
      * rewrite Hp in Hq. injection Hq as <-. apply Hnone in Hbad. done.
      * inversion Hnil.
    + split; [| done]. intros _. constructor. exists p.
      split; [done |]. by apply Hnone.
  - split; [done |]. inversion 1 as [? ? (q & Hq & _)|? ? Hnil]; subst.
    + by rewrite Hp in Hq.
    + inversion Hnil.
Qed.

Lemma function_tools_cons t ts :
  function_tools (t :: ts) = function_tools [t] ++ function_tools ts.
Proof. unfold function_tools. simpl. by rewrite app_nil_r. Qed.

(** On a request of the data model (messages, content parts, tool calls
    and tools are objects), the translator throws exactly when a tool of
    type [function] has [parameters] that are a truthy value other than
    an object or an array: a number other than 0, a string that is not
    empty, or [true].  Messages and tool choice never make it throw. *)
Theorem translator_throws_exactly (requestBody : request)
    (requestedModelId : option string) (isSafetyEnabled : bool) :
  transformOpenAiToGemini requestBody requestedModelId isSafetyEnabled = None
  <-> Exists bad_parameters (function_tools (declared (tools requestBody))).
Proof.
  unfold transformOpenAiToGemini. fold (declared (tools requestBody)).
  assert (Hall : forall ts,
            Schema.map_all declare ts = None
            <-> Exists bad_parameters (function_tools ts)).
  { intros ts. rewrite map_all_None.
    induction ts as [|t ts IH].
    - split; inversion 1.
    - rewrite function_tools_cons, Exists_app, <- IH, <- declare_None.
      split.
      + inversion 1; subst; auto.
      + intros [Ht | Hts]; [by constructor | by apply Exists_cons_tl]. }
  specialize (Hall (declared (tools requestBody))).
  destruct (Schema.map_all declare (declared (tools requestBody))).
  - split; [done |]. intros Hbad. by apply Hall in Hbad.
  - split; [| done]. intros _. by apply Hall.
Qed.

Lemma declare_Some t ds :
  declare t = Some ds ->
  map d_name ds = map tf_name (function_tools [t])
  /\ map d_description ds = map tf_description (function_tools [t])
  /\ Forall2 (fun f d => d_parameters d = None
                         <-> Js.otruthy (tf_parameters f) = false)
       (function_tools [t]) ds.
Proof.
  unfold declare, function_tools. cbn [flat_map]. rewrite app_nil_r.
  destruct (tool_function_of t) as [f|];
    [| intros [= <-]; repeat split; constructor].
  destruct (is_lit "function" (tool_type t));
    [| intros [= <-]; repeat split; constructor].
  destruct (tf_parameters f) as [p|] eqn:Hp.
  - destruct (Schema.translator_parameters p) as [parameters|] eqn:Hpar;
      [| done].
    intros [= <-]. split; [done |]. split; [done |].
    constructor; [| constructor]. cbn [d_parameters]. rewrite Hp.
    cbn [Js.otruthy]. unfold Schema.translator_parameters in Hpar.
    destruct (Js.truthy p).
    + split; [| done]. intros ->. revert Hpar.
      repeat match goal with
             | |- context [match ?x with _ => _ end] => destruct x
             end; done.
    + injection Hpar as <-. done.
  - intros [= <-]. split; [done |]. split; [done |].
    constructor; [| constructor]. cbn [d_parameters]. by rewrite Hp.
Qed.

(** When the translator returns, the function declarations it emits are
    those of the tools of type [function], in their order, each with the
    name and the description of its tool; a declaration has no
    [parameters] exactly when its tool's are missing or falsy; and
    [tools] is left undefined rather than empty. *)
Theorem declarations_mirror_tools (requestBody : request)
    (requestedModelId : option string) (isSafetyEnabled : bool)
    (r : gemini_request) :
  transformOpenAiToGemini requestBody requestedModelId isSafetyEnabled
  = Some r ->
  let fs := function_tools (declared (tools requestBody)) in
  let ds := declared (r_tools r) in
  r_tools r <> Some []
  /\ map d_name ds = map tf_name fs
  /\ map d_description ds = map tf_description fs
  /\ Forall2 (fun f d => d_parameters d = None
                         <-> Js.otruthy (tf_parameters f) = false) fs ds.
Proof.
  unfold transformOpenAiToGemini. fold (declared (tools requestBody)).
  destruct (Schema.map_all declare (declared (tools requestBody)))
    as [dss|] eqn:Hall; [| done].
  intros [= <-]. cbn [r_tools].
  assert (Hds : forall l : list declaration,
            declared (match l with [] => None | _ :: _ => Some l end) = l
            /\ match l with [] => None | _ :: _ => Some l end <> Some []).
  { intros l. by destruct l. }
  destruct (Hds (concat dss)) as [-> Hne]. split; [exact Hne |].
  clear Hds Hne. apply map_all_Some in Hall.
  induction Hall as [|t ds ts dss Ht _ IH].
  - repeat split; constructor.
  - rewrite function_tools_cons. cbn [concat]. rewrite !map_app.
    destruct IH as (IH1 & IH2 & IH3).
    apply declare_Some in Ht as (Ht1 & Ht2 & Ht3).
    rewrite IH1, IH2, Ht1, Ht2. split; [done |]. split; [done |].
    by apply Forall2_app.
Qed.

(** A tool configuration is emitted only beside function declarations
    and for a tool choice that is not falsy.  Its mode is [AUTO],
    [NONE] or [ANY]; it names allowed functions exactly in mode [ANY],
    and then one function, under a name that is not empty. *)
Theorem tool_config_shape (requestBody : request)
    (requestedModelId : option string) (isSafetyEnabled : bool)
    (r : gemini_request) (cfg : functionCallingConfig) :
  transformOpenAiToGemini requestBody requestedModelId isSafetyEnabled
  = Some r ->
  r_toolConfig r = Some cfg ->
  r_tools r <> None
  /\ tool_choice_of requestBody <> None
  /\ (mode cfg = "AUTO" /\ allowedFunctionNames cfg = None
      \/ mode cfg = "NONE" /\ allowedFunctionNames cfg = None
      \/ exists n, n <> "" /\ mode cfg = "ANY"
                   /\ allowedFunctionNames cfg = Some [n]).
Proof.
  unfold transformOpenAiToGemini.
  destruct (Schema.map_all declare _) as [dss|]; [| done].
  intros [= <-]. cbn [r_tools r_toolConfig].
  destruct (tool_choice_of requestBody) as [c|]; [| done].
  destruct (concat dss) as [|d ds].
  { by destruct c as [[|]| |]. }
  intros Hcfg. split; [done |]. split; [done |].
  assert (Hc : tool_config c = cfg /\ c <> ChoiceString "").
  { destruct c as [[|a s]| |]; try discriminate Hcfg;
      injection Hcfg as Hcfg; split; done. }
  destruct Hc as [<- Hc]. clear Hcfg.
  destruct c as [s|type function_name|]; cbn [tool_config].
  - destruct (s =? "auto")%string; [by left |].
    destruct (s =? "none")%string; [by right; left |].
    right; right. exists s. split; [congruence | done].
  - destruct (is_lit "function" type); [| by left].
    destruct function_name as [n|]; [| by left].
    destruct (JsString.truthy n) eqn:Hn; [| by left].
    right; right. exists n. split; [| done].
    unfold JsString.truthy in Hn.
    by apply negb_true_iff, String.eqb_neq in Hn.
  - by left.
Qed.

End ToolFacts.


(** ** Tool calls of a translated response *)

Section ToolCallFacts.
Import Response.
Context `{Builtins}.

Lemma run_prefix_unique {A} (P : A -> Prop) (x : A) (p1 p2 r1 r2 : list A) :
  ~ P x -> Forall P p1 -> Forall P p2 ->
  p1 ++ x :: r1 = p2 ++ x :: r2 -> p1 = p2.
Proof.
  intros Hx H1. revert p2.
  induction H1 as [|u p1 Hu _ IH]; intros p2 H2 Heq.
  - destruct H2 as [|v p2 Hv _]; [done |].
    simpl in Heq. injection Heq as -> _. done.
  - destruct H2 as [|v p2 Hv H2].
    + simpl in Heq. injection Heq as -> _. done.
    + simpl in Heq. injection Heq as -> Heq. f_equal. by apply IH.
Qed.

Lemma run_suffix_unique {A} (P : A -> Prop) (x : A) (l1 l2 d1 d2 : list A) :
  ~ P x -> Forall P d1 -> Forall P d2 ->
  l1 ++ x :: d1 = l2 ++ x :: d2 -> d1 = d2.
Proof.
  intros Hx H1 H2 Heq. apply (f_equal (@rev A)) in Heq.
  rewrite !rev_app_distr in Heq. simpl in Heq.
  rewrite <- !app_assoc in Heq. simpl in Heq.
  apply (run_prefix_unique P) in Heq; [by apply rev_inj | done | |];
    by apply Forall_rev.
Qed.

Lemma list_ascii_app (a b : string) :
  list_ascii_of_string (a +:+ b)
  = list_ascii_of_string a ++ list_ascii_of_string b.
Proof. induction a as [|c a IH]; simpl; [done | by rewrite IH]. Qed.

Lemma show_Z_nat_digits (i : nat) :
  Forall (fun c => JsString.is_digit c = true)
    (list_ascii_of_string (show_Z (Z.of_nat i))).
Proof.
  rewrite <- nat_N_Z, show_Z_of_N.
  induction (N.to_uint (N.of_nat i)); simpl; by constructor.
Qed.

Lemma show_Z_nat_inj (i j : nat) :
  show_Z (Z.of_nat i) = show_Z (Z.of_nat j) -> i = j.
Proof.
  rewrite <- !nat_N_Z. intros Heq. apply Nat2N.inj, decimal_inj.
  unfold Names.decimal. by rewrite Heq.
Qed.

Lemma call_id_inj now_ms i j f f' :
  call_id now_ms i f = call_id now_ms j f' -> i = j.
Proof.
  unfold call_id. intros Heq. apply show_Z_nat_inj.
  apply (f_equal list_ascii_of_string) in Heq.
  rewrite !list_ascii_app in Heq.
  rewrite !app_assoc in Heq.
  change (list_ascii_of_string "_") with ["_"%char] in Heq.
  rewrite <- !(app_assoc _ ["_"%char]
                 (list_ascii_of_string (show_Z (Z.of_nat _)))) in Heq.
  cbn [app] in Heq. revert Heq.
  match goal with
  | |- ?l1 ++ _ :: ?d1 = ?l2 ++ _ :: ?d2 -> _ =>
      intros Heq;
      apply (run_suffix_unique (fun c => JsString.is_digit c = true))
        in Heq; [| done | apply show_Z_nat_digits | apply show_Z_nat_digits]
  end.
  apply (f_equal string_of_list_ascii) in Heq.
  by rewrite !string_of_list_ascii_of_string in Heq.
Qed.

Lemma mapi_In {A B} (g : nat -> A -> B) l :
  forall i y, In y (mapi g i l) -> exists j x, i <= j /\ y = g j x.
Proof.
  induction l as [|x l IH]; intros i y; simpl; [done |].
  intros [<- | Hin]; [by exists i, x |].
  destruct (IH _ _ Hin) as (j & x' & Hj & ->). exists j, x'.
  split; [lia | done].
Qed.

Lemma mapi_NoDup {A B} (g : nat -> A -> B) l :
  (forall i j x y, g i x = g j y -> i = j) ->
  forall i, List.NoDup (mapi g i l).
Proof.
  intros Hinj. induction l as [|x l IH]; intros i; simpl; constructor.
  - intros Hin. apply mapi_In in Hin as (j & y & Hj & Heq).
    apply Hinj in Heq. lia.
  - apply IH.
Qed.

Lemma mapi_map {A B C} (h : B -> C) (g : nat -> A -> B) l :
  forall i, map h (mapi g i l) = mapi (fun i x => h (g i x)) i l.
Proof. induction l as [|x l IH]; intros i; simpl; [done | by rewrite IH]. Qed.

Lemma mapi_length {A B} (g : nat -> A -> B) l :
  forall i, length (mapi g i l) = length l.
Proof. induction l as [|x l IH]; intros i; simpl; [done | by rewrite IH]. Qed.

Lemma completion_tool_calls r modelId now_ms rand :
  tool_calls_in "message" (completion r modelId now_ms rand)
  = mapi (fun idx f =>
            JObj [("id", JStr (call_id now_ms idx f));
                  ("type", JStr "function");
                  ("function", function_json f)]) 0 (first_calls r).
Proof.
  unfold completion, first_calls, tool_calls_in.
  destruct (candidates r) as [[|c rest]|].
  - destruct (blockReason r) as [b|]; [destruct (JsString.truthy b) |];
      destruct modelId; reflexivity.
  - destruct (functionCallParts c); destruct modelId; reflexivity.
  - destruct (blockReason r) as [b|]; [destruct (JsString.truthy b) |];
      destruct modelId; reflexivity.
Qed.

Lemma stream_chunk_tool_calls r modelId now_ms rand o :
  stream_chunk r modelId now_ms rand = Some o ->
  tool_calls_in "delta" o
  = mapi (fun idx f =>
            JObj [("index", JNum (Z.of_nat idx));
                  ("id", JStr (call_id now_ms idx f));
                  ("type", JStr "function");
                  ("function", function_json f)]) 0 (first_calls r).
Proof.
  unfold stream_chunk, first_calls, tool_calls_in.
  destruct (candidates r) as [[|c rest]|]; [done | | done].
  destruct (functionCallParts c) as [|f fs].
  - destruct (cand_content c) as [ct|]; [destruct (role ct) as [ro|] |];
      destruct (contentText c);
      try destruct (JsString.truthy ro);
      destruct (stream_finish_reason (finishReason c) false);
      try done; intros [= <-]; destruct modelId; reflexivity.
  - destruct (cand_content c) as [ct|]; [destruct (role ct) as [ro|] |];
      destruct (contentText c);
      try destruct (JsString.truthy ro);
      destruct (stream_finish_reason (finishReason c) true);
      try done; intros [= <-]; destruct modelId; reflexivity.
Qed.

(** The tool calls of a translated response are the function calls of
    the first candidate, one each, and their ids are pairwise
    different, in a complete response and in a streamed chunk. *)
Theorem tool_call_ids_distinct (r : gemini_response)
    (modelId : option string) (now_ms : Z) (rand : string) :
  (let tcs := tool_calls_in "message" (completion r modelId now_ms rand) in
   length tcs = length (first_calls r)
   /\ List.NoDup (map (Js.field "id") tcs))
  /\ (forall o,
        stream_chunk r modelId now_ms rand = Some o ->
        let tcs := tool_calls_in "delta" o in
        length tcs = length (first_calls r)
        /\ List.NoDup (map (Js.field "id") tcs)).
Proof.
  split.
  - rewrite completion_tool_calls. split; [apply mapi_length |].
    rewrite mapi_map. apply mapi_NoDup.
    intros i j f f' Heq. apply (call_id_inj now_ms i j f f').
    change (Some (JStr (call_id now_ms i f))
            = Some (JStr (call_id now_ms j f'))) in Heq. congruence.
  - intros o Ho. rewrite (stream_chunk_tool_calls _ _ _ _ _ Ho).
    split; [apply mapi_length |].
    rewrite mapi_map. apply mapi_NoDup.
    intros i j f f' Heq. apply (call_id_inj now_ms i j f f').
    change (Some (JStr (call_id now_ms i f))
            = Some (JStr (call_id now_ms j f'))) in Heq. congruence.
Qed.

End ToolCallFacts.


Section RoundTripFacts.
Import Response.
Context `{Builtins}.

Lemma as_tool_call_of_response now_ms idx f :
  as_tool_call (JObj [("id", JStr (call_id now_ms idx f));
                      ("type", JStr "function");
                      ("function", function_json f)])
  = {| Translate.tc_id := Some (call_id now_ms idx f);
       Translate.tc_type := Some "function";
       Translate.tc_function :=
         Some {| Translate.fn_name := fc_name f;
                 Translate.fn_arguments :=
                   Some (JSON_stringify (args_or_empty f)) |} |}.
Proof.
  unfold as_tool_call, function_json, args_or_empty.
  by destruct (fc_name f).
Qed.

Lemma call_part_of_response now_ms idx f n :
  fc_name f = Some n -> n <> "" ->
  JSON_stringify (args_or_empty f) <> "" ->
  JSON_parse (JSON_stringify (args_or_empty f)) = Some (args_or_empty f) ->
  Translate.call_part
    (as_tool_call (JObj [("id", JStr (call_id now_ms idx f));
                         ("type", JStr "function");
                         ("function", function_json f)]))
  = [Translate.PFunctionCall n (args_or_empty f)].
Proof.
  intros Hn Hne Hstr Hparse. rewrite as_tool_call_of_response.
  unfold Translate.call_part, Translate.called_name.
  cbn [Translate.tc_type Translate.tc_function Translate.fn_name
       Translate.fn_arguments].
  rewrite Hn.
  replace (Translate.is_lit "function" (Some "function")) with true
    by reflexivity.
  cbn [Translate.truthy_opt]. unfold JsString.truthy.
  apply String.eqb_neq in Hne, Hstr. rewrite Hne, Hstr. cbn [negb].
  by rewrite Hparse.
Qed.

(** A function call of the upstream response, sent back by the client
    as the tool call the complete-response translator made of it, is
    translated into the same function call again: the same name and the
    same arguments (an empty object for missing ones), provided the name
    is not empty and [JSON.parse] reads back what [JSON.stringify] wrote
    for the arguments. *)
Theorem function_call_round_trip (r : gemini_response)
    (modelId : option string) (now_ms : Z) (rand : string) :
  Forall (fun f =>
            (exists n, fc_name f = Some n /\ n <> "")
            /\ JSON_stringify (args_or_empty f) <> ""
            /\ JSON_parse (JSON_stringify (args_or_empty f))
               = Some (args_or_empty f))
    (first_calls r) ->
  flat_map (fun v => Translate.call_part (as_tool_call v))
    (tool_calls_in "message" (completion r modelId now_ms rand))
  = map (fun f => Translate.PFunctionCall (show_opt (fc_name f))
                    (args_or_empty f))
      (first_calls r).
Proof.
  rewrite completion_tool_calls. generalize 0.
  induction (first_calls r) as [|f fs IH]; intros i Hall; [done |].
  inversion Hall as [|? ? ((n & Hn & Hne) & Hstr & Hparse) Hrest]; subst.
  cbn [mapi flat_map map].
  rewrite (call_part_of_response now_ms i f n) by done.
  rewrite IH by done. by rewrite Hn.
Qed.

End RoundTripFacts.


(** ** The embedding translator *)

Section EmbeddingFacts.
Import Embedded.




End EmbeddingFacts.


(** ** What the route-level pass leaves, and when it throws *)

Section RoutePassFacts.
Import Schema.

Lemma normal_pruned y : normal y -> everywhere pruned y.
Proof.
  induction y as [| | | |items IH|fs IH] using JSON_nested_ind;
    intros Hy; inversion Hy as [| | | |? Hitems|? Hv Hk He Ht Hc]; subst;
    constructor; try done.
  - rewrite List.Forall_forall in IH, Hitems |- *. auto.
  - split; [| done]. intros k Hk'. unfold Js.has.
    destruct (Js.get k fs) as [v|] eqn:Hget; [| done].
    apply get_Some_In in Hget. rewrite List.Forall_forall in Hk.
    specialize (Hk _ Hget). simpl in Hk.
    unfold dropped_keys in Hk'. simpl in Hk'.
    repeat destruct Hk' as [<- | Hk']; try done.
  - rewrite List.Forall_forall in IH, Hv |- *. auto.
Qed.

Lemma pruned_root_type y : everywhere pruned y -> everywhere pruned (root_type y).
Proof.
  intros Hy. destruct y as [| | | | |fs]; try done. simpl.
  destruct (negb (Js.otruthy (Js.get "type" fs)) && looksObject fs) eqn:Hc;
    [| done].
  inversion Hy as [| | | | |? (Hdrop & Hcomb & Htype) Hv]; subst.
  constructor.
  - split; [| split].
    + intros k Hk. specialize (Hdrop k Hk). unfold Js.has in *.
      rewrite get_set_ne; [done |].
      unfold dropped_keys in Hk. simpl in Hk.
      repeat destruct Hk as [<- | Hk]; done.
    + unfold first_combinator in *. by rewrite !get_set_ne.
    + left. unfold Js.has. by rewrite get_set_eq.
  - apply Forall_js_set; [done | constructor].
Qed.

(** What the route-level pass returns has, at no depth, any of the keys
    [$schema], [$defs], [$ref], [additionalProperties],
    [patternProperties], [definitions], nor an array under [anyOf],
    [oneOf] or [allOf]; and every object of it that has truthy
    [properties] or [required], or [items], has a [type].  The same
    holds of what the route leaves in a tool's [parameters]. *)
Theorem route_pass_prunes (parameters y : JSON) :
  (transformJsonSchemaFields parameters = Some y -> everywhere pruned y)
  /\ (Js.truthy parameters = true ->
      route_parameters parameters = Some y -> everywhere pruned y).
Proof.
  split.
  - intros Hy. apply normal_pruned. by eapply transform_normal.
  - unfold route_parameters. intros ->.
    destruct (transformJsonSchemaFields parameters) as [z|] eqn:Hz; [| done].
    intros [= <-]. apply pruned_root_type, normal_pruned.
    by eapply transform_normal.
Qed.

Lemma defs_get_In name (d : defs) target target_id :
  defs_get name d = Some (target, target_id) ->
  In (name, (target, target_id)) d.
Proof.
  induction d as [|[k v] d IH]; simpl; [done |].
  destruct (String.eqb_spec k name) as [-> |]; [| auto].
  intros [= ->]. by left.
Qed.

Lemma defs_of_good (P : list (string * JSON) -> Prop) self key fs :
  Forall (fun kv => everywhere P (snd kv)) fs ->
  Forall (fun e => everywhere P (fst (snd e))) (defs_of self key fs).
Proof.
  intros Hfs. unfold defs_of.
  destruct (Js.get key fs) as [v|] eqn:Hget; [| done].
  destruct (Js.truthy v); [| done].
  apply get_Some_In in Hget. rewrite List.Forall_forall in Hfs.
  specialize (Hfs _ Hget). simpl in Hfs.
  apply Forall_map.
  assert (Hspread : Forall (fun kv => everywhere P (snd kv)) (spread v)).
  { destruct v as [| | |s|items|fs']; simpl; try done.
    - apply Forall_indexed. clear Hfs Hget.
      induction s as [|c s IH]; simpl; constructor; [constructor | done].
    - apply Forall_indexed. by inversion Hfs.
    - by inversion Hfs. }
  eapply List.Forall_impl; [| exact Hspread]. by intros [k x].
Qed.

Lemma transform_total (fuel : nat) :
  forall d v s x,
    everywhere ref_is_string x ->
    Forall (fun e => everywhere ref_is_string (fst (snd e))) d ->
    exists y, transform_at fuel d v s x = Some y.
Proof.
  induction fuel as [|fuel IH]; intros d v s x Hx Hd; simpl; [eauto |].
  unfold transform_body.
  inversion Hx as [| | | |items Hitems|fs Href Hv]; subst; eauto.
  - destruct (visited_has v s); [eauto |].
    destruct (map_all_is_Some
                (fun '(k, item) =>
                   transform_at fuel d (visited_add v s) (child s k) item)
                (indexed 0 items)) as [ys Hys].
    { eapply List.Forall_impl;
        [| exact (Forall_indexed (everywhere ref_is_string) 0 items Hitems)].
      intros [k item] Hn. by apply IH. }
    rewrite Hys. simpl. eauto.
  - destruct (visited_has v s); [eauto |].
    assert (Hdefs : Forall (fun e => everywhere ref_is_string (fst (snd e)))
                      (currentLevelDefs d s fs)).
    { unfold currentLevelDefs. rewrite !Forall_app.
      split; [by apply defs_of_good |]. split; [by apply defs_of_good | done]. }
    set (ref := match Js.get "$ref" fs with
                | Some r => if Js.truthy r then Some r else None
                | None => None
                end).
    assert (Hcases : ref = None \/ exists refPath, ref = Some (JStr refPath)).
    { subst ref. unfold ref_is_string in Href.
      destruct (Js.get "$ref" fs) as [r|]; [| by left].
      destruct (Js.truthy r) eqn:Htr; [| by left].
      destruct Href as [Hf | Hstr]; [congruence |].
      destruct r as [| | |refPath| |]; try done. right. by exists refPath. }
    clearbody ref. destruct Hcases as [-> | (refPath & ->)].
    + destruct (map_all_is_Some
                  (fun '(key, v0) =>
                     option_map (pair key)
                       (transform_at fuel (currentLevelDefs d s fs)
                          (visited_add v s) (child s key) v0))
                  (List.filter (fun '(key, _) => negb (skipped_key key)) fs))
        as [t Ht].
      { apply List.Forall_forall. intros [key v0] Hin.
        apply filter_In in Hin as [Hin _].
        rewrite List.Forall_forall in Hv. specialize (Hv _ Hin).
        destruct (IH (currentLevelDefs d s fs) (visited_add v s)
                    (child s key) v0 Hv Hdefs) as [y ->].
        simpl. eauto. }
      rewrite Ht. clear Ht.
      repeat match goal with
             | |- context [match ?x with _ => _ end] => destruct x
             end; eauto.
    + destruct (ref_name refPath) as [defName|]; [| eauto].
      destruct (defs_get defName (currentLevelDefs d s fs))
        as [[target target_id]|] eqn:Hget; [| eauto].
      destruct (Js.truthy target); [| eauto].
      apply IH; [| done].
      apply defs_get_In in Hget. rewrite List.Forall_forall in Hdefs.
      exact (Hdefs _ Hget).
Qed.

(** The route-level pass throws on no schema whose truthy [$ref]s are
    all strings; it does throw on an object whose [$ref] is a truthy
    value of another type. *)
Theorem route_pass_throws_on_ref_only :
  (forall schemaObj,
      everywhere ref_is_string schemaObj ->
      exists y, transformJsonSchemaFields schemaObj = Some y)
  /\ (forall fs r,
        Js.get "$ref" fs = Some r -> Js.truthy r = true ->
        is_string r = false ->
        transformJsonSchemaFields (JObj fs) = None).
Proof.
  split.
  - intros schemaObj Hrefs. by apply transform_total.
  - intros fs r Hr Htr Hstr. unfold transformJsonSchemaFields.
    cbn [transform_at]. unfold transform_body.
    change (visited_has [] (Some [])) with false. cbn iota.
    rewrite Hr, Htr. by destruct r.
Qed.

End RoutePassFacts.


(** ** What the client receives of a streamed body *)

Section StreamOutputFacts.
Context `{Builtins}.
Variable vertex : bool.
Variable requestedModelId : option string.
Variable now_ms : Z.
Variable rand : string.

#[local] Abbreviation handle :=
  (Stream.handle vertex requestedModelId now_ms rand).
#[local] Abbreviation run := (Stream.run vertex requestedModelId now_ms rand).

(** What [transform] pushes for one extracted object, on the branch
    taken. *)
#[local] Abbreviation push :=
  (if vertex then Stream.vertex_push
   else Stream.gemini_push requestedModelId now_ms rand).
#[local] Abbreviation step :=
  (if vertex then Chunker.vertex_transform else Chunker.gemini_transform).

Lemma write_live frame r :
  live r ->
  live (Stream.write frame r)
  /\ Stream.written (Stream.write frame r) = Stream.written r ++ [frame].
Proof. intros [He Hd]. unfold Stream.write. rewrite He, Hd. by split. Qed.





End StreamOutputFacts.


(** ** Keep-alive mode *)

Section KeepAliveFacts.
Import Stream.
Context `{Builtins}.
Variable requestedModelId : option string.
Variable now_ms : Z.
Variable rand : string.

#[local] Abbreviation ka_handle :=
  (Stream.ka_handle requestedModelId now_ms rand).
#[local] Abbreviation ka_run := (Stream.ka_run requestedModelId now_ms rand).

Lemma closed_stays_silent beats :
  forall k,
    isConnectionClosed k = true ->
    Forall (fun e => delivery e = false) beats ->
    ka_res (fold_left ka_handle beats k) = ka_res k.
Proof.
  induction beats as [|e beats IH]; intros k Hk Hbeats; [done |].
  inversion Hbeats as [|? ? He Hrest]; subst. cbn [fold_left].
  assert (Hstep : isConnectionClosed (ka_handle k e) = true
                  /\ ka_res (ka_handle k e) = ka_res k).
  { destruct e; try discriminate He; cbn [Stream.ka_handle].
    - unfold sendKeepAliveSseChunk. cbn [isConnectionClosed].
      by rewrite Hk.
    - destruct (timer k); [| done].
      unfold sendKeepAliveSseChunk. by rewrite Hk.
    - done. }
  destruct Hstep as [Hk' Hres]. by rewrite IH, Hres.
Qed.

(** Once the heartbeat has been stopped no heartbeat is written again:
    whatever starts, ticks and stops of it follow, the client is
    written nothing more. *)
Theorem heartbeat_silent_after_stop (events beats : list ka_event) :
  Forall (fun e => delivery e = false) beats ->
  written (ka_res (ka_run (events ++ StopHeartbeat :: beats)))
  = written (ka_res (ka_run events)).
Proof.
  intros Hbeats. unfold Stream.ka_run. rewrite fold_left_app.
  cbn [fold_left]. by rewrite closed_stays_silent.
Qed.

Lemma completion_final_fields r :
  final_fields (Response.completion r requestedModelId now_ms rand)
  = Some (content_in "message"
            (Response.completion r requestedModelId now_ms rand),
          Response.finish_reason_of
            (Response.completion r requestedModelId now_ms rand)).
Proof.
  unfold Response.completion, final_fields, content_in,
    Response.finish_reason_of.
  destruct (Response.candidates r) as [[|c rest]|].
  - destruct (Response.blockReason r) as [b|]; [destruct (JsString.truthy b) |];
      destruct requestedModelId; reflexivity.
  - destruct (Response.functionCallParts c); destruct requestedModelId;
      reflexivity.
  - destruct (Response.blockReason r) as [b|]; [destruct (JsString.truthy b) |];
      destruct requestedModelId; reflexivity.
Qed.

(** In keep-alive mode, when [JSON.parse] reads back the translated
    response, the final response is delivered as two frames and the end
    of the stream: a chunk whose [delta] holds the content of the
    translated message (the empty string for a falsy one) and whose
    finish reason is the translated one ([stop] for a falsy one), then
    [[DONE]].  That chunk carries no tool calls, whatever function
    calls the response holds. *)
Theorem keepalive_final_frame (responseData : Response.gemini_response)
    (k : keepalive) :
  let o := Response.completion responseData requestedModelId now_ms rand in
  res_closed (ka_res k) = false -> ended k = false ->
  JSON_parse (JSON_stringify o) = Some o ->
  exists frame,
    written (ka_res (sendFinalResponse requestedModelId now_ms rand
                       responseData k))
    = written (ka_res k)
      ++ [Response.sse (JSON_stringify frame); Response.DONE]
    /\ writableEnded (ka_res (sendFinalResponse requestedModelId now_ms rand
                                responseData k)) = true
    /\ content_in "delta" frame
       = Some (or_default (content_in "message" o) (JStr ""))
    /\ Response.finish_reason_of frame
       = Some (or_default (Response.finish_reason_of o) (JStr "stop"))
    /\ tool_calls_in "delta" frame = [].
Proof.
  intros o Hopen Hended Hparse. unfold sendFinalResponse.
  rewrite Hopen. unfold Response.transformGeminiResponseToOpenAI.
  fold o. rewrite Hparse. subst o. rewrite completion_final_fields.
  assert (Hlive : live (ka_res k)).
  { unfold res_closed in Hopen. by apply orb_false_elim in Hopen. }
  assert (Hdeliver : forall frame,
            let r := ka_res (ka_end (ka_push Response.DONE
                                       (ka_push frame k))) in
            written r = written (ka_res k) ++ [frame; Response.DONE]
            /\ writableEnded r = true).
  { intros frame. unfold ka_push, ka_end. rewrite Hended.
    cbn [ended ka_res].
    destruct (write_live frame (ka_res k) Hlive) as [Hlive1 Hw1].
    destruct (write_live Response.DONE _ Hlive1) as [[He2 Hd2] Hw2].
    unfold Stream.end_. rewrite Hd2. cbn [written writableEnded].
    rewrite Hw2, Hw1, <- app_assoc. done. }
  eexists. split; [apply Hdeliver |]. split; [apply Hdeliver |].
  split; [| split].
  - unfold content_in. by destruct requestedModelId.
  - unfold Response.finish_reason_of. by destruct requestedModelId.
  - unfold tool_calls_in. by destruct requestedModelId.
Qed.

End KeepAliveFacts.


(** ** What the translator's sanitizer leaves at an object *)

Section TranslatorPassFacts.
Import Schema.
Context `{Builtins}.

Lemma get_del_all_out k keys s :
  ~ In k keys -> Js.get k (del_all keys s) = Js.get k s.
Proof.
  unfold del_all. revert s.
  induction keys as [|k' keys IH]; intros s Hout; [done |].
  cbn [fold_left]. rewrite IH by (intros Hin; apply Hout; by right).
  apply get_del_ne. intros ->. apply Hout. by left.
Qed.

Lemma get_del_none k k' s : Js.get k s = None -> Js.get k (Js.del k' s) = None.
Proof.
  intros Hs. destruct (decide (k = k')) as [-> | Hne].
  - apply get_del_eq.
  - by rewrite get_del_ne.
Qed.

Lemma get_del_all_none k keys s :
  Js.get k s = None -> Js.get k (del_all keys s) = None.
Proof.
  unfold del_all. revert s.
  induction keys as [|k' keys IH]; intros s Hs; [done |].
  cbn [fold_left]. by apply IH, get_del_none.
Qed.

Lemma get_del_all_in k keys s :
  In k keys -> Js.get k (del_all keys s) = None.
Proof.
  revert s. induction keys as [|k' keys IH]; intros s Hin; [done |].
  destruct Hin as [-> | Hin].
  - change (del_all (k :: keys) s) with (del_all keys (Js.del k s)).
    apply get_del_all_none, get_del_eq.
  - change (del_all (k' :: keys) s) with (del_all keys (Js.del k' s)).
    by apply IH.
Qed.

Lemma get_const_to_enum k s :
  k <> "enum" -> k <> "const" ->
  Js.get k (const_to_enum s) = Js.get k s.
Proof.
  intros H1 H2. unfold const_to_enum. destruct (Js.get "const" s); [| done].
  by rewrite get_set_ne, get_del_ne.
Qed.

Lemma get_rename k old new s :
  k <> old -> k <> new -> Js.get k (rename old new s) = Js.get k s.
Proof.
  intros H1 H2. unfold rename. destruct (Js.get old s); [| done].
  by rewrite get_del_ne, get_set_ne.
Qed.

Lemma get_rename_old old new s :
  Js.get old (rename old new s) = None.
Proof.
  unfold rename. destruct (Js.get old s) eqn:Hold; [| done].
  apply get_del_eq.
Qed.

Lemma get_sanitize_combinator k rec key s :
  k <> key -> k <> "type" ->
  Js.get k (sanitize_combinator rec key s) = Js.get k s.
Proof.
  intros H1 H2. unfold sanitize_combinator.
  destruct (Js.get key s) as [v|]; [| done].
  destruct (Js.truthy v); [| done].
  repeat match goal with
         | |- context [if ?c then _ else _] => destruct c
         end; by rewrite ?get_set_ne.
Qed.

Lemma get_type_handling k s :
  k <> "type" -> k <> "anyOf" -> Js.get k (type_handling s) = Js.get k s.
Proof.
  intros H1 H2. unfold type_handling.
  destruct (Js.get "type" s) as [[| | |t|ts|]|]; try done.
  - destruct (supported (JStr t)); [done | by rewrite get_del_ne].
  - destruct (List.filter supported ts) as [|t [|t' l]].
    + by rewrite get_del_ne.
    + by rewrite get_set_ne.
    + by rewrite get_set_ne, get_del_ne.
Qed.

Lemma get_infer_missing_type k s :
  k <> "type" -> Js.get k (infer_missing_type s) = Js.get k s.
Proof.
  intros H1. unfold infer_missing_type.
  repeat match goal with
         | |- context [if ?c then _ else _] => destruct c
         end; by rewrite ?get_set_ne.
Qed.

Lemma get_object_specifics k rec s :
  k <> "properties" -> k <> "required" -> k <> "additionalProperties" ->
  Js.get k (object_specifics rec s) = Js.get k s.
Proof.
  intros H1 H2 H3. unfold object_specifics.
  match goal with
  | |- context [if ?c then _ else _] => destruct c; [| done]
  end.
  assert (Hp : forall s0 : list (string * JSON),
            Js.get k match Js.get "properties" s0 with
                     | Some (JObj props) =>
                         Js.set "properties"
                           (JObj (map (fun '(prop, sub) => (prop, rec sub))
                                    props)) s0
                     | Some (JArr props) =>
                         Js.set "properties" (JArr (map rec props)) s0
                     | _ => s0
                     end = Js.get k s0).
  { intros s0. destruct (Js.get "properties" s0) as [[]|];
      by rewrite ?get_set_ne. }
  assert (Hr : forall s0 : list (string * JSON),
            Js.get k match Js.get "required" s0 with
                     | Some (JArr req) =>
                         Js.set "required" (JArr (List.filter is_string req))
                           s0
                     | _ => s0
                     end = Js.get k s0).
  { intros s0. destruct (Js.get "required" s0) as [[]|];
      by rewrite ?get_set_ne. }
  match goal with
  | |- Js.get k match Js.get "additionalProperties" ?s1 with _ => _ end = _ =>
      transitivity (Js.get k s1);
      [destruct (Js.get "additionalProperties" s1) as [[]|];
         by rewrite ?get_set_ne |]
  end.
  by rewrite Hr, Hp.
Qed.

Lemma get_coerce_number k k' s :
  k <> k' -> Js.get k (coerce_number k' s) = Js.get k s.
Proof.
  intros H1. unfold coerce_number. destruct (Js.get k' s) as [n|]; [| done].
  destruct (toNumber n); by rewrite ?get_set_ne, ?get_del_ne.
Qed.

Lemma get_array_specifics k rec s :
  k <> "items" -> k <> "minItems" -> k <> "maxItems" -> k <> "uniqueItems" ->
  Js.get k (array_specifics rec s) = Js.get k s.
Proof.
  intros H1 H2 H3 H4. unfold array_specifics.
  match goal with
  | |- context [if ?c then _ else _] => destruct c; [| done]
  end.
  match goal with
  | |- Js.get k match Js.get "uniqueItems" ?s1 with _ => _ end = _ =>
      transitivity (Js.get k s1);
      [destruct (Js.get "uniqueItems" s1) as [[]|];
         by rewrite ?get_del_ne |]
  end.
  rewrite !get_coerce_number by done.
  destruct (Js.get "items" s) as [items|]; [| done].
  destruct (Js.truthy items); by rewrite ?get_set_ne.
Qed.

Lemma get_numeric_constraints k s :
  ~ In k ["minimum"; "maximum"; "exclusiveMinimum"; "exclusiveMaximum";
          "multipleOf"; "minLength"; "maxLength"] ->
  Js.get k (numeric_constraints s) = Js.get k s.
Proof.
  intros Hout. unfold numeric_constraints.
  assert (Hne : forall k', In k' ["minimum"; "maximum"; "exclusiveMinimum";
                                  "exclusiveMaximum"; "multipleOf";
                                  "minLength"; "maxLength"] -> k <> k').
  { intros k' Hin ->. done. }
  rewrite !get_coerce_number, !get_del_ne, !get_coerce_number;
    try done; apply Hne; simpl; tauto.
Qed.

Lemma get_numeric_exclusive k s :
  k = "exclusiveMinimum" \/ k = "exclusiveMaximum" ->
  Js.get k (numeric_constraints s) = None.
Proof.
  intros [-> | ->]; unfold numeric_constraints;
    rewrite !get_coerce_number by done.
  - rewrite get_del_ne by done. apply get_del_eq.
  - apply get_del_eq.
Qed.

End TranslatorPassFacts.


Section SanitizedObjectFacts.
Import Schema.
Context `{Builtins}.

Lemma sanitize_object rec fs :
  sanitize_body default_options rec (JObj fs)
  = JObj
      (numeric_constraints
         (array_specifics rec
            (object_specifics rec
               (infer_missing_type
                  (type_handling
                     (sanitize_combinator rec "allOf"
                        (sanitize_combinator rec "oneOf"
                           (sanitize_combinator rec "anyOf"
                              (rename "all_of" "allOf"
                                 (rename "one_of" "oneOf"
                                    (rename "any_of" "anyOf"
                                       (const_to_enum
                                          (Js.del "title"
                                             (del_all
                                                ["$schema"; "definitions";
                                                 "$defs"; "$ref";
                                                 "patternProperties";
                                                 "examples"; "deprecated";
                                                 "readOnly"; "writeOnly"]
                                                fs)))))))))))))).
Proof. reflexivity. Qed.

Lemma get_const_removed s : Js.get "const" (const_to_enum s) = None.
Proof.
  unfold const_to_enum. destruct (Js.get "const" s) eqn:Hc; [| done].
  rewrite get_set_ne by done. apply get_del_eq.
Qed.

Lemma supported_string t : supported t = true -> Js.isArray t = false.
Proof. by destruct t. Qed.

Lemma type_handling_fits s : type_fits (type_handling s).
Proof.
  unfold type_fits, type_handling. intros t.
  destruct (Js.get "type" s) as [[| | |t0|ts|]|] eqn:Htype;
    try (rewrite Htype; intros [= <-]; by split).
  - destruct (supported (JStr t0)) eqn:Hsup.
    + rewrite Htype. intros [= <-]. by split.
    + by rewrite get_del_eq.
  - destruct (List.filter supported ts) as [|t1 [|t2 l]] eqn:Hf.
    + by rewrite get_del_eq.
    + rewrite get_set_eq. intros [= <-].
      assert (Hin : In t1 (List.filter supported ts)) by (rewrite Hf; by left).
      apply filter_In in Hin as [_ Hsup].
      split; [by apply supported_string | done].
    + rewrite get_set_ne by done. by rewrite get_del_eq.
Qed.

Lemma infer_missing_type_fits s : type_fits s -> type_fits (infer_missing_type s).
Proof.
  intros Hs. unfold infer_missing_type.
  destruct (Js.has "type" s); [done |].
  destruct (looksObject s || Js.has "additionalProperties" s).
  { intros t. rewrite get_set_eq. intros [= <-]. by split. }
  destruct (looksArray s); [| done].
  intros t. rewrite get_set_eq. intros [= <-]. by split.
Qed.

Lemma type_fits_frame s s' :
  Js.get "type" s' = Js.get "type" s -> type_fits s -> type_fits s'.
Proof. intros Heq Hs t. rewrite Heq. apply Hs. Qed.

Lemma object_specifics_required rec s req :
  Js.get "required" (object_specifics rec s) = Some (JArr req) ->
  Forall (fun r => is_string r = true) req.
Proof.
  unfold object_specifics.
  destruct (Js.is_str "object" (Js.get "type" s) || looksObject s
            || Js.has "additionalProperties" s) eqn:Hcond.
  - set (s1 := match Js.get "properties" s with
               | Some (JObj props) => _
               | Some (JArr props) => _
               | _ => s
               end).
    set (s2 := match Js.get "required" s1 with
               | Some (JArr req0) => _
               | _ => s1
               end).
    assert (Hap : Js.get "required"
                    match Js.get "additionalProperties" s2 with
                    | Some (JBool _) => s2
                    | Some (JObj ap) =>
                        Js.set "additionalProperties" (rec (JObj ap)) s2
                    | Some (JArr ap) =>
                        Js.set "additionalProperties" (rec (JArr ap)) s2
                    | Some _ => Js.set "additionalProperties" (JBool false) s2
                    | None => s2
                    end = Js.get "required" s2).
    { destruct (Js.get "additionalProperties" s2) as [[]|];
        by rewrite ?get_set_ne. }
    rewrite Hap. subst s2.
    destruct (Js.get "required" s1) as [[| | | |req0|]|] eqn:Hreq;
      try (rewrite Hreq; done).
    rewrite get_set_eq. intros [= <-].
    apply List.Forall_forall. intros r Hr. by apply filter_In in Hr as [_ Hr].
  - intros Hreq. apply orb_false_elim in Hcond as [Hcond _].
    apply orb_false_elim in Hcond as [_ Hlooks].
    unfold looksObject in Hlooks. apply orb_false_elim in Hlooks as [_ Hr].
    by rewrite Hreq in Hr.
Qed.

Lemma sanitized_root (fs : list (string * JSON)) :
  exists s,
    sanitizeToolParameters (JObj fs) = JObj s
    /\ clean s.
Proof.
  unfold sanitizeToolParameters. cbn [sanitize_at].
  rewrite sanitize_object.
  set (rec := sanitize_at default_options (height (JObj fs))).
  eexists. split; [reflexivity |]. split; [| split].
  - intros k Hk. unfold Js.has.
    match goal with
    | |- match ?g with _ => _ end = false =>
        assert (Hnone : g = None); [| by rewrite Hnone]
    end.
    unfold removed_keys in Hk. cbn [In] in Hk.
    repeat destruct Hk as [<- | Hk]; try done;
      repeat first
        [ rewrite get_numeric_exclusive by tauto
        | rewrite get_numeric_constraints by (cbn; intuition discriminate)
        | rewrite get_array_specifics by done
        | rewrite get_object_specifics by done
        | rewrite get_infer_missing_type by done
        | rewrite get_type_handling by done
        | rewrite get_sanitize_combinator by done
        | rewrite get_rename_old
        | rewrite get_rename by done
        | rewrite get_const_removed
        | rewrite get_const_to_enum by done
        | rewrite get_del_eq
        | rewrite get_del_ne by done
        | rewrite get_del_all_in by (cbn; tauto) ];
      reflexivity.
  - eapply type_fits_frame;
      [| apply infer_missing_type_fits, type_handling_fits].
    rewrite get_numeric_constraints by (cbn; intuition discriminate).
    rewrite get_array_specifics by done.
    by rewrite get_object_specifics.
  - intros req.
    rewrite get_numeric_constraints by (cbn; intuition discriminate).
    rewrite get_array_specifics by done.
    apply object_specifics_required.
Qed.

Lemma object_specifics_properties rec s :
  Js.get "properties" (object_specifics rec s)
  = match Js.get "properties" s with
    | Some (JObj props) =>
        Some (JObj (map (fun '(prop, sub) => (prop, rec sub)) props))
    | Some (JArr props) => Some (JArr (map rec props))
    | o => o
    end.
Proof.
  unfold object_specifics.
  destruct (Js.is_str "object" (Js.get "type" s) || looksObject s
            || Js.has "additionalProperties" s) eqn:Hcond.
  - match goal with
    | |- Js.get "properties"
           match Js.get "additionalProperties" ?s2 with _ => _ end = _ =>
        transitivity (Js.get "properties" s2);
        [destruct (Js.get "additionalProperties" s2) as [[]|];
           by rewrite ?(get_set_ne "properties" "additionalProperties") |]
    end.
    match goal with
    | |- Js.get "properties" match Js.get "required" ?s1 with _ => _ end = _ =>
        transitivity (Js.get "properties" s1);
        [destruct (Js.get "required" s1) as [[]|];
           by rewrite ?(get_set_ne "properties" "required") |]
    end.
    destruct (Js.get "properties" s) as [[]|] eqn:Hp;
      by rewrite ?get_set_eq.
  - apply orb_false_elim in Hcond as [Hcond _].
    apply orb_false_elim in Hcond as [_ Hlooks].
    unfold looksObject in Hlooks. apply orb_false_elim in Hlooks as [Hp _].
    by destruct (Js.get "properties" s) as [[]|].
Qed.

Lemma array_specifics_items rec s :
  Js.get "items" (array_specifics rec s)
  = match Js.get "items" s with
    | Some items => if Js.truthy items then Some (rec items) else Some items
    | None => None
    end.
Proof.
  unfold array_specifics.
  destruct (Js.is_str "array" (Js.get "type" s)
            || Js.otruthy (Js.get "items" s)) eqn:Hcond.
  - match goal with
    | |- Js.get "items"
           match Js.get "uniqueItems" ?s1 with _ => _ end = _ =>
        transitivity (Js.get "items" s1);
        [destruct (Js.get "uniqueItems" s1) as [[]|];
           by rewrite ?get_del_ne |]
    end.
    rewrite !get_coerce_number by done.
    destruct (Js.get "items" s) as [items|] eqn:Hitems; [| done].
    destruct (Js.truthy items); [apply get_set_eq | done].
  - apply orb_false_elim in Hcond as [_ Hitems].
    destruct (Js.get "items" s) as [items|]; [| done].
    simpl in Hitems. by rewrite Hitems.
Qed.

Lemma sanitized_properties (fs : list (string * JSON)) :
  Js.field "properties" (sanitizeToolParameters (JObj fs))
  = match Js.get "properties" fs with
    | Some (JObj props) =>
        Some (JObj (map (fun '(prop, sub) =>
                           (prop, sanitizeToolParameters sub)) props))
    | Some (JArr props) => Some (JArr (map sanitizeToolParameters props))
    | o => o
    end.
Proof.
  pose proof (height_fields fs) as Hfs. rewrite List.Forall_forall in Hfs.
  unfold sanitizeToolParameters at 1. cbn [sanitize_at].
  rewrite sanitize_object.
  set (rec := sanitize_at default_options (height (JObj fs))).
  cbn [Js.field].
  rewrite get_numeric_constraints by (cbn; intuition discriminate).
  rewrite get_array_specifics by done.
  rewrite object_specifics_properties.
  rewrite get_infer_missing_type by done.
  rewrite get_type_handling by done.
  rewrite !get_sanitize_combinator by done.
  rewrite !get_rename by done.
  rewrite get_const_to_enum by done.
  rewrite get_del_ne by done.
  rewrite get_del_all_out by (cbn; intuition discriminate).
  destruct (Js.get "properties" fs) as [[| | | |props|props]|] eqn:Hprops;
    try done.
  - f_equal. f_equal. apply map_ext_in. intros sub Hin.
    apply sanitizeToolParameters_fuel.
    apply get_Some_In in Hprops. specialize (Hfs _ Hprops).
    pose proof (height_items props) as Hps.
    rewrite List.Forall_forall in Hps. specialize (Hps _ Hin).
    cbn [snd] in Hfs. lia.
  - f_equal. f_equal. apply map_ext_in. intros [prop sub] Hin. f_equal.
    apply sanitizeToolParameters_fuel.
    apply get_Some_In in Hprops. specialize (Hfs _ Hprops).
    pose proof (height_fields props) as Hps.
    rewrite List.Forall_forall in Hps. specialize (Hps _ Hin).
    cbn [snd] in Hfs, Hps. lia.
Qed.

Lemma sanitized_items (fs : list (string * JSON)) :
  Js.field "items" (sanitizeToolParameters (JObj fs))
  = match Js.get "items" fs with
    | Some items =>
        if Js.truthy items then Some (sanitizeToolParameters items)
        else Some items
    | None => None
    end.
Proof.
  pose proof (height_fields fs) as Hfs. rewrite List.Forall_forall in Hfs.
  unfold sanitizeToolParameters at 1. cbn [sanitize_at].
  rewrite sanitize_object.
  set (rec := sanitize_at default_options (height (JObj fs))).
  cbn [Js.field].
  rewrite get_numeric_constraints by (cbn; intuition discriminate).
  rewrite array_specifics_items.
  rewrite get_object_specifics by done.
  rewrite get_infer_missing_type by done.
  rewrite get_type_handling by done.
  rewrite !get_sanitize_combinator by done.
  rewrite !get_rename by done.
  rewrite get_const_to_enum by done.
  rewrite get_del_ne by done.
  rewrite get_del_all_out by (cbn; intuition discriminate).
  destruct (Js.get "items" fs) as [items|] eqn:Hitems; [| done].
  destruct (Js.truthy items); [| done]. f_equal.
  apply sanitizeToolParameters_fuel.
  apply get_Some_In in Hitems. specialize (Hfs _ Hitems).
  cbn [snd] in Hfs. lia.
Qed.

Lemma sanitized_clean (n : nat) :
  forall x, height x < n -> schema_wide clean (sanitizeToolParameters x).
Proof.
  induction n as [|n IH]; intros x Hx; [lia |].
  pose proof (sanitizeToolParameters_shape x) as Hshape.
  destruct x as [|b|z|t|items|fs].
  - rewrite Hshape. by apply wide_other.
  - rewrite Hshape. by apply wide_other.
  - rewrite Hshape. by apply wide_other.
  - rewrite Hshape. by apply wide_other.
  - destruct Hshape as (items' & ->). by apply wide_other.
  - clear Hshape. destruct (sanitized_root fs) as (s & Hs & Hclean).
    pose proof (sanitized_properties fs) as Hprops.
    pose proof (sanitized_items fs) as Hitems.
    rewrite Hs in Hprops, Hitems |- *. cbn [Js.field] in Hprops, Hitems.
    pose proof (height_fields fs) as Hfs. rewrite List.Forall_forall in Hfs.
    apply wide_obj; [done | |].
    + intros props' Hget. rewrite Hget in Hprops.
      destruct (Js.get "properties" fs) as [[| | | |props|props]|] eqn:Hp;
        try done.
      injection Hprops as ->. apply Forall_map.
      apply List.Forall_forall. intros [prop sub] Hin. cbn [snd].
      apply IH. apply get_Some_In in Hp. specialize (Hfs _ Hp).
      pose proof (height_fields props) as Hps.
      rewrite List.Forall_forall in Hps. specialize (Hps _ Hin).
      cbn [snd] in Hfs, Hps. lia.
    + intros items' Hget. rewrite Hget in Hitems.
      destruct (Js.get "items" fs) as [items|] eqn:Hi; [| done].
      destruct (Js.truthy items) eqn:Htr.
      * injection Hitems as ->. apply IH.
        apply get_Some_In in Hi. specialize (Hfs _ Hi).
        cbn [snd] in Hfs. lia.
      * injection Hitems as ->. apply wide_other.
        by destruct items.
Qed.

(** What the translator's sanitizer makes of a schema is clean at the
    root and at every schema under it that is reached through
    [properties] and [items]: such an object holds none of the keys
    [$schema], [definitions], [$defs], [$ref], [patternProperties],
    [examples], [deprecated], [readOnly], [writeOnly], [title], [const],
    [any_of], [one_of], [all_of], [exclusiveMinimum],
    [exclusiveMaximum]; its [type] is never an array and, where it is a
    string, is one of the six supported types; and a [required] array
    holds only strings. *)
Theorem translator_pass_clean (schema : JSON) :
  schema_wide clean (sanitizeToolParameters schema).
Proof. apply (sanitized_clean (S (height schema))). lia. Qed.

(** The translator's sanitizer descends: the [properties] of an object
    are sanitized one by one by the same function, under their names and
    in their order, and so are its [items]. *)
Theorem translator_pass_descends (fs : list (string * JSON)) :
  (forall props,
      Js.get "properties" fs = Some (JObj props) ->
      Js.field "properties" (sanitizeToolParameters (JObj fs))
      = Some (JObj (map (fun '(prop, sub) =>
                           (prop, sanitizeToolParameters sub)) props)))
  /\ (forall items,
        Js.get "items" fs = Some items -> Js.truthy items = true ->
        Js.field "items" (sanitizeToolParameters (JObj fs))
        = Some (sanitizeToolParameters items)).
Proof.
  split.
  - intros props Hprops. by rewrite sanitized_properties, Hprops.
  - intros items Hitems Htruthy.
    by rewrite sanitized_items, Hitems, Htruthy.
Qed.

End SanitizedObjectFacts.


(** ** The theorems at sample inputs *)

Lemma system_treated_as_user_witness :
  let msgs := [message_of "system" (Translate.Text "be brief");
               message_of "user" (Translate.Text "hi")] in
  Translate.transform_messages (H := Sample.builtins)
    (Some "gemma-3-27b-it") true msgs
  = Translate.transform_messages (H := Sample.builtins)
      (Some "gemma-3-27b-it") true (map as_user msgs)
  /\ Translate.systemInstruction
       (Translate.transform_messages (H := Sample.builtins)
          (Some "gemma-3-27b-it") true msgs) = None.
Proof.
  intros msgs.
  apply (system_treated_as_user (H := Sample.builtins)
           (Some "gemma-3-27b-it") true msgs).
  vm_compute. reflexivity.
Defined.

Lemma declarations_mirror_tools_witness :
  let fs := function_tools (declared (Translate.tools sample_request)) in
  let ds := declared (Translate.r_tools sample_translation) in
  Translate.r_tools sample_translation <> Some []
  /\ map Translate.d_name ds = map Translate.tf_name fs
  /\ map Translate.d_description ds = map Translate.tf_description fs
  /\ Forall2 (fun f d => Translate.d_parameters d = None
                         <-> Js.otruthy (Translate.tf_parameters f) = false)
       fs ds.
Proof.
  apply (declarations_mirror_tools (H := Sample.builtins) sample_request
           None true sample_translation).
  vm_compute. reflexivity.
Defined.

Lemma tool_config_shape_witness :
  let cfg := {| Translate.mode := "ANY";
                Translate.allowedFunctionNames := Some ["get_weather"] |} in
  Translate.r_tools sample_translation <> None
  /\ Translate.tool_choice_of sample_request <> None
  /\ (Translate.mode cfg = "AUTO"
      /\ Translate.allowedFunctionNames cfg = None
      \/ Translate.mode cfg = "NONE"
         /\ Translate.allowedFunctionNames cfg = None
      \/ exists n, n <> "" /\ Translate.mode cfg = "ANY"
                   /\ Translate.allowedFunctionNames cfg = Some [n]).
Proof.
  intros cfg.
  apply (tool_config_shape (H := Sample.builtins) sample_request None true
           sample_translation cfg).
  - vm_compute. reflexivity.
  - reflexivity.
Defined.

Lemma tool_call_ids_distinct_witness :
  match Response.stream_chunk (H := Sample.builtins) sample_call None 0 "r"
  with
  | Some o => List.NoDup (map (Js.field "id") (tool_calls_in "delta" o))
  | None => True
  end.
Proof.
  destruct (Response.stream_chunk (H := Sample.builtins) sample_call None 0
              "r") as [o|] eqn:Ho; [| exact I].
  exact (proj2 (proj2 (tool_call_ids_distinct (H := Sample.builtins)
                         sample_call None 0 "r") o Ho)).
Defined.

Lemma function_call_round_trip_witness :
  flat_map (fun v => Translate.call_part (H := Sample.builtins)
                       (as_tool_call v))
    (tool_calls_in "message"
       (Response.completion (H := Sample.builtins) sample_call None 0 "r"))
  = map (fun f => Translate.PFunctionCall
                    (Response.show_opt (Response.fc_name f))
                    (args_or_empty f))
      (first_calls sample_call).
Proof.
  apply (function_call_round_trip (H := Sample.builtins) sample_call None 0
           "r").
  constructor; [| constructor].
  split; [by exists "get_weather" |].
  split; [vm_compute; discriminate | vm_compute; reflexivity].
Defined.


Lemma route_pass_prunes_witness : everywhere pruned sample_schema_pruned.
Proof.
  apply (proj1 (route_pass_prunes sample_schema sample_schema_pruned)).
  vm_compute. reflexivity.
Defined.

Lemma route_pass_throws_on_ref_only_witness :
  Schema.transformJsonSchemaFields (JObj [("$ref", JNum 1%Z)]) = None.
Proof.
  apply (proj2 route_pass_throws_on_ref_only [("$ref", JNum 1%Z)] (JNum 1%Z));
    reflexivity.
Defined.


Lemma heartbeat_silent_after_stop_witness :
  Stream.written
    (Stream.ka_res
       (Stream.ka_run (H := Sample.builtins) None 0 "r"
          ([Stream.StartHeartbeat]
           ++ Stream.StopHeartbeat
              :: [Stream.Tick; Stream.StartHeartbeat; Stream.Tick])))
  = Stream.written
      (Stream.ka_res
         (Stream.ka_run (H := Sample.builtins) None 0 "r"
            [Stream.StartHeartbeat])).
Proof.
  apply (heartbeat_silent_after_stop (H := Sample.builtins) None 0 "r"
           [Stream.StartHeartbeat]
           [Stream.Tick; Stream.StartHeartbeat; Stream.Tick]).
  repeat constructor.
Defined.

Lemma keepalive_final_frame_witness :
  exists frame,
    Stream.written
      (Stream.ka_res
         (Stream.sendFinalResponse (H := Sample.builtins) None 0 "r"
            sample_call Stream.keepalive0))
    = Stream.written (Stream.ka_res Stream.keepalive0)
      ++ [Response.sse (JSON_stringify (Builtins := Sample.builtins) frame);
          Response.DONE]
    /\ tool_calls_in "delta" frame = [].
Proof.
  destruct (keepalive_final_frame (H := Sample.builtins) None 0 "r"
              sample_call Stream.keepalive0)
    as (frame & Hw & _ & _ & _ & Hcalls);
    [reflexivity | reflexivity | vm_compute; reflexivity |].
  exists frame. by split.
Defined.

Lemma translator_pass_descends_witness :
  Js.field "properties"
    (Schema.sanitizeToolParameters (H := Sample.builtins)
       (JObj [("type", JStr "object");
              ("properties", JObj [("a", JObj [("title", JStr "A")])])]))
  = Some (JObj (map (fun '(prop, sub) =>
                       (prop,
                        Schema.sanitizeToolParameters (H := Sample.builtins)
                          sub))
                  [("a", JObj [("title", JStr "A")])])).
Proof.
  apply (proj1 (translator_pass_descends (H := Sample.builtins)
                  [("type", JStr "object");
                   ("properties", JObj [("a", JObj [("title", JStr "A")])])])).
  reflexivity.
Defined.


(** ** The wire format of the streaming route *)

Section FramingFacts.
Import Stream.
Context `{Builtins}.
Variable vertex : bool.
Variable requestedModelId : option string.
Variable now_ms : Z.
Variable rand : string.

#[local] Abbreviation handle :=
  (Stream.handle vertex requestedModelId now_ms rand).
#[local] Abbreviation run := (Stream.run vertex requestedModelId now_ms rand).
















End FramingFacts.
